(** * build_json.py: catalogue builder for Processing contributions

    A shallow embedding of [scripts/build_json.py].  Python [str] values are
    modelled as [string]; a character is a code point below 256 and [ord] is
    [nat_of_ascii].  Dictionaries are association lists in insertion order,
    as iteration order decides which category comes first and in which
    order files are written.  Printing, the network and the file system are
    an explicit list of events; exceptions are values.  The collaborators of
    the program are parameters: the fetch and decoding of a URL, the making
    of the output directory and the opening and writing of an output file
    each answer with a value or with the exception they raise. *)

From Stdlib Require Import String Ascii List ZArith Bool Lia.
Import ListNotations.

Open Scope string_scope.
Open Scope Z_scope.

(** ** Python string primitives *)

Module PyStr.

(** [len(s)] *)
Definition len (s : string) : Z := Z.of_nat (String.length s).

Fixpoint take (n : nat) (s : string) : string :=
  match n, s with
  | S n', String c r => String c (take n' r)
  | _, _ => EmptyString
  end.

Fixpoint drop (n : nat) (s : string) : string :=
  match n, s with
  | S n', String _ r => drop n' r
  | _, _ => s
  end.

(** Position denoted by a slice bound [k] in a string of length [l]:
    negative bounds count from the end, and every bound is clamped. *)
Definition bound (l k : Z) : nat :=
  Z.to_nat (Z.min l (if k <? 0 then Z.max 0 (l + k) else k)).

(** [s[:k]] *)
Definition slice_to (s : string) (k : Z) : string :=
  take (bound (len s) k) s.

(** [s[k:]] *)
Definition slice_from (s : string) (k : Z) : string :=
  drop (bound (len s) k) s.

(** [s[i:j]] *)
Definition slice (s : string) (i j : Z) : string :=
  let a := bound (len s) i in
  let b := bound (len s) j in
  take (b - a) (drop a s).

(** [s[0]] and [s[-1]]; [None] stands for IndexError on the empty string. *)
Definition first (s : string) : option ascii :=
  match s with
  | EmptyString => None
  | String c _ => Some c
  end.

Fixpoint last (s : string) : option ascii :=
  match s with
  | EmptyString => None
  | String c EmptyString => Some c
  | String _ r => last r
  end.

Fixpoint find_from (c : ascii) (s : string) (i : Z) : Z :=
  match s with
  | EmptyString => -1
  | String a r => if Ascii.eqb a c then i else find_from c r (i + 1)
  end.

(** [s.find(c)] for a one-character needle: first index, or -1. *)
Definition find (c : ascii) (s : string) : Z := find_from c s 0.

Fixpoint rfind_from (c : ascii) (s : string) (i found : Z) : Z :=
  match s with
  | EmptyString => found
  | String a r => rfind_from c r (i + 1) (if Ascii.eqb a c then i else found)
  end.

(** [s.rfind(c)]: last index, or -1. *)
Definition rfind (c : ascii) (s : string) : Z := rfind_from c s 0 (-1).

(** [c.isspace()] on code points below 256. *)
Definition isspace (c : ascii) : bool :=
  let n := nat_of_ascii c in
  ((9 <=? n) && (n <=? 13) || (28 <=? n) && (n <=? 32)
   || (n =? 133) || (n =? 160))%nat.

Fixpoint lstrip (s : string) : string :=
  match s with
  | EmptyString => EmptyString
  | String c r => if isspace c then lstrip r else s
  end.

Fixpoint rstrip (s : string) : string :=
  match s with
  | EmptyString => EmptyString
  | String c r =>
      match rstrip r with
      | EmptyString => if isspace c then EmptyString else String c EmptyString
      | r' => String c r'
      end
  end.

(** [s.strip()] *)
Definition strip (s : string) : string := rstrip (lstrip s).

(** [s.split(c)] for a one-character separator; never the empty list. *)
Fixpoint split (c : ascii) (s : string) : list string :=
  match s with
  | EmptyString => [EmptyString]
  | String a r =>
      if Ascii.eqb a c then EmptyString :: split c r
      else match split c r with
           | [] => [String a EmptyString]
           | w :: ws => String a w :: ws
           end
  end.

(** [s.split()]: the maximal runs of non-whitespace characters. *)
Fixpoint split_ws_acc (s : string) (cur : string) : list string :=
  match s with
  | EmptyString =>
      match cur with EmptyString => [] | _ => [cur] end
  | String a r =>
      if isspace a
      then match cur with
           | EmptyString => split_ws_acc r EmptyString
           | _ => cur :: split_ws_acc r EmptyString
           end
      else split_ws_acc r (cur ++ String a EmptyString)
  end.

Definition split_ws (s : string) : list string := split_ws_acc s EmptyString.

(** [sep.join(l)] *)
Definition join (sep : string) (l : list string) : string := String.concat sep l.

(** [s.replace(old, new)] for a non-empty [old]: left to right, without
    overlap.  [skip] counts the characters of a match still to be dropped. *)
Fixpoint replace_skip (old new : string) (skip : nat) (s : string) : string :=
  match s with
  | EmptyString => EmptyString
  | String c r =>
      match skip with
      | S k => replace_skip old new k r
      | O =>
          if String.prefix old s
          then new ++ replace_skip old new (Nat.pred (String.length old)) r
          else String c (replace_skip old new O r)
      end
  end.

Definition replace (old new s : string) : string := replace_skip old new O s.

(** [c.lower()] on code points below 256. *)
Definition lower_char (c : ascii) : ascii :=
  let n := nat_of_ascii c in
  if ((65 <=? n) && (n <=? 90)
      || (192 <=? n) && (n <=? 222) && negb (n =? 215))%nat
  then ascii_of_nat (n + 32) else c.

Fixpoint lower (s : string) : string :=
  match s with
  | EmptyString => EmptyString
  | String c r => String (lower_char c) (lower r)
  end.

(** The comprehension ["".join(c for c in s if p c)]. *)
Fixpoint filter (p : ascii -> bool) (s : string) : string :=
  match s with
  | EmptyString => EmptyString
  | String c r => if p c then String c (filter p r) else filter p r
  end.

(** [s.replace(a, b)] for one-character [a] and [b]. *)
Fixpoint replace_char (a b : ascii) (s : string) : string :=
  match s with
  | EmptyString => EmptyString
  | String c r => String (if Ascii.eqb c a then b else c) (replace_char a b r)
  end.

(** [c] occurs in [s]. *)
Fixpoint occurs (c : ascii) (s : string) : Prop :=
  match s with
  | EmptyString => False
  | String a r => a = c \/ occurs c r
  end.

(** [s] ends with [suffix]. *)
Definition endswith (s suffix : string) : Prop := exists stem, s = stem ++ suffix.

End PyStr.

(** ** Exceptions *)

(** The exception classes the script can meet.  [IOError] is [OSError] and
    covers [URLError], [HTTPError] and socket errors; [UnicodeDecodeError] is
    kept apart from its base class [ValueError] because the handlers name the
    subclass only; [HTTPException] is the root of [http.client]'s errors. *)
Inductive exn : Type :=
| IOError
| UnicodeDecodeError
| ValueError
| KeyError
| TypeError
| HTTPException.

Inductive result (A : Type) : Type :=
| Ok (a : A)
| Raise (e : exn).

Arguments Ok {A} a.
Arguments Raise {A} e.

Definition bind {A B : Type} (r : result A) (k : A -> result B) : result B :=
  match r with
  | Ok a => k a
  | Raise e => Raise e
  end.

Notation "x <- r ;; k" := (bind r (fun x => k))
  (at level 61, r at next level, right associativity).

(** The exception classes named by the two [except] clauses. *)
Definition handled (e : exn) : Prop := e = IOError \/ e = UnicodeDecodeError.

(** ** Dictionaries in insertion order *)

Module Dict.

Section Ops.
Context {V : Type}.

Definition t : Type := list (string * V).

(** [d.get(k)] *)
Fixpoint get (k : string) (d : t) : option V :=
  match d with
  | [] => None
  | (k', v) :: r => if String.eqb k' k then Some v else get k r
  end.

(** [k in d] *)
Definition mem (k : string) (d : t) : bool :=
  match get k d with Some _ => true | None => false end.

(** [d[k]], which raises KeyError on a missing key. *)
Definition item (k : string) (d : t) : result V :=
  match get k d with Some v => Ok v | None => Raise KeyError end.

(** [d[k] = v]: an existing key keeps its position, a new one goes last. *)
Fixpoint set (k : string) (v : V) (d : t) : t :=
  match d with
  | [] => [(k, v)]
  | (k', v') :: r =>
      if String.eqb k' k then (k', v) :: r else (k', v') :: set k v r
  end.

(** [d.pop(k)] on a key that may be absent. *)
Fixpoint pop (k : string) (d : t) : t :=
  match d with
  | [] => []
  | (k', v') :: r => if String.eqb k' k then r else (k', v') :: pop k r
  end.

(** [list(d.keys())] *)
Definition keys (d : t) : list string := map fst d.
End Ops.

Arguments t : clear implicits.

End Dict.

(** JSON values as [json.dump] receives them. *)
#[local] Unset Elimination Schemes.
Inductive json : Type :=
| JNull
| JStr (s : string)
| JList (l : list json)
| JObj (o : list (string * json)).
#[local] Set Elimination Schemes.

(** What the script does to the outside world. *)
Inductive event : Type :=
| Print (line : string)
| PrintList (l : list string)
| PrintExn (e : exn)
| Urlopen (url : string)
| RecreateDir (path : string)
| WriteFile (path : string) (content : Dict.t json).

(** [int(s)] in base 10 on a [str]: surrounding whitespace, one optional
    sign, digits with single underscores between them.  The whitespace
    [int] skips is not the one of [str.strip]: below code point 127 it is
    tab to carriage return and the space; of the characters above, the
    whitespace ones (133 and 160) are first turned into spaces, and any other
    is refused.  The separators 28 to 31 are therefore refused. *)
Inductive int_state : Type := AtStart | AfterDigit | AfterUnderscore.

Definition is_digit (c : ascii) : bool :=
  let n := nat_of_ascii c in ((48 <=? n) && (n <=? 57))%nat.

Definition digit_value (c : ascii) : Z := Z.of_nat (nat_of_ascii c) - 48.

Definition int_space (c : ascii) : bool :=
  let n := nat_of_ascii c in
  ((9 <=? n) && (n <=? 13) || (n =? 32) || (n =? 133) || (n =? 160))%nat.

Fixpoint int_lstrip (s : string) : string :=
  match s with
  | EmptyString => EmptyString
  | String c r => if int_space c then int_lstrip r else s
  end.

Fixpoint int_rstrip (s : string) : string :=
  match s with
  | EmptyString => EmptyString
  | String c r =>
      match int_rstrip r with
      | EmptyString => if int_space c then EmptyString else String c EmptyString
      | r' => String c r'
      end
  end.

Fixpoint int_digits (s : string) (acc : Z) (st : int_state) : result Z :=
  match s with
  | EmptyString =>
      match st with AfterDigit => Ok acc | _ => Raise ValueError end
  | String c r =>
      if is_digit c then int_digits r (10 * acc + digit_value c) AfterDigit
      else if Ascii.eqb c "_"
           then match st with
                | AfterDigit => int_digits r acc AfterUnderscore
                | _ => Raise ValueError
                end
           else Raise ValueError
  end.

(** [sys.int_max_str_digits] as CPython sets it since 3.11: a string with
    more digits is refused with ValueError. *)
Definition int_max_str_digits : Z := 4300.

Definition digit_count (s : string) : Z :=
  Z.of_nat (String.length (PyStr.filter is_digit s)).

Definition py_int (s : string) : result Z :=
  let t := int_rstrip (int_lstrip s) in
  if int_max_str_digits <? digit_count t then Raise ValueError
  else match t with
       | String "-" r => n <- int_digits r 0 AtStart ;; Ok (- n)
       | String "+" r => int_digits r 0 AtStart
       | _ => int_digits t 0 AtStart
       end.

(** A revision bound is the integer the script assigns by default or the
    string it takes from [argv]. *)
Inductive arg : Type :=
| ArgInt (n : Z)
| ArgStr (s : string).

(** [int(a)] *)
Definition int_arg (a : arg) : result Z :=
  match a with
  | ArgInt n => Ok n
  | ArgStr s => py_int s
  end.

(** [o == c] for the character read by [s[0]] or [s[-1]]. *)
Definition is_char (o : option ascii) (c : ascii) : bool :=
  match o with Some a => Ascii.eqb a c | None => false end.

Definition CR : string := String "013" EmptyString.
Definition LF : string := String "010" EmptyString.
Definition DQUOTE : string := String "034" EmptyString.

(** ** read_exports *)

(** The two lines shared by both parsers:
    [hash = line.find('#')] and
    [line = line.strip() if hash == -1 else line[:hash]]. *)
Definition cut_comment (line : string) : string :=
  let hash := PyStr.find "#" line in
  if hash =? -1 then PyStr.strip line else PyStr.slice_to line hash.

Definition read_exports_line (export_table : Dict.t string) (line : string)
  : Dict.t string :=
  let line := cut_comment line in
  if PyStr.len line =? 0 then export_table
  else
    let equals := PyStr.find "=" line in
    if equals =? -1 then export_table
    else
      let attr := PyStr.strip (PyStr.slice_to line equals) in
      let val := PyStr.strip (PyStr.slice_from line (equals + 1)) in
      Dict.set attr val export_table.

(** [read_exports] on the text that [f.read().decode('utf-8')] returned. *)
Definition read_exports (decoded : string) : Dict.t string :=
  let lines := decoded in
  let lines :=
    PyStr.replace "compatibleModesList" "modes"
      (PyStr.replace "category" "categories"
         (PyStr.replace "authorList" "authors" lines)) in
  let lines := PyStr.replace CR LF (PyStr.replace (CR ++ LF) LF lines) in
  let lines := PyStr.split "010" lines in
  fold_left read_exports_line lines [].

(** ** format_exports *)

Definition package_keys : list string :=
  ["minRevision"; "maxRevision"; "props"; "download"].

Definition remove_keys : list string := ["version"; "prettyVersion"].

Definition move_key (acc : Dict.t json * Dict.t json) (key : string)
  : Dict.t json * Dict.t json :=
  let '(package_java, exports) := acc in
  match Dict.get key exports with
  | Some v => (Dict.set key v package_java, Dict.pop key exports)
  | None => (package_java, exports)
  end.

Definition format_exports (record : Dict.t string) : Dict.t json :=
  let exports : Dict.t json := map (fun kv => (fst kv, JStr (snd kv))) record in
  let exports :=
    match Dict.get "authors" exports with
    | Some a => Dict.set "authors" (JList [a]) exports
    | None => exports
    end in
  let exports :=
    match Dict.get "categories" record with
    | Some (String c r) =>
        let categories := PyStr.split "," (String c r) in
        Dict.set "categories" (JList (map JStr categories)) exports
    | _ => Dict.set "categories" JNull exports
    end in
  let '(package_java, exports) :=
    fold_left move_key package_keys ([("mode", JStr "java")], exports) in
  let exports := Dict.set "packages" (JList [JObj package_java]) exports in
  fold_left (fun ex key => Dict.pop key ex) remove_keys exports.

(** ** write_exports *)

Definition blacklist : list ascii :=
  ["\"; "/"; ":"; "*"; "?"; "034"; "<"; ">"; "|"; "000"]%char.

(** The name of the file, before ['.json'] is appended. *)
Definition sanitize (name : string) : string :=
  let filename := PyStr.strip name in
  let filename :=
    PyStr.filter (fun c => negb (existsb (Ascii.eqb c) blacklist)) filename in
  let filename := PyStr.filter (fun c => (31 <? nat_of_ascii c)%nat) filename in
  PyStr.replace_char " " "_" filename.

(** [os.path.join] of [posixpath] on two components. *)
Definition path_join (a b : string) : string :=
  if is_char (PyStr.first b) "/" then b
  else if (PyStr.len a =? 0) || is_char (PyStr.last a) "/" then a ++ b
  else a ++ "/" ++ b.

Definition str_of (j : json) : result string :=
  match j with JStr s => Ok s | _ => Raise TypeError end.

(** [exports['packages'][0]['props']] *)
Definition package_props (exports : Dict.t json) : result string :=
  p <- Dict.item "packages" exports ;;
  match p with
  | JList (JObj package :: _) => v <- Dict.item "props" package ;; str_of v
  | _ => Raise TypeError
  end.

(** [write_exports], with the collaborator behind [open(filepath, 'w')]
    and the writes of [json.dump]: [open_w filepath] is [Ok tt] when the file
    is written and the exception raised otherwise.  The line is printed
    before the file is opened. *)
Definition write_exports (open_w : string -> result unit)
  (dirout : string) (exports : Dict.t json) : list event * option exn :=
  match (v <- Dict.item "name" exports ;; str_of v) with
  | Raise e => ([], Some e)
  | Ok name =>
      let filename := sanitize name in
      let filepath := path_join dirout (filename ++ ".json") in
      match package_props exports with
      | Raise e => ([], Some e)
      | Ok props =>
          let line := Print ("export " ++ props ++ " to " ++ filepath) in
          match open_w filepath with
          | Raise e => ([line], Some e)
          | Ok _ => ([line; WriteFile filepath exports], None)
          end
      end
  end.

(** ** get_lib_locations *)

(** [(software_type, contribution_name, download_url)] *)
Definition entry : Type := (string * string * string)%type.

Definition msg_ignoring : string :=
  "Ignoring contribution without type or category".

Definition msg_malformed : string :=
  "Lines for contributions must be of the form " ++ DQUOTE
  ++ "[Contribution ID] \ [Contribution URL]" ++ DQUOTE.

(** The local variables of [get_lib_locations], and what it printed. *)
Record parser : Type := mkParser {
  software_type : option string;
  category : option string;
  urls_by_category : Dict.t (list entry);
  printed : list event
}.

Definition parser_init : parser := mkParser None None [] [].

(** [urls_by_category[category].append(e)], after the key was created with
    an empty list when absent. *)
Definition append_entry (cat : string) (e : entry) (d : Dict.t (list entry))
  : Dict.t (list entry) :=
  let d := if Dict.mem cat d then d else Dict.set cat [] d in
  match Dict.get cat d with
  | Some l => Dict.set cat (l ++ [e])%list d
  | None => d
  end.

(** One turn of the loop over [f.readlines()]. *)
Definition parse_line (st : parser) (raw : string) : parser :=
  let line := cut_comment raw in
  if PyStr.len line =? 0 then st
  else if is_char (PyStr.first line) "[" && is_char (PyStr.last line) "]"
  then
    let contents := PyStr.slice line 1 (-1) in
    match PyStr.split ":" contents with
    | [c0; c1] =>
        let ty := PyStr.strip c0 in
        let ty := PyStr.lower (PyStr.join "" (PyStr.split_ws ty)) in
        mkParser (Some ty) (Some (PyStr.strip c1))
                 (urls_by_category st) (printed st)
    | _ => mkParser None None (urls_by_category st) (printed st)
    end
  else
    match software_type st, category st with
    | Some ty, Some cat =>
        match PyStr.split "\" line with
        | [c0; c1] =>
            let name := PyStr.strip c0 in
            let url := PyStr.strip c1 in
            mkParser (Some ty) (Some cat)
                     (append_entry cat (ty, name, url) (urls_by_category st))
                     (printed st)
        | contents =>
            mkParser (Some ty) (Some cat) (urls_by_category st)
                     (printed st ++ [Print msg_malformed; PrintList contents])%list
        end
    | _, _ =>
        mkParser (software_type st) (category st) (urls_by_category st)
                 (printed st ++ [Print msg_ignoring])%list
    end.

Definition parse_lines (st : parser) (lines : list string) : parser :=
  fold_left parse_line lines st.

(** [get_lib_locations] on the list that [f.readlines()] returned. *)
Definition get_lib_locations (lines : list string) : Dict.t (list entry) :=
  urls_by_category (parse_lines parser_init lines).

(** ** missing_key *)

Definition required_keys : list string :=
  ["name"; "authors"; "url"; "categories"; "sentence"; "version"].

(** [keys.count(key)] *)
Definition count_key (key : string) (keys : list string) : nat :=
  List.length (List.filter (String.eqb key) keys).

Fixpoint first_missing (keys required : list string) : option string :=
  match required with
  | [] => None
  | key :: rest =>
      if (count_key key keys =? 0)%nat then Some key
      else first_missing keys rest
  end.

Definition missing_key (exports : Dict.t string) : option string :=
  first_missing (Dict.keys exports) required_keys.

(** ** The main program *)

(** [contribs_by_id] *)
Definition table : Type := Dict.t (Dict.t string).

(** State after one contribution: the table, what happened, and the
    exception that left the loop, if any. *)
Record outcome : Type := mkOutcome {
  contribs : table;
  happened : list event;
  escaped : option exn
}.

Section Main.

(** The collaborator behind [urlopen(prop_url)] followed by
    [f.read().decode('utf-8')]: the decoded text, or the exception raised. *)
Variable urlopen : string -> result string.

(** The lines of broken.conf and skipped.conf. *)
Variable broken_ids : list string.
Variable skipped_ids : list string.

(** [minrev] and [maxrev] as the program holds them: the integers 228 and
    0, or the strings of [argv]. *)
Variable minrev : arg.
Variable maxrev : arg.

(** The collaborator behind lines 305 to 308, which delete and create the
    output directory: [Ok tt], or the exception raised. *)
Variable recreate_dir : string -> result unit.

(** The collaborator behind [open(filepath, 'w')] and [json.dump]. *)
Variable open_w : string -> result unit.

(** [x in ids] *)
Definition listed (x : string) (ids : list string) : bool :=
  existsb (String.eqb x) ids.

(** Lines 254 to 274: the fields the driver sets on a parsed descriptor. *)
Definition inject (cat contrib_id ty prop_url : string)
  (exports : Dict.t string) : Dict.t string :=
  let exports := Dict.set "id" contrib_id exports in
  let exports := Dict.set "type" ty exports in
  let exports := Dict.set "props" prop_url exports in
  let exports := Dict.set "categories" cat exports in
  let exports :=
    match Dict.get "minRevision" exports with
    | Some (String _ _) => exports
    | _ => Dict.set "minRevision" "0" exports
    end in
  if listed contrib_id broken_ids
  then Dict.set "maxRevision" "228" exports
  else match Dict.get "maxRevision" exports with
       | Some (String _ _) => exports
       | _ => Dict.set "maxRevision" "0" exports
       end.

(** [prop_url[:prop_url.rfind('.')] + '.zip'] *)
Definition default_download (prop_url : string) : string :=
  PyStr.slice_to prop_url (PyStr.rfind "." prop_url) ++ ".zip".

(** [len([x for x in exports if m.match(x)]) == 0] for
    [m = re.compile('download.*')]: no key starts with [download]. *)
Definition no_download_key (exports : Dict.t string) : bool :=
  (List.length (List.filter (String.prefix "download") (Dict.keys exports))
   =? 0)%nat.

Definition with_download (download_url : string) (exports : Dict.t string)
  : Dict.t string :=
  if no_download_key exports
  then Dict.set "download" download_url exports
  else exports.

(** [int(exports[key])] *)
Definition int_field (key : string) (exports : Dict.t string) : result Z :=
  s <- Dict.item key exports ;; py_int s.

(** The condition of lines 287 and 288, with the order of evaluation of
    [or] and [and]: [int(minrev)] comes first and is evaluated here, inside
    the [try] statement.  A conversion that is written twice gives the same
    result twice and is made once. *)
Definition compatible (exports : Dict.t string) : result bool :=
  lower_ok <-
    (lo_bound <- int_arg minrev ;;
     if lo_bound =? 0 then Ok true
     else hi <- int_field "maxRevision" exports ;;
          Ok ((hi =? 0) || (lo_bound <=? hi))) ;;
  if lower_ok
  then hi_bound <- int_arg maxrev ;;
       if hi_bound =? 0 then Ok true
       else lo <- int_field "minRevision" exports ;;
            Ok ((lo =? 0) || (hi_bound >=? lo))
  else Ok false.

(** Lines 289 to 294. *)
Definition accumulate (cat contrib_id : string) (exports : Dict.t string)
  (contribs_by_id : table) : result table :=
  if negb (Dict.mem contrib_id contribs_by_id)
  then Ok (Dict.set contrib_id exports contribs_by_id)
  else
    r <- Dict.item contrib_id contribs_by_id ;;
    c <- Dict.item "categories" r ;;
    Ok (Dict.set contrib_id (Dict.set "categories" (c ++ "," ++ cat) r)
          contribs_by_id).

(** The body of the [try] statement: what it printed and fetched, and
    either the table it leaves or the exception it raises.  A record with a
    missing key leaves by [continue]. *)
Definition try_body (cat contrib_id ty prop_url download_url : string)
  (contribs_by_id : table) : list event * result table :=
  let opening := [Print ("Opening " ++ prop_url); Urlopen prop_url] in
  match urlopen prop_url with
  | Raise e => (opening, Raise e)
  | Ok decoded =>
      let exports := inject cat contrib_id ty prop_url (read_exports decoded) in
      match missing_key exports with
      | Some key =>
          ((opening ++
              [Print ("Error reading " ++ prop_url);
               Print ("  No value for '" ++ key ++ "'. Maybe it's a 404 page")])%list,
           Ok contribs_by_id)
      | None =>
          let exports := with_download download_url exports in
          (opening,
           ok <- compatible exports ;;
           if (ok : bool) then accumulate cat contrib_id exports contribs_by_id
           else Ok contribs_by_id)
      end
  end.

(** One turn of the inner loop, with the two [except] clauses. *)
Definition process_contrib (cat : string) (contrib : entry)
  (contribs_by_id : table) : outcome :=
  let '(ty, contrib_id, prop_url) := contrib in
  if listed contrib_id skipped_ids
  then mkOutcome contribs_by_id [Print ("Skipping " ++ contrib_id)] None
  else
    let download_url := default_download prop_url in
    match try_body cat contrib_id ty prop_url download_url contribs_by_id with
    | (evs, Ok contribs_by_id') => mkOutcome contribs_by_id' evs None
    | (evs, Raise IOError) =>
        mkOutcome contribs_by_id
          (evs ++ [Print ("Error reading " ++ prop_url); PrintExn IOError])%list
          None
    | (evs, Raise UnicodeDecodeError) =>
        mkOutcome contribs_by_id
          (evs ++ [Print ("Error decoding " ++ prop_url);
                   PrintExn UnicodeDecodeError])%list
          None
    | (evs, Raise e) => mkOutcome contribs_by_id evs (Some e)
    end.

(** The two nested [for] loops visit the entries category by category. *)
Definition jobs (urls : Dict.t (list entry)) : list (string * entry) :=
  flat_map (fun kv => map (pair (fst kv)) (snd kv)) urls.

Fixpoint fetch_loop (todo : list (string * entry)) (contribs_by_id : table)
  : outcome :=
  match todo with
  | [] => mkOutcome contribs_by_id [] None
  | (cat, contrib) :: rest =>
      let o := process_contrib cat contrib contribs_by_id in
      match escaped o with
      | Some e => o
      | None =>
          let o' := fetch_loop rest (contribs o) in
          mkOutcome (contribs o') (happened o ++ happened o')%list (escaped o')
      end
  end.

(** The last loop: format and write every accumulated record, up to the
    first exception. *)
Fixpoint write_all (dirout : string) (contribs_by_id : table)
  : list event * option exn :=
  match contribs_by_id with
  | [] => ([], None)
  | (_, record) :: rest =>
      match write_exports open_w dirout (format_exports record) with
      | (evs, Some e) => (evs, Some e)
      | (evs, None) =>
          let '(evs', x) := write_all dirout rest in ((evs ++ evs')%list, x)
      end
  end.

(** The program from line 230 on: everything that happened, and the
    exception that ended the run, if any. *)
Definition batch (conf_lines : list string) (dirout : string)
  : list event * option exn :=
  let st := parse_lines parser_init conf_lines in
  let o := fetch_loop (jobs (urls_by_category st)) [] in
  match escaped o with
  | Some e => ((printed st ++ happened o)%list, Some e)
  | None =>
      match recreate_dir dirout with
      | Raise e => ((printed st ++ happened o)%list, Some e)
      | Ok _ =>
          let '(evs, x) := write_all dirout (contribs o) in
          ((printed st ++ happened o ++ RecreateDir dirout :: evs)%list, x)
      end
  end.

(** The files of a run, in the order they are written. *)
Fixpoint written (evs : list event) : list (string * Dict.t json) :=
  match evs with
  | [] => []
  | WriteFile path content :: rest => (path, content) :: written rest
  | _ :: rest => written rest
  end.

(** The URLs a run fetched, in order. *)
Fixpoint fetched (evs : list event) : list string :=
  match evs with
  | [] => []
  | Urlopen url :: rest => url :: fetched rest
  | _ :: rest => fetched rest
  end.

(** ** Vocabulary of the statements *)

(** The record that reaches the compatibility check, for a descriptor
    whose decoded text is [decoded]. *)
Definition candidate (cat contrib_id ty prop_url decoded : string)
  : Dict.t string :=
  with_download (default_download prop_url)
    (inject cat contrib_id ty prop_url (read_exports decoded)).

Definition job_id (job : string * entry) : string := snd (fst (snd job)).

(** The entry passes every gate of [process_contrib] and is accumulated. *)
Definition accepts (job : string * entry) : bool :=
  let '(cat, (ty, contrib_id, prop_url)) := job in
  if listed contrib_id skipped_ids then false
  else match urlopen prop_url with
       | Raise _ => false
       | Ok decoded =>
           match missing_key
                   (inject cat contrib_id ty prop_url (read_exports decoded))
           with
           | Some _ => false
           | None =>
               match compatible (candidate cat contrib_id ty prop_url decoded)
               with
               | Ok ok => ok
               | Raise _ => false
               end
           end
       end.

(** The categories under which the id [i] is accepted, in order. *)
Definition accepted_cats (i : string) (todo : list (string * entry))
  : list string :=
  map fst
    (List.filter (fun job => String.eqb (job_id job) i && accepts job) todo).

(** The fetch of [prop_url] raises nothing the handlers do not name, and a
    descriptor it returns has numeric revisions once defaulted. *)
Definition well_behaved (job : string * entry) : Prop :=
  let '(cat, (ty, contrib_id, prop_url)) := job in
  (forall e, urlopen prop_url = Raise e -> handled e)
  /\ (forall decoded,
         urlopen prop_url = Ok decoded ->
         exists lo hi,
           int_field "minRevision"
             (candidate cat contrib_id ty prop_url decoded) = Ok lo
           /\ int_field "maxRevision"
                (candidate cat contrib_id ty prop_url decoded)
              = Ok hi).

End Main.

(** The inclusion rule in the words of the specification, on the integer
    values [lo] and [hi] of the record's minRevision and maxRevision. *)
Definition in_range (minrev maxrev lo hi : Z) : Prop :=
  (minrev = 0 \/ hi = 0 \/ minrev <= hi)
  /\ (maxrev = 0 \/ lo = 0 \/ maxrev >= lo).

(** The three tests of [parse_line] on a raw line. *)
Definition blank (raw : string) : bool := PyStr.len (cut_comment raw) =? 0.

Definition bracketed (raw : string) : bool :=
  is_char (PyStr.first (cut_comment raw)) "["
  && is_char (PyStr.last (cut_comment raw)) "]".

Definition two_parts (raw : string) : bool :=
  match PyStr.split ":" (PyStr.slice (cut_comment raw) 1 (-1)) with
  | [_; _] => true
  | _ => false
  end.

(** A line that [parse_line] takes as a header opening a category. *)
Definition opens_category (raw : string) : bool :=
  negb (blank raw) && bracketed raw && two_parts raw.

(** Every character of [s] is whitespace. *)
Fixpoint all_space (s : string) : bool :=
  match s with
  | EmptyString => true
  | String c r => PyStr.isspace c && all_space r
  end.

(** The file a record is written to. *)
Definition export_path (dirout : string) (record : Dict.t string) : string :=
  match Dict.get "name" record with
  | Some name => path_join dirout (sanitize name ++ ".json")
  | None => dirout
  end.

(** The fields set before the revision defaults. *)
Definition contextual (cat contrib_id ty prop_url : string)
  (exports : Dict.t string) : Dict.t string :=
  Dict.set "categories" cat
    (Dict.set "props" prop_url
       (Dict.set "type" ty (Dict.set "id" contrib_id exports))).

(** The record once minRevision has its default. *)
Definition with_min (exports : Dict.t string) : Dict.t string :=
  match Dict.get "minRevision" exports with
  | Some (String _ _) => exports
  | _ => Dict.set "minRevision" "0" exports
  end.

(** What every record of the accumulation table satisfies under the
    key [k]. *)
Definition record_ok (k : string) (r : Dict.t string) : Prop :=
  Dict.get "id" r = Some k
  /\ missing_key r = None
  /\ Dict.get "props" r <> None.

Definition table_ok (tbl : table) : Prop :=
  NoDup (Dict.keys tbl) /\ Forall (fun kv => record_ok (fst kv) (snd kv)) tbl.

(** A file system that refuses nothing. *)
Definition always_ok (path : string) : result unit := Ok tt.

(** A descriptor with every required key, followed by [more]. *)
Definition sample_descriptor (more : string) : string :=
  "name=Foo" ++ LF ++ "authorList=Jane" ++ LF ++ "category=Sound,Tools" ++ LF
  ++ "sentence=desc" ++ LF ++ "url=http://x" ++ LF ++ "version=1.0" ++ LF
  ++ more.

(** A configuration that lists one contribution under two categories, and
    a network that serves its descriptor only. *)
Definition sample_conf : list string :=
  ["[Library : Sound]" ++ LF; "043 \ http://x/a.txt" ++ LF;
   "[Library : Vision]" ++ LF; "043 \ http://x/a.txt" ++ LF].

Definition sample_net (more : string) (url : string) : result string :=
  if String.eqb url "http://x/a.txt" then Ok (sample_descriptor more)
  else Raise IOError.

(** [c0] followed by [","+c] for every [c] of [cs], as line 294 builds it. *)
Definition joined (c0 : string) (cs : list string) : string :=
  fold_left (fun acc c => acc ++ "," ++ c) cs c0.

(** The [categories] string the table holds for the id [i]. *)
Definition categories_of (tbl : table) (i : string) : option string :=
  match Dict.get i tbl with
  | Some r => Dict.get "categories" r
  | None => None
  end.

(** The written object carries the id [i]. *)
Definition has_id (i : string) (content : Dict.t json) : bool :=
  match Dict.get "id" content with
  | Some (JStr s) => String.eqb s i
  | _ => false
  end.

(** A configuration with two contributions, and a network that serves a
    complete descriptor for the first and one whose maxRevision is not a
    number for the second. *)
Definition two_entry_conf : list string :=
  ["[Library : Sound]" ++ LF; "043 \ http://x/a.txt" ++ LF;
   "044 \ http://x/b.txt" ++ LF].

Definition two_entry_net (url : string) : result string :=
  if String.eqb url "http://x/a.txt" then Ok (sample_descriptor "")
  else if String.eqb url "http://x/b.txt"
       then Ok (sample_descriptor "maxRevision=abc")
       else Raise IOError.

(** A header as [parse_line] accepts it when it stands alone on its line:
    no comment sign, brackets at both ends, and two parts around one colon. *)
Definition well_formed_header (hdr : string) : Prop :=
  ~ PyStr.occurs "#" hdr
  /\ PyStr.first hdr = Some "["%char
  /\ PyStr.last hdr = Some "]"%char
  /\ exists c0 c1, PyStr.split ":" (PyStr.slice hdr 1 (-1)) = [c0; c1].

(** The line [parse_line] prints for a contribution line outside every
    category, if [raw] is such a line. *)
Definition ignoring_line (raw : string) : list event :=
  if negb (blank raw) && negb (bracketed raw) then [Print msg_ignoring]
  else [].

(** The configuration the docstring of the module gives as its example. *)
Definition docstring_conf : list string :=
  ["# A comment. Everything after the hash is ignored" ++ LF;
   "[Library : Sound] # Type of software : category name." ++ LF;
   "# Contribution ID \ A url of a library in the sound category" ++ LF;
   "043 \ http://example.com/libs/soundlib1.txt" ++ LF;
   "# Contribution ID \ Another url of a library in the sound category" ++ LF;
   "074 \ http://example.org/libs/soundlib2.txt" ++ LF;
   LF;
   "[Library : Vision] # Another category" ++ LF;
   "012 \ http://example.net/libs/visionlib.txt" ++ LF].

(** The inclusion rule as a boolean. *)
Definition in_range_b (minrev maxrev lo hi : Z) : bool :=
  ((minrev =? 0) || (hi =? 0) || (minrev <=? hi))
  && ((maxrev =? 0) || (lo =? 0) || (maxrev >=? lo)).

(** ** Start of the program *)

(** Lines 208 to 222: [None] stands for the usage message and [exit()]. *)
Definition read_args (argv : list string)
  : option (string * string * arg * arg) :=
  match argv with
  | [_] => Some ("sources.conf", "../sources/", ArgInt 228, ArgInt 0)
  | [_; conf; dirout] => Some (conf, dirout, ArgInt 228, ArgInt 0)
  | [_; conf; dirout; minrev; maxrev] =>
      Some (conf, dirout, ArgStr minrev, ArgStr maxrev)
  | _ => None
  end.

(** How the program leaves lines 208 to 226. *)
Inductive start : Type :=
| Usage
| Incompatible
| Proceed (conf dirout : string) (minrev maxrev : arg).

Definition startup (argv : list string) : result start :=
  match read_args argv with
  | None => Ok Usage
  | Some (conf, dirout, minrev, maxrev) =>
      m <- int_arg maxrev ;;
      if negb (m =? 0) && (m <? 228) then Ok Incompatible
      else Ok (Proceed conf dirout minrev maxrev)
  end.

(** The entry a contribution line yields inside a category, by the tests of
    [parse_line]: a non-empty text that is not bracketed and splits on the
    backslash into two parts. *)
Definition entry_of_line (ty raw : string) : option entry :=
  if blank raw then None
  else if bracketed raw then None
  else match PyStr.split "\" (cut_comment raw) with
       | [c0; c1] => Some (ty, PyStr.strip c0, PyStr.strip c1)
       | _ => None
       end.

(** Every entry of every category. *)
Definition all_entries (urls : Dict.t (list entry)) : list entry :=
  flat_map snd urls.

(** No character of [s] is whitespace or an upper-case letter A to Z. *)
Definition plain_lower (s : string) : Prop :=
  forall c, PyStr.occurs c s ->
            PyStr.isspace c = false
            /\ ~ (65 <= nat_of_ascii c <= 90)%nat.

(** The URL of an entry that is not skipped. *)
Definition urls_to_fetch (skipped_ids : list string)
  (todo : list (string * entry)) : list string :=
  map (fun job => snd (snd job))
    (List.filter (fun job => negb (listed (job_id job) skipped_ids)) todo).

(** The entries a category holds, none when the key is absent. *)
Definition entries_of (cat : string) (urls : Dict.t (list entry))
  : list entry :=
  match Dict.get cat urls with Some l => l | None => [] end.

(** What holds of every entry the configuration parser stores. *)
Definition entry_clean (e : entry) : Prop :=
  let '(ty, name, url) := e in
  plain_lower ty
  /\ ~ PyStr.occurs "\" name /\ ~ PyStr.occurs "#" name
  /\ ~ PyStr.occurs "\" url /\ ~ PyStr.occurs "#" url.

(** What holds of the parser state after any number of lines. *)
Definition parser_ok (st : parser) : Prop :=
  NoDup (Dict.keys (urls_by_category st))
  /\ Forall (fun kv => snd kv <> [] /\ Forall entry_clean (snd kv))
       (urls_by_category st)
  /\ match software_type st with
     | Some ty => plain_lower ty
     | None => True
     end.

(** [c] is whitespace, or an upper-case letter A to Z. *)
Definition space_or_upper (c : ascii) : bool :=
  PyStr.isspace c
  || ((65 <=? nat_of_ascii c) && (nat_of_ascii c <=? 90))%nat.

(** What holds of every pair the descriptor parser stores. *)
Definition pair_clean (kv : string * string) : Prop :=
  ~ PyStr.occurs "#" (fst kv) /\ ~ PyStr.occurs "=" (fst kv)
  /\ ~ PyStr.occurs "010" (fst kv)
  /\ ~ PyStr.occurs "#" (snd kv) /\ ~ PyStr.occurs "010" (snd kv).

(** * Properties *)

(** ** Strings *)

Lemma occurs_app (c : ascii) (s t : string) :
  PyStr.occurs c (s ++ t) <-> PyStr.occurs c s \/ PyStr.occurs c t.
Proof.
  induction s as [|a s IH]; simpl.
  - tauto.
  - rewrite IH. tauto.
Qed.

Lemma occurs_filter (p : ascii -> bool) (c : ascii) (s : string) :
  PyStr.occurs c (PyStr.filter p s) -> p c = true /\ PyStr.occurs c s.
Proof.
  induction s as [|a s IH]; simpl.
  - tauto.
  - destruct (p a) eqn:Hp; simpl.
    + intros [->|H]; [tauto|]. destruct (IH H). tauto.
    + intros H. destruct (IH H). tauto.
Qed.

Lemma occurs_replace_char (a b c : ascii) (s : string) :
  PyStr.occurs c (PyStr.replace_char a b s) ->
  c = b \/ (c <> a /\ PyStr.occurs c s).
Proof.
  induction s as [|x s IH]; simpl.
  - tauto.
  - intros [H|H].
    + destruct (Ascii.eqb x a) eqn:E.
      * left. congruence.
      * right. apply Ascii.eqb_neq in E. subst c. tauto.
    + destruct (IH H) as [?|[? ?]]; tauto.
Qed.

Lemma str_length_app (s t : string) :
  String.length (s ++ t) = (String.length s + String.length t)%nat.
Proof.
  induction s as [|a s IH]; simpl; [reflexivity|]. now rewrite IH.
Qed.

Lemma app_assoc_str (s t u : string) : (s ++ t) ++ u = s ++ t ++ u.
Proof.
  induction s as [|a s IH]; simpl; [reflexivity|]. now rewrite IH.
Qed.

Lemma take_app_length (s t : string) :
  PyStr.take (String.length s) (s ++ t) = s.
Proof.
  induction s as [|a s IH]; simpl.
  - destruct t; reflexivity.
  - now rewrite IH.
Qed.

Lemma find_from_absent (c : ascii) (s : string) (i : Z) :
  ~ PyStr.occurs c s -> PyStr.find_from c s i = -1.
Proof.
  revert i. induction s as [|a s IH]; simpl; intros i H.
  - reflexivity.
  - destruct (Ascii.eqb a c) eqn:E.
    + apply Ascii.eqb_eq in E. tauto.
    + apply IH. tauto.
Qed.

Lemma find_from_app (c : ascii) (s t : string) (i : Z) :
  ~ PyStr.occurs c s ->
  PyStr.find_from c (s ++ String c t) i = i + PyStr.len s.
Proof.
  unfold PyStr.len. revert i.
  induction s as [|a s IH]; simpl String.length; intros i H.
  - simpl. rewrite Ascii.eqb_refl. lia.
  - simpl in *. destruct (Ascii.eqb a c) eqn:E.
    + apply Ascii.eqb_eq in E. tauto.
    + rewrite IH by tauto. lia.
Qed.

Lemma last_app_char (s : string) (c : ascii) :
  PyStr.last (s ++ String c EmptyString) = Some c.
Proof.
  induction s as [|a s IH]; simpl; [reflexivity|].
  rewrite IH. destruct (s ++ String c EmptyString) eqn:E; [|reflexivity].
  destruct s; discriminate.
Qed.

(** ** Dictionaries *)

Lemma get_set_same {V : Type} (k : string) (v : V) (d : Dict.t V) :
  Dict.get k (Dict.set k v d) = Some v.
Proof.
  induction d as [|[k' v'] d IH]; simpl.
  - now rewrite String.eqb_refl.
  - destruct (String.eqb k' k) eqn:E; simpl; rewrite E; auto.
Qed.

Lemma get_set_other {V : Type} (k k' : string) (v : V) (d : Dict.t V) :
  k <> k' -> Dict.get k (Dict.set k' v d) = Dict.get k d.
Proof.
  intros Hne. induction d as [|[a w] d IH]; simpl.
  - destruct (String.eqb k' k) eqn:E; [|reflexivity].
    apply String.eqb_eq in E. congruence.
  - destruct (String.eqb a k') eqn:E; simpl.
    + apply String.eqb_eq in E. subst a.
      destruct (String.eqb k' k) eqn:E'; [|reflexivity].
      apply String.eqb_eq in E'. congruence.
    + now rewrite IH.
Qed.

Lemma get_pop_other {V : Type} (k k' : string) (d : Dict.t V) :
  k <> k' -> Dict.get k (Dict.pop k' d) = Dict.get k d.
Proof.
  intros Hne. induction d as [|[a w] d IH]; simpl; [reflexivity|].
  destruct (String.eqb a k') eqn:E; simpl.
  - apply String.eqb_eq in E. subst a.
    destruct (String.eqb k' k) eqn:E'; [|reflexivity].
    apply String.eqb_eq in E'. congruence.
  - now rewrite IH.
Qed.

Lemma get_map {V W : Type} (f : V -> W) (k : string) (d : Dict.t V) :
  Dict.get k (map (fun kv => (fst kv, f (snd kv))) d)
  = option_map f (Dict.get k d).
Proof.
  induction d as [|[a w] d IH]; simpl; [reflexivity|].
  destruct (String.eqb a k); auto.
Qed.

Lemma get_in_keys {V : Type} (k : string) (d : Dict.t V) :
  In k (Dict.keys d) <-> Dict.get k d <> None.
Proof.
  induction d as [|[a w] d IH]; simpl.
  - tauto.
  - destruct (String.eqb a k) eqn:E.
    + apply String.eqb_eq in E. split; [discriminate|auto].
    + apply String.eqb_neq in E. rewrite <- IH. tauto.
Qed.

Lemma keys_set_present {V : Type} (k : string) (v : V) (d : Dict.t V) :
  Dict.get k d <> None -> Dict.keys (Dict.set k v d) = Dict.keys d.
Proof.
  induction d as [|[a w] d IH]; simpl; intros H.
  - congruence.
  - destruct (String.eqb a k) eqn:E; simpl; [reflexivity|].
    f_equal. now apply IH.
Qed.

Lemma set_absent {V : Type} (k : string) (v : V) (d : Dict.t V) :
  Dict.get k d = None -> Dict.set k v d = (d ++ [(k, v)])%list.
Proof.
  induction d as [|[a w] d IH]; simpl; intros H; [reflexivity|].
  destruct (String.eqb a k) eqn:E; [discriminate|].
  f_equal. now apply IH.
Qed.

Lemma get_set_not_none {V : Type} (k k' : string) (v : V) (d : Dict.t V) :
  Dict.get k d <> None -> Dict.get k (Dict.set k' v d) <> None.
Proof.
  intros H. destruct (String.eqb k k') eqn:E.
  - apply String.eqb_eq in E. subst. rewrite get_set_same. discriminate.
  - apply String.eqb_neq in E. now rewrite get_set_other.
Qed.

(** ** The record writer *)

Lemma not_blacklisted (c : ascii) :
  negb (existsb (Ascii.eqb c) blacklist) = true -> ~ In c blacklist.
Proof.
  intros H Hin. apply negb_true_iff in H.
  assert (existsb (Ascii.eqb c) blacklist = true) as E.
  { apply existsb_exists. exists c. split; [assumption|apply Ascii.eqb_refl]. }
  congruence.
Qed.

Lemma sanitize_clean (name : string) (c : ascii) :
  PyStr.occurs c (sanitize name) ->
  ~ In c blacklist /\ (31 < nat_of_ascii c)%nat /\ c <> " "%char.
Proof.
  unfold sanitize. intros H.
  apply occurs_replace_char in H. destruct H as [->|[Hsp H]].
  - repeat split; [apply not_blacklisted; reflexivity|apply Nat.ltb_lt; reflexivity|discriminate].
  - apply occurs_filter in H. destruct H as [H31 H].
    apply occurs_filter in H. destruct H as [Hbl _].
    repeat split; [now apply not_blacklisted|now apply Nat.ltb_lt|assumption].
Qed.

Lemma suffix_clean (c : ascii) :
  PyStr.occurs c ".json" ->
  ~ In c blacklist /\ (31 < nat_of_ascii c)%nat /\ c <> " "%char.
Proof.
  simpl. intros [<-|[<-|[<-|[<-|[<-|[]]]]]];
    (repeat split; [apply not_blacklisted; reflexivity|apply Nat.ltb_lt; reflexivity|discriminate]).
Qed.

Lemma write_exports_ok (open_w : string -> result unit) (dirout : string)
  (exports : Dict.t json) (name props : string) :
  Dict.get "name" exports = Some (JStr name) ->
  package_props exports = Ok props ->
  write_exports open_w dirout exports
  = let filepath := path_join dirout (sanitize name ++ ".json") in
    let line := Print ("export " ++ props ++ " to " ++ filepath) in
    match open_w filepath with
    | Raise e => ([line], Some e)
    | Ok _ => ([line; WriteFile filepath exports], None)
    end.
Proof.
  intros Hn Hp. unfold write_exports, Dict.item. rewrite Hn. simpl.
  rewrite Hp. reflexivity.
Qed.

Lemma write_exports_inv (open_w : string -> result unit) (dirout : string)
  (exports : Dict.t json) (path : string) (content : Dict.t json) :
  In (WriteFile path content) (fst (write_exports open_w dirout exports)) ->
  exists name,
    Dict.get "name" exports = Some (JStr name)
    /\ path = path_join dirout (sanitize name ++ ".json")
    /\ content = exports.
Proof.
  unfold write_exports, Dict.item.
  destruct (Dict.get "name" exports) as [[| name | |]|] eqn:Hn;
    simpl; try tauto.
  destruct (package_props exports) as [props|] eqn:Hp; simpl; try tauto.
  destruct (open_w _) as [u|e]; simpl.
  - intros [H|[H|[]]]; [discriminate|]. injection H as <- <-.
    exists name. auto.
  - intros [H|[]]. discriminate.
Qed.

(** C7: the file name under which [write_exports] writes a record ends in
    [.json] and holds no blacklisted character, no character with code
    point 31 or less and no space, whatever the record's name is. *)
Theorem filename_has_no_forbidden_character :
  forall (open_w : string -> result unit) (dirout : string)
         (exports : Dict.t json) (path : string) (content : Dict.t json),
    In (WriteFile path content) (fst (write_exports open_w dirout exports)) ->
    exists filename,
      path = path_join dirout filename
      /\ PyStr.endswith filename ".json"
      /\ forall c, PyStr.occurs c filename ->
           ~ In c blacklist /\ (31 < nat_of_ascii c)%nat /\ c <> " "%char.
Proof.
  intros open_w dirout exports path content Hin.
  apply write_exports_inv in Hin. destruct Hin as (name & _ & -> & _).
  exists (sanitize name ++ ".json"). split; [reflexivity|]. split.
  - now exists (sanitize name).
  - intros c Hc. apply occurs_app in Hc. destruct Hc as [Hc|Hc].
    + now apply sanitize_clean in Hc.
    + now apply suffix_clean.
Qed.

Lemma filename_has_no_forbidden_character_witness :
  exists filename,
    "out/AB_C.json" = path_join "out" filename
    /\ PyStr.endswith filename ".json"
    /\ forall c, PyStr.occurs c filename ->
         ~ In c blacklist /\ (31 < nat_of_ascii c)%nat /\ c <> " "%char.
Proof.
  apply (filename_has_no_forbidden_character always_ok "out"
           [("name", JStr " A/B C? ");
            ("packages", JList [JObj [("props", JStr "http://x/a.txt")]])]
           "out/AB_C.json"
           [("name", JStr " A/B C? ");
            ("packages", JList [JObj [("props", JStr "http://x/a.txt")]])]).
  right. left. reflexivity.
Defined.

(** ** Field injection and defaults *)

Section DriverFacts.

Variable urlopen : string -> result string.
Variable broken_ids : list string.
Variable skipped_ids : list string.
Variable minrev : arg.
Variable maxrev : arg.

Lemma inject_unfold (cat contrib_id ty prop_url : string)
  (exports : Dict.t string) :
  inject broken_ids cat contrib_id ty prop_url exports
  = let e := with_min (contextual cat contrib_id ty prop_url exports) in
    if listed contrib_id broken_ids
    then Dict.set "maxRevision" "228" e
    else match Dict.get "maxRevision" e with
         | Some (String _ _) => e
         | _ => Dict.set "maxRevision" "0" e
         end.
Proof. reflexivity. Qed.

Lemma get_contextual (k cat contrib_id ty prop_url : string)
  (exports : Dict.t string) :
  k <> "id" -> k <> "type" -> k <> "props" -> k <> "categories" ->
  Dict.get k (contextual cat contrib_id ty prop_url exports)
  = Dict.get k exports.
Proof.
  intros. unfold contextual. now rewrite !get_set_other.
Qed.

Lemma get_with_min (k : string) (exports : Dict.t string) :
  k <> "minRevision" -> Dict.get k (with_min exports) = Dict.get k exports.
Proof.
  intros. unfold with_min.
  destruct (Dict.get "minRevision" exports) as [[|]|];
    now rewrite ?get_set_other.
Qed.

Lemma get_with_download (k url : string) (exports : Dict.t string) :
  k <> "download" ->
  Dict.get k (with_download url exports) = Dict.get k exports.
Proof.
  intros. unfold with_download.
  destruct (no_download_key exports); now rewrite ?get_set_other.
Qed.

(** C4: a contribution whose id is listed in broken.conf reaches the
    compatibility check with maxRevision ["228"], whatever its descriptor
    says; one that is not listed and whose descriptor gives no maxRevision, or
    an empty one, reaches it with ["0"]. *)
Theorem broken_id_forces_max_revision :
  forall (cat contrib_id ty prop_url decoded : string),
    (listed contrib_id broken_ids = true ->
     Dict.get "maxRevision"
       (candidate broken_ids cat contrib_id ty prop_url decoded)
     = Some "228")
    /\ (listed contrib_id broken_ids = false ->
        (Dict.get "maxRevision" (read_exports decoded) = None
         \/ Dict.get "maxRevision" (read_exports decoded) = Some "") ->
        Dict.get "maxRevision"
          (candidate broken_ids cat contrib_id ty prop_url decoded)
        = Some "0").
Proof.
  intros cat contrib_id ty prop_url decoded. unfold candidate.
  rewrite get_with_download by discriminate. rewrite inject_unfold. cbv zeta.
  split.
  - intros ->. apply get_set_same.
  - intros -> Hraw.
    assert (Dict.get "maxRevision"
              (with_min (contextual cat contrib_id ty prop_url
                           (read_exports decoded)))
            = Dict.get "maxRevision" (read_exports decoded)) as E.
    { rewrite get_with_min by discriminate.
      apply get_contextual; discriminate. }
    destruct Hraw as [Hraw|Hraw]; rewrite Hraw in E; rewrite E;
      apply get_set_same.
Qed.

End DriverFacts.

Lemma broken_id_forces_max_revision_witness :
  Dict.get "maxRevision"
    (candidate ["043"] "Sound" "043" "library" "http://x/a.txt"
       "maxRevision=300")
  = Some "228"
  /\ Dict.get "maxRevision"
       (candidate ["043"] "Sound" "044" "library" "http://x/b.txt" "name=Foo")
     = Some "0".
Proof.
  split.
  - apply (broken_id_forces_max_revision ["043"] "Sound" "043" "library"
             "http://x/a.txt" "maxRevision=300").
    reflexivity.
  - apply (broken_id_forces_max_revision ["043"] "Sound" "044" "library"
             "http://x/b.txt" "name=Foo").
    + reflexivity.
    + left. reflexivity.
Defined.

(** ** The compatibility filter *)

Lemma in_range_b_spec (minrev maxrev lo hi : Z) :
  in_range_b minrev maxrev lo hi = true <-> in_range minrev maxrev lo hi.
Proof.
  unfold in_range_b, in_range.
  rewrite andb_true_iff, !orb_true_iff, !Z.eqb_eq, Z.leb_le, Z.geb_le.
  lia.
Qed.

Lemma compatible_numeric (minrev maxrev : arg) (lo_bound hi_bound lo hi : Z)
  (exports : Dict.t string) :
  int_arg minrev = Ok lo_bound ->
  int_arg maxrev = Ok hi_bound ->
  int_field "minRevision" exports = Ok lo ->
  int_field "maxRevision" exports = Ok hi ->
  compatible minrev maxrev exports
  = Ok (in_range_b lo_bound hi_bound lo hi).
Proof.
  intros Hmin Hmax Hlo Hhi. unfold compatible, in_range_b.
  rewrite Hmin, Hmax, Hlo, Hhi. cbn [bind].
  destruct (lo_bound =? 0); cbn [bind orb andb].
  - destruct (hi_bound =? 0); reflexivity.
  - destruct ((hi =? 0) || (lo_bound <=? hi)); cbn [bind andb];
      [|reflexivity].
    destruct (hi_bound =? 0); reflexivity.
Qed.

Lemma length_set_absent {V : Type} (k : string) (v : V) (d : Dict.t V) :
  Dict.get k d = None -> List.length (Dict.set k v d) = S (List.length d).
Proof.
  intros H. rewrite (set_absent k v d H), List.length_app. simpl. lia.
Qed.

Lemma accumulate_changes (cat contrib_id : string) (exports : Dict.t string)
  (tbl : table) :
  accumulate cat contrib_id exports tbl <> Ok tbl.
Proof.
  unfold accumulate, Dict.mem, Dict.item.
  destruct (Dict.get contrib_id tbl) as [r|] eqn:Hg; simpl.
  - destruct (Dict.get "categories" r) as [c|] eqn:Hc; simpl; [|discriminate].
    intros [= E].
    apply (f_equal (Dict.get contrib_id)) in E.
    rewrite get_set_same, Hg in E. injection E as E.
    apply (f_equal (Dict.get "categories")) in E.
    rewrite get_set_same, Hc in E. injection E as E.
    apply (f_equal String.length) in E.
    rewrite str_length_app in E. simpl in E. lia.
  - intros [= E]. apply (f_equal (@List.length _)) in E.
    rewrite length_set_absent in E by assumption. lia.
Qed.

Section FilterFacts.

Variable urlopen : string -> result string.
Variable broken_ids : list string.
Variable skipped_ids : list string.
Variable minrev : arg.
Variable maxrev : arg.

Lemma try_body_checked (cat contrib_id ty prop_url decoded : string)
  (tbl : table) :
  urlopen prop_url = Ok decoded ->
  missing_key (inject broken_ids cat contrib_id ty prop_url
                 (read_exports decoded)) = None ->
  try_body urlopen broken_ids minrev maxrev cat contrib_id ty prop_url
    (default_download prop_url) tbl
  = ([Print ("Opening " ++ prop_url); Urlopen prop_url],
     ok <- compatible minrev maxrev
             (candidate broken_ids cat contrib_id ty prop_url decoded) ;;
     if (ok : bool)
     then accumulate cat contrib_id
            (candidate broken_ids cat contrib_id ty prop_url decoded) tbl
     else Ok tbl).
Proof.
  intros Hu Hm. unfold try_body. rewrite Hu, Hm. reflexivity.
Qed.

Lemma try_body_missing (cat contrib_id ty prop_url decoded key : string)
  (tbl : table) :
  urlopen prop_url = Ok decoded ->
  missing_key (inject broken_ids cat contrib_id ty prop_url
                 (read_exports decoded)) = Some key ->
  try_body urlopen broken_ids minrev maxrev cat contrib_id ty prop_url
    (default_download prop_url) tbl
  = ([Print ("Opening " ++ prop_url); Urlopen prop_url;
      Print ("Error reading " ++ prop_url);
      Print ("  No value for '" ++ key ++ "'. Maybe it's a 404 page")],
     Ok tbl).
Proof.
  intros Hu Hm. unfold try_body. rewrite Hu, Hm. reflexivity.
Qed.

(** C2: for bounds that convert to the integers [lo_bound] and
    [hi_bound], a record that reaches the compatibility check with numeric
    minRevision [lo] and maxRevision [hi] is accumulated exactly when
    [(lo_bound = 0 or hi = 0 or lo_bound <= hi) and
     (hi_bound = 0 or lo = 0 or hi_bound >= lo)];
    otherwise the table is left as it was. *)
Theorem accumulated_iff_in_range :
  forall (cat contrib_id ty prop_url decoded : string) (tbl : table)
         (lo_bound hi_bound lo hi : Z),
    int_arg minrev = Ok lo_bound ->
    int_arg maxrev = Ok hi_bound ->
    urlopen prop_url = Ok decoded ->
    missing_key (inject broken_ids cat contrib_id ty prop_url
                   (read_exports decoded)) = None ->
    int_field "minRevision"
      (candidate broken_ids cat contrib_id ty prop_url decoded) = Ok lo ->
    int_field "maxRevision"
      (candidate broken_ids cat contrib_id ty prop_url decoded) = Ok hi ->
    let after :=
      snd (try_body urlopen broken_ids minrev maxrev cat contrib_id ty
             prop_url (default_download prop_url) tbl) in
    (in_range lo_bound hi_bound lo hi ->
     after = accumulate cat contrib_id
               (candidate broken_ids cat contrib_id ty prop_url decoded) tbl
     /\ after <> Ok tbl)
    /\ (~ in_range lo_bound hi_bound lo hi -> after = Ok tbl).
Proof.
  intros cat contrib_id ty prop_url decoded tbl lo_bound hi_bound lo hi
    Hmin Hmax Hu Hm Hlo Hhi after.
  subst after. rewrite (try_body_checked _ _ _ _ _ _ Hu Hm).
  rewrite (compatible_numeric _ _ _ _ _ _ _ Hmin Hmax Hlo Hhi). simpl.
  destruct (in_range_b lo_bound hi_bound lo hi) eqn:E.
  - apply in_range_b_spec in E. split; [|tauto].
    intros _. split; [reflexivity|apply accumulate_changes].
  - split; [|reflexivity].
    intros H. apply in_range_b_spec in H. congruence.
Qed.

End FilterFacts.

Lemma accumulated_iff_in_range_witness :
  let net := fun _ : string =>
    Ok (sample_descriptor ("minRevision=100" ++ LF ++ "maxRevision=300")) in
  let record :=
    candidate [] "Sound" "043" "library" "http://x/a.txt"
      (sample_descriptor ("minRevision=100" ++ LF ++ "maxRevision=300")) in
  let after :=
    snd (try_body net [] (ArgInt 228) (ArgStr "0")
           "Sound" "043" "library" "http://x/a.txt"
           (default_download "http://x/a.txt") []) in
  (in_range 228 0 100 300 ->
   after = accumulate "Sound" "043" record [] /\ after <> Ok [])
  /\ (~ in_range 228 0 100 300 -> after = Ok []).
Proof.
  apply (accumulated_iff_in_range
           (fun _ : string =>
              Ok (sample_descriptor
                    ("minRevision=100" ++ LF ++ "maxRevision=300")))
           [] (ArgInt 228) (ArgStr "0")
           "Sound" "043" "library" "http://x/a.txt"
           (sample_descriptor ("minRevision=100" ++ LF ++ "maxRevision=300"))
           [] 228 0 100 300); reflexivity.
Defined.

(** ** Required keys *)

Lemma count_key_zero (key : string) (keys : list string) :
  count_key key keys = 0%nat <-> ~ In key keys.
Proof.
  unfold count_key. induction keys as [|k keys IH]; simpl.
  - tauto.
  - destruct (String.eqb key k) eqn:E; simpl.
    + apply String.eqb_eq in E. split; [discriminate|intros H; exfalso; auto].
    + apply String.eqb_neq in E. rewrite IH. split; [|tauto].
      intros H [H'|H']; [congruence|tauto].
Qed.

Lemma first_missing_none (keys required : list string) :
  first_missing keys required = None <-> Forall (fun k => In k keys) required.
Proof.
  induction required as [|k required IH]; simpl.
  - split; [constructor|reflexivity].
  - destruct (count_key k keys =? 0)%nat eqn:E.
    + apply Nat.eqb_eq, count_key_zero in E. split; [discriminate|].
      intros H. inversion H. tauto.
    + apply Nat.eqb_neq in E. rewrite count_key_zero in E. rewrite IH.
      split.
      * intros H. constructor; [|assumption].
        destruct (in_dec string_dec k keys); tauto.
      * intros H. now inversion H.
Qed.

Lemma missing_key_none (d : Dict.t string) :
  missing_key d = None
  <-> Forall (fun k => Dict.get k d <> None) required_keys.
Proof.
  unfold missing_key. rewrite first_missing_none.
  split; intros H; eapply Forall_impl; try eassumption;
    intros k; apply get_in_keys.
Qed.

Lemma missing_key_set (k v : string) (d : Dict.t string) :
  missing_key d = None -> missing_key (Dict.set k v d) = None.
Proof.
  rewrite !missing_key_none. intros H.
  eapply Forall_impl; [|exact H]. intros a. apply get_set_not_none.
Qed.

Lemma missing_key_categories (d : Dict.t string) :
  missing_key d = None -> Dict.get "categories" d <> None.
Proof.
  rewrite missing_key_none. intros H.
  rewrite Forall_forall in H. apply H. simpl. tauto.
Qed.

Lemma missing_key_name (d : Dict.t string) :
  missing_key d = None -> Dict.get "name" d <> None.
Proof.
  rewrite missing_key_none. intros H.
  rewrite Forall_forall in H. apply H. simpl. tauto.
Qed.

(** ** The accumulation table *)

Lemma keys_set_absent {V : Type} (k : string) (v : V) (d : Dict.t V) :
  Dict.get k d = None -> Dict.keys (Dict.set k v d) = (Dict.keys d ++ [k])%list.
Proof.
  intros H. rewrite (set_absent k v d H). unfold Dict.keys.
  now rewrite map_app.
Qed.

Lemma nodup_keys_set {V : Type} (k : string) (v : V) (d : Dict.t V) :
  NoDup (Dict.keys d) -> NoDup (Dict.keys (Dict.set k v d)).
Proof.
  intros H. destruct (Dict.get k d) as [w|] eqn:E.
  - rewrite keys_set_present; [assumption|congruence].
  - rewrite keys_set_absent by assumption.
    apply NoDup_app; [assumption|repeat constructor; simpl; tauto|].
    intros a Ha [<-|[]]. apply get_in_keys in Ha. congruence.
Qed.

Lemma forall_set {V : Type} (P : string * V -> Prop) (k : string) (v : V)
  (d : Dict.t V) :
  Forall P d -> P (k, v) -> Forall P (Dict.set k v d).
Proof.
  intros H Hk. induction H as [|[a w] d Ha H IH]; simpl.
  - repeat constructor. assumption.
  - destruct (String.eqb a k) eqn:E.
    + apply String.eqb_eq in E. subst a. now constructor.
    + now constructor.
Qed.

Lemma get_forall {V : Type} (Q : string -> V -> Prop) (k : string) (v : V)
  (d : Dict.t V) :
  Forall (fun kv => Q (fst kv) (snd kv)) d -> Dict.get k d = Some v -> Q k v.
Proof.
  intros H. induction H as [|[a w] d Ha H IH]; simpl; [discriminate|].
  destruct (String.eqb a k) eqn:E.
  - apply String.eqb_eq in E. subst a. now intros [= <-].
  - assumption.
Qed.

Lemma accumulate_raises (cat contrib_id : string) (exports : Dict.t string)
  (tbl : table) (e : exn) :
  accumulate cat contrib_id exports tbl = Raise e -> e = KeyError.
Proof.
  unfold accumulate, Dict.mem, Dict.item.
  destruct (Dict.get contrib_id tbl) as [r|]; simpl; [|discriminate].
  destruct (Dict.get "categories" r); simpl; [discriminate|].
  now intros [= <-].
Qed.

Lemma accumulate_ok (cat contrib_id : string) (exports : Dict.t string)
  (tbl : table) :
  table_ok tbl -> record_ok contrib_id exports ->
  exists tbl', accumulate cat contrib_id exports tbl = Ok tbl' /\ table_ok tbl'.
Proof.
  intros [Hnd Hall] Hrec. unfold accumulate, Dict.mem, Dict.item.
  destruct (Dict.get contrib_id tbl) as [r|] eqn:Hg; simpl.
  - pose proof (get_forall record_ok _ _ _ Hall Hg) as (Hid & Hmiss & Hprops).
    destruct (Dict.get "categories" r) as [c|] eqn:Hc;
      [|now apply missing_key_categories in Hmiss].
    simpl. eexists. split; [reflexivity|]. split.
    + now apply nodup_keys_set.
    + apply forall_set; [assumption|]. simpl. repeat split.
      * rewrite get_set_other; [assumption|discriminate].
      * now apply missing_key_set.
      * now apply get_set_not_none.
  - eexists. split; [reflexivity|]. split.
    + now apply nodup_keys_set.
    + now apply forall_set.
Qed.

Section LoopFacts.

Variable urlopen : string -> result string.
Variable broken_ids : list string.
Variable skipped_ids : list string.
Variable minrev : arg.
Variable maxrev : arg.

Lemma get_inject_other (k cat contrib_id ty prop_url : string)
  (exports : Dict.t string) :
  k <> "minRevision" -> k <> "maxRevision" ->
  Dict.get k (inject broken_ids cat contrib_id ty prop_url exports)
  = Dict.get k (contextual cat contrib_id ty prop_url exports).
Proof.
  intros Hmin Hmax. rewrite inject_unfold. cbv zeta.
  destruct (listed contrib_id broken_ids).
  - rewrite get_set_other by assumption. now apply get_with_min.
  - destruct (Dict.get "maxRevision" _) as [[|]|];
      rewrite ?get_set_other by assumption; now apply get_with_min.
Qed.

Lemma candidate_ok (cat contrib_id ty prop_url decoded : string) :
  missing_key (inject broken_ids cat contrib_id ty prop_url
                 (read_exports decoded)) = None ->
  record_ok contrib_id (candidate broken_ids cat contrib_id ty prop_url decoded).
Proof.
  intros Hm. unfold candidate. repeat split.
  - rewrite get_with_download, get_inject_other by discriminate.
    unfold contextual. rewrite !get_set_other by discriminate.
    apply get_set_same.
  - unfold with_download. destruct (no_download_key _); [|assumption].
    now apply missing_key_set.
  - rewrite get_with_download, get_inject_other by discriminate.
    unfold contextual. rewrite get_set_other by discriminate.
    rewrite get_set_same. discriminate.
Qed.

(** What one turn of the loop does to the table, by whether the entry
    passes the gates. *)
Lemma process_contrib_step (cat ty contrib_id prop_url : string) (tbl : table) :
  let o := process_contrib urlopen broken_ids skipped_ids minrev maxrev
             cat (ty, contrib_id, prop_url) tbl in
  if accepts urlopen broken_ids skipped_ids minrev maxrev
       (cat, (ty, contrib_id, prop_url))
  then exists decoded,
      urlopen prop_url = Ok decoded
      /\ missing_key (inject broken_ids cat contrib_id ty prop_url
                        (read_exports decoded)) = None
      /\ match accumulate cat contrib_id
                 (candidate broken_ids cat contrib_id ty prop_url decoded) tbl
         with
         | Ok tbl' => contribs o = tbl' /\ escaped o = None
         | Raise _ => contribs o = tbl /\ escaped o = Some KeyError
         end
  else contribs o = tbl.
Proof.
  unfold process_contrib, accepts, try_body.
  destruct (listed contrib_id skipped_ids); [reflexivity|].
  destruct (urlopen prop_url) as [decoded|e] eqn:Hu; [|now destruct e].
  destruct (missing_key _) as [key|] eqn:Hm; [reflexivity|].
  fold (candidate broken_ids cat contrib_id ty prop_url decoded).
  destruct (compatible minrev maxrev _) as [[|]|e] eqn:Hc; simpl;
    [|reflexivity|now destruct e].
  exists decoded. split; [reflexivity|]. split; [assumption|].
  destruct (accumulate _ _ _ _) as [tbl'|e] eqn:Ha; [now split|].
  apply accumulate_raises in Ha. subst e. now split.
Qed.

Lemma process_contrib_table_ok (cat : string) (contrib : entry) (tbl : table) :
  table_ok tbl ->
  table_ok (contribs (process_contrib urlopen broken_ids skipped_ids minrev
                        maxrev cat contrib tbl)).
Proof.
  intros Hok. destruct contrib as [[ty contrib_id] prop_url].
  pose proof (process_contrib_step cat ty contrib_id prop_url tbl) as H.
  cbv zeta in H. destruct (accepts _ _ _ _ _ _).
  - destruct H as (decoded & Hu & Hm & H).
    destruct (accumulate_ok cat contrib_id _ tbl Hok (candidate_ok _ _ _ _ _ Hm))
      as (tbl' & Ha & Hok').
    rewrite Ha in H. destruct H as [-> _]. assumption.
  - now rewrite H.
Qed.

Lemma fetch_loop_table_ok (todo : list (string * entry)) (tbl : table) :
  table_ok tbl ->
  table_ok (contribs (fetch_loop urlopen broken_ids skipped_ids minrev maxrev
                        todo tbl)).
Proof.
  revert tbl. induction todo as [|[cat contrib] todo IH]; intros tbl Hok.
  - assumption.
  - simpl.
    pose proof (process_contrib_table_ok cat contrib tbl Hok) as Hstep.
    destruct (escaped _); [assumption|]. simpl. now apply IH.
Qed.

End LoopFacts.

(** ** format_exports *)

Lemma move_key_snd (k key : string) (p e : Dict.t json) :
  k <> key -> Dict.get k (snd (move_key (p, e) key)) = Dict.get k e.
Proof.
  intros Hne. unfold move_key. destruct (Dict.get key e); simpl.
  - now apply get_pop_other.
  - reflexivity.
Qed.

Lemma move_key_fst (k key : string) (p e : Dict.t json) :
  k <> key -> Dict.get k (fst (move_key (p, e) key)) = Dict.get k p.
Proof.
  intros Hne. unfold move_key. destruct (Dict.get key e); simpl.
  - now apply get_set_other.
  - reflexivity.
Qed.

Lemma move_keys_snd (keys : list string) (k : string) (p e : Dict.t json) :
  ~ In k keys ->
  Dict.get k (snd (fold_left move_key keys (p, e))) = Dict.get k e.
Proof.
  revert p e. induction keys as [|key keys IH]; intros p e Hk.
  - reflexivity.
  - cbn [fold_left]. simpl in Hk. destruct (move_key (p, e) key) as [p' e'] eqn:E.
    rewrite IH by tauto.
    pose proof (move_key_snd k key p e) as H. rewrite E in H. simpl in H.
    apply H. intros ->. tauto.
Qed.

Lemma move_keys_fst_other (keys : list string) (k : string)
  (p e : Dict.t json) :
  ~ In k keys ->
  Dict.get k (fst (fold_left move_key keys (p, e))) = Dict.get k p.
Proof.
  revert p e. induction keys as [|key keys IH]; intros p e Hk.
  - reflexivity.
  - cbn [fold_left]. simpl in Hk. destruct (move_key (p, e) key) as [p' e'] eqn:E.
    rewrite IH by tauto.
    pose proof (move_key_fst k key p e) as H. rewrite E in H. simpl in H.
    apply H. intros ->. tauto.
Qed.

Lemma move_keys_fst (keys : list string) (k : string) (v : json)
  (p e : Dict.t json) :
  NoDup keys -> In k keys -> Dict.get k e = Some v ->
  Dict.get k (fst (fold_left move_key keys (p, e))) = Some v.
Proof.
  revert p e. induction keys as [|key keys IH]; intros p e Hnd Hin Hget.
  - destruct Hin.
  - inversion Hnd as [|? ? Hnotin Hnd']. subst. cbn [fold_left].
    destruct (string_dec key k) as [->|Hne].
    + unfold move_key. rewrite Hget.
      rewrite move_keys_fst_other by assumption. apply get_set_same.
    + destruct Hin as [?|Hin]; [congruence|].
      destruct (move_key (p, e) key) as [p' e'] eqn:E.
      apply IH; [assumption..|].
      pose proof (move_key_snd k key p e) as H. rewrite E in H. simpl in H.
      rewrite H; [assumption|congruence].
Qed.

(** The record after the [authors] and [categories] steps. *)
Lemma format_exports_unfold (record : Dict.t string) :
  exists staged : Dict.t json,
    (forall k, k <> "authors" -> k <> "categories" ->
               Dict.get k staged = option_map JStr (Dict.get k record))
    /\ Dict.get "categories" staged
       = Some match Dict.get "categories" record with
              | Some (String c r) =>
                  JList (map JStr (PyStr.split "," (String c r)))
              | _ => JNull
              end
    /\ format_exports record
       = fold_left (fun ex key => Dict.pop key ex) remove_keys
           (Dict.set "packages"
              (JList [JObj (fst (fold_left move_key package_keys
                                   ([("mode", JStr "java")], staged)))])
              (snd (fold_left move_key package_keys
                      ([("mode", JStr "java")], staged)))).
Proof.
  unfold format_exports.
  set (lifted := map (fun kv => (fst kv, JStr (snd kv))) record).
  set (authored := match Dict.get "authors" lifted with
                   | Some a => Dict.set "authors" (JList [a]) lifted
                   | None => lifted
                   end).
  set (staged := match Dict.get "categories" record with
                 | Some (String c r) =>
                     Dict.set "categories"
                       (JList (map JStr (PyStr.split "," (String c r))))
                       authored
                 | _ => Dict.set "categories" JNull authored
                 end).
  exists staged. split; [|split].
  - intros k Ha Hc.
    assert (Dict.get k staged = Dict.get k authored) as ->.
    { subst staged. destruct (Dict.get "categories" record) as [[|]|];
        now rewrite get_set_other. }
    assert (Dict.get k authored = Dict.get k lifted) as ->.
    { subst authored. destruct (Dict.get "authors" lifted);
        now rewrite ?get_set_other. }
    apply get_map.
  - subst staged. destruct (Dict.get "categories" record) as [[|]|];
      now rewrite get_set_same.
  - destruct (fold_left move_key package_keys _) as [pkg ex]. reflexivity.
Qed.

Lemma format_exports_get (k : string) (record : Dict.t string) :
  ~ In k ["authors"; "categories"; "packages"; "minRevision"; "maxRevision";
          "props"; "download"; "version"; "prettyVersion"] ->
  Dict.get k (format_exports record) = option_map JStr (Dict.get k record).
Proof.
  intros Hk.
  assert (forall x,
             In x ["authors"; "categories"; "packages"; "minRevision";
                   "maxRevision"; "props"; "download"; "version";
                   "prettyVersion"] -> k <> x) as Hne.
  { intros x Hx ->. exact (Hk Hx). }
  destruct (format_exports_unfold record) as (staged & Hst & _ & ->).
  unfold remove_keys. cbn [fold_left].
  rewrite !get_pop_other by (apply Hne; simpl; tauto).
  rewrite get_set_other by (apply Hne; simpl; tauto).
  rewrite move_keys_snd.
  - apply Hst; apply Hne; simpl; tauto.
  - intros Hin. apply Hk. simpl in *. tauto.
Qed.

Lemma format_exports_categories (record : Dict.t string) :
  Dict.get "categories" (format_exports record)
  = Some match Dict.get "categories" record with
         | Some (String c r) => JList (map JStr (PyStr.split "," (String c r)))
         | _ => JNull
         end.
Proof.
  destruct (format_exports_unfold record) as (staged & _ & Hc & ->).
  unfold remove_keys. cbn [fold_left]. rewrite !get_pop_other by discriminate.
  rewrite get_set_other by discriminate.
  rewrite move_keys_snd; [assumption|].
  simpl. intros [H|[H|[H|[H|[]]]]]; discriminate.
Qed.

Lemma format_exports_props (record : Dict.t string) (props : string) :
  Dict.get "props" record = Some props ->
  package_props (format_exports record) = Ok props.
Proof.
  intros Hp.
  destruct (format_exports_unfold record) as (staged & Hst & _ & ->).
  unfold package_props, Dict.item. unfold remove_keys. cbn [fold_left].
  rewrite !get_pop_other by discriminate. rewrite get_set_same. cbn [bind].
  rewrite (move_keys_fst package_keys "props" (JStr props)); [reflexivity| | |].
  - unfold package_keys. repeat constructor; simpl; intuition discriminate.
  - simpl. tauto.
  - rewrite Hst by discriminate. now rewrite Hp.
Qed.

(** ** Events of a run *)

Lemma written_app (a b : list event) :
  written (a ++ b)%list = (written a ++ written b)%list.
Proof.
  induction a as [|[] a IH]; simpl; auto. now rewrite IH.
Qed.

Lemma fetched_app (a b : list event) :
  fetched (a ++ b)%list = (fetched a ++ fetched b)%list.
Proof.
  induction a as [|[] a IH]; simpl; auto. now rewrite IH.
Qed.

Lemma parse_line_quiet (st : parser) (raw : string) :
  written (printed (parse_line st raw)) = written (printed st)
  /\ fetched (printed (parse_line st raw)) = fetched (printed st).
Proof.
  unfold parse_line.
  repeat match goal with
         | |- context [if ?b then _ else _] => destruct b
         | |- context [match ?x with _ => _ end] => destruct x
         end;
    simpl; rewrite ?written_app, ?fetched_app; simpl;
    rewrite ?app_nil_r; auto.
Qed.

Lemma parse_lines_quiet (lines : list string) (st : parser) :
  written (printed (parse_lines st lines)) = written (printed st)
  /\ fetched (printed (parse_lines st lines)) = fetched (printed st).
Proof.
  unfold parse_lines. revert st.
  induction lines as [|raw lines IH]; intros st; simpl; [auto|].
  destruct (IH (parse_line st raw)) as [-> ->]. apply parse_line_quiet.
Qed.

Section RunFacts.

Variable urlopen : string -> result string.
Variable broken_ids : list string.
Variable skipped_ids : list string.
Variable minrev : arg.
Variable maxrev : arg.

Lemma process_contrib_events (cat ty contrib_id prop_url : string)
  (tbl : table) :
  let o := process_contrib urlopen broken_ids skipped_ids minrev maxrev
             cat (ty, contrib_id, prop_url) tbl in
  written (happened o) = []
  /\ fetched (happened o)
     = if listed contrib_id skipped_ids then [] else [prop_url].
Proof.
  unfold process_contrib, try_body.
  destruct (listed contrib_id skipped_ids); [now split|].
  destruct (urlopen prop_url) as [decoded|e]; [|now destruct e].
  destruct (missing_key _); [now split|].
  destruct (compatible minrev maxrev _) as [[|]|e];
    [|now split|now destruct e].
  cbn [bind]. destruct (accumulate _ _ _ _) as [tbl'|e]; [now split|].
  now destruct e.
Qed.

Lemma fetch_loop_cons (cat : string) (contrib : entry)
  (rest : list (string * entry)) (tbl : table) :
  fetch_loop urlopen broken_ids skipped_ids minrev maxrev
    ((cat, contrib) :: rest) tbl
  = let o := process_contrib urlopen broken_ids skipped_ids minrev maxrev
               cat contrib tbl in
    match escaped o with
    | Some _ => o
    | None =>
        let o' := fetch_loop urlopen broken_ids skipped_ids minrev maxrev
                    rest (contribs o) in
        mkOutcome (contribs o') (happened o ++ happened o')%list (escaped o')
    end.
Proof. reflexivity. Qed.

Lemma fetch_loop_written (todo : list (string * entry)) (tbl : table) :
  written (happened (fetch_loop urlopen broken_ids skipped_ids minrev maxrev
                       todo tbl)) = [].
Proof.
  revert tbl.
  induction todo as [|[cat [[ty contrib_id] prop_url]] todo IH]; intros tbl.
  - reflexivity.
  - rewrite fetch_loop_cons. cbv zeta.
    destruct (process_contrib_events cat ty contrib_id prop_url tbl) as [Hw _].
    destruct (escaped _); [assumption|].
    cbn [happened]. rewrite written_app, Hw, IH. reflexivity.
Qed.

Lemma fetch_loop_fetched (todo : list (string * entry)) (tbl : table)
  (url : string) :
  In url (fetched (happened (fetch_loop urlopen broken_ids skipped_ids minrev
                               maxrev todo tbl))) ->
  exists cat ty contrib_id,
    In (cat, (ty, contrib_id, url)) todo
    /\ listed contrib_id skipped_ids = false.
Proof.
  revert tbl.
  induction todo as [|[cat [[ty contrib_id] prop_url]] todo IH]; intros tbl.
  - intros [].
  - rewrite fetch_loop_cons. cbv zeta.
    destruct (process_contrib_events cat ty contrib_id prop_url tbl) as [_ Hf].
    assert (In url (fetched (happened
              (process_contrib urlopen broken_ids skipped_ids minrev maxrev
                 cat (ty, contrib_id, prop_url) tbl))) ->
            exists cat0 ty0 id0,
              In (cat0, (ty0, id0, url))
                 ((cat, (ty, contrib_id, prop_url)) :: todo)
              /\ listed id0 skipped_ids = false) as Hhead.
    { rewrite Hf. destruct (listed contrib_id skipped_ids) eqn:E; [intros []|].
      intros [<-|[]]. exists cat, ty, contrib_id. split; [now left|assumption]. }
    destruct (escaped _); [assumption|].
    cbn [happened]. rewrite fetched_app. intros H. apply in_app_or in H.
    destruct H as [H|H]; [now apply Hhead|].
    destruct (IH _ H) as (cat0 & ty0 & id0 & Hin & Hl).
    exists cat0, ty0, id0. split; [now right|assumption].
Qed.

End RunFacts.

Lemma write_record_ok (open_w : string -> result unit) (dirout k : string)
  (record : Dict.t string) :
  record_ok k record ->
  exists line,
    write_exports open_w dirout (format_exports record)
    = match open_w (export_path dirout record) with
      | Raise e => ([Print line], Some e)
      | Ok _ =>
          ([Print line;
            WriteFile (export_path dirout record) (format_exports record)],
           None)
      end.
Proof.
  intros (Hid & Hm & Hp).
  apply missing_key_name in Hm.
  destruct (Dict.get "name" record) as [name|] eqn:Hn; [|congruence].
  destruct (Dict.get "props" record) as [props|] eqn:Hprops; [|congruence].
  eexists. unfold export_path. rewrite Hn.
  apply (write_exports_ok open_w dirout _ name props).
  - rewrite format_exports_get, Hn; [reflexivity|].
    intros H. simpl in H.
    repeat (destruct H as [H|H]; [discriminate|]). exact H.
  - now apply format_exports_props.
Qed.

(** What the write loop does on a table of the fetch loop: it writes the
    records in order up to the first file that cannot be written, and raises
    nothing else. *)
Lemma write_all_spec (open_w : string -> result unit) (dirout : string)
  (tbl : table) :
  Forall (fun kv => record_ok (fst kv) (snd kv)) tbl ->
  let r := write_all open_w dirout tbl in
  let file := fun kv : string * Dict.t string =>
                (export_path dirout (snd kv), format_exports (snd kv)) in
  fetched (fst r) = []
  /\ (exists n, written (fst r) = map file (firstn n tbl))
  /\ (snd r = None -> written (fst r) = map file tbl)
  /\ (forall e, snd r = Some e ->
        exists kv, In kv tbl /\ open_w (export_path dirout (snd kv)) = Raise e)
  /\ ((forall kv, In kv tbl ->
         exists u, open_w (export_path dirout (snd kv)) = Ok u) ->
      snd r = None).
Proof.
  induction 1 as [|[k record] tbl Hrec Hall IH]; cbv zeta in *.
  - repeat split; try discriminate. now exists 0%nat.
  - destruct (write_record_ok open_w dirout k record Hrec) as (line & Hone).
    cbn [write_all]. rewrite Hone.
    destruct (open_w (export_path dirout record)) as [u|e] eqn:Eo.
    + destruct (write_all open_w dirout tbl) as [evs x] eqn:Ew.
      cbn [fst snd] in *.
      destruct IH as (Hf & (n & Hn) & Hnone & Hsome & Hall_ok).
      cbn [app written fetched]. repeat split.
      * assumption.
      * exists (S n). cbn [firstn map fst snd]. now rewrite Hn.
      * intros Hx. cbn [map fst snd]. now rewrite (Hnone Hx).
      * intros e He. destruct (Hsome e He) as (kv & Hin & Hkv).
        exists kv. split; [now right|assumption].
      * intros Hok. apply Hall_ok. intros kv Hin. apply Hok. now right.
    + cbn [fst snd written fetched]. repeat split.
      * now exists 0%nat.
      * discriminate.
      * intros e' [= <-]. exists (k, record). split; [now left|assumption].
      * intros Hok. destruct (Hok (k, record) (or_introl eq_refl)) as (u & Hu).
        cbn [snd] in Hu. congruence.
Qed.

Lemma firstn_in {A : Type} (n : nat) (l : list A) (x : A) :
  In x (firstn n l) -> In x l.
Proof.
  revert l. induction n as [|n IH]; intros [|a l]; simpl; try tauto.
  intros [H|H]; [now left|right; auto].
Qed.

Section BatchFacts.

Variable urlopen : string -> result string.
Variable broken_ids : list string.
Variable skipped_ids : list string.
Variable minrev : arg.
Variable maxrev : arg.
Variable recreate_dir : string -> result unit.
Variable open_w : string -> result unit.

Lemma table_ok_empty : table_ok [].
Proof. split; constructor. Qed.

(** How a run ends, by how its fetch loop ends: an exception that leaves
    the loop ends the run with nothing written; otherwise the directory is
    made anew and the records are written in order, up to the first file that
    cannot be written. *)
Lemma batch_result (conf_lines : list string) (dirout : string) :
  let o := fetch_loop urlopen broken_ids skipped_ids minrev maxrev
             (jobs (get_lib_locations conf_lines)) [] in
  let run := batch urlopen broken_ids skipped_ids minrev maxrev
               recreate_dir open_w conf_lines dirout in
  let file := fun kv : string * Dict.t string =>
                (export_path dirout (snd kv), format_exports (snd kv)) in
  fetched (fst run) = fetched (happened o)
  /\ (forall e, escaped o = Some e -> snd run = Some e /\ written (fst run) = [])
  /\ (exists n, written (fst run) = map file (firstn n (contribs o)))
  /\ (snd run = None ->
      escaped o = None /\ written (fst run) = map file (contribs o))
  /\ (escaped o = None ->
      forall e, snd run = Some e ->
        recreate_dir dirout = Raise e
        \/ exists kv, In kv (contribs o)
                      /\ open_w (export_path dirout (snd kv)) = Raise e)
  /\ (escaped o = None ->
      (exists u, recreate_dir dirout = Ok u) ->
      (forall kv, In kv (contribs o) ->
         exists u, open_w (export_path dirout (snd kv)) = Ok u) ->
      snd run = None).
Proof.
  unfold batch, get_lib_locations.
  destruct (parse_lines_quiet conf_lines parser_init) as [Hpw Hpf].
  simpl in Hpw, Hpf.
  set (st := parse_lines parser_init conf_lines) in *.
  set (o := fetch_loop urlopen broken_ids skipped_ids minrev maxrev
              (jobs (urls_by_category st)) []).
  assert (written (happened o) = []) as How by apply fetch_loop_written.
  assert (table_ok (contribs o)) as [_ Hall]
      by apply fetch_loop_table_ok, table_ok_empty.
  cbv zeta. destruct (escaped o) as [e|].
  - cbn [fst snd]. rewrite written_app, fetched_app, Hpw, Hpf, How.
    refine (conj eq_refl (conj _ (conj _ (conj _ (conj _ _))))).
    + intros e' [= <-]. now split.
    + now exists 0%nat.
    + discriminate.
    + discriminate.
    + discriminate.
  - destruct (recreate_dir dirout) as [u|e] eqn:Er.
    + pose proof (write_all_spec open_w dirout (contribs o) Hall) as Hspec.
      cbv zeta in Hspec.
      destruct (write_all open_w dirout (contribs o)) as [evs x].
      cbn [fst snd] in *.
      destruct Hspec as (Hf & Hn & Hnone & Hsome & Hok).
      rewrite !written_app, !fetched_app, Hpw, Hpf, How.
      cbn [app written fetched]. rewrite Hf, app_nil_r.
      refine (conj eq_refl (conj _ (conj Hn (conj _ (conj _ _))))).
      * discriminate.
      * intros Hx. split; [reflexivity|now apply Hnone].
      * intros _ e He. right. now apply Hsome.
      * intros _ _ Hopen. now apply Hok.
    + cbn [fst snd]. rewrite written_app, fetched_app, Hpw, Hpf, How.
      refine (conj eq_refl (conj _ (conj _ (conj _ (conj _ _))))).
      * discriminate.
      * now exists 0%nat.
      * discriminate.
      * intros _ e' [= <-]. now left.
      * intros _ (u & Hu). discriminate.
Qed.

(** Every file of a run comes from a record of the table. *)
Lemma batch_written_in (conf_lines : list string) (dirout path : string)
  (content : Dict.t json) :
  In (path, content)
     (written (fst (batch urlopen broken_ids skipped_ids minrev maxrev
                      recreate_dir open_w conf_lines dirout))) ->
  exists k record,
    In (k, record)
       (contribs (fetch_loop urlopen broken_ids skipped_ids minrev maxrev
                    (jobs (get_lib_locations conf_lines)) []))
    /\ content = format_exports record.
Proof.
  intros Hin.
  destruct (batch_result conf_lines dirout) as (_ & _ & (n & Hn) & _).
  cbv zeta in Hn. rewrite Hn in Hin.
  apply in_map_iff in Hin. destruct Hin as ([k record] & [= _ <-] & Hin).
  exists k, record. split; [now apply (firstn_in n)|reflexivity].
Qed.

(** C5: a record that lacks a required key once the driver has set its
    fields leaves the table as it was and raises nothing, before any
    revision is converted; and every file a run writes comes from a record
    that has all six keys. *)
Theorem record_with_missing_key_is_rejected :
  (forall (cat ty contrib_id prop_url decoded key : string) (tbl : table),
      listed contrib_id skipped_ids = false ->
      urlopen prop_url = Ok decoded ->
      missing_key (inject broken_ids cat contrib_id ty prop_url
                     (read_exports decoded)) = Some key ->
      process_contrib urlopen broken_ids skipped_ids minrev maxrev
        cat (ty, contrib_id, prop_url) tbl
      = mkOutcome tbl
          [Print ("Opening " ++ prop_url); Urlopen prop_url;
           Print ("Error reading " ++ prop_url);
           Print ("  No value for '" ++ key ++ "'. Maybe it's a 404 page")]
          None)
  /\ (forall (conf_lines : list string) (dirout path : string)
             (content : Dict.t json),
         In (path, content)
            (written (fst (batch urlopen broken_ids skipped_ids minrev maxrev
                             recreate_dir open_w conf_lines dirout))) ->
         exists record,
           content = format_exports record /\ missing_key record = None).
Proof.
  split.
  - intros cat ty contrib_id prop_url decoded key tbl Hs Hu Hm.
    unfold process_contrib. rewrite Hs.
    now rewrite (try_body_missing _ _ _ _ _ _ _ _ _ _ _ Hu Hm).
  - intros conf_lines dirout path content Hin.
    apply batch_written_in in Hin.
    destruct Hin as (k & record & Hin & ->).
    exists record. split; [reflexivity|].
    pose proof (fetch_loop_table_ok urlopen broken_ids skipped_ids minrev
                  maxrev (jobs (get_lib_locations conf_lines)) []
                  table_ok_empty) as [_ Hall].
    rewrite Forall_forall in Hall. apply (Hall _ Hin).
Qed.

(** C8: a contribution whose id is listed in skipped.conf is left at the
    first test of the loop, with nothing but the line [Skipping <id>]; and
    every URL a run opens belongs to an entry whose id is not listed. *)
Theorem skipped_id_is_never_fetched :
  (forall (cat ty contrib_id prop_url : string) (tbl : table),
      listed contrib_id skipped_ids = true ->
      process_contrib urlopen broken_ids skipped_ids minrev maxrev
        cat (ty, contrib_id, prop_url) tbl
      = mkOutcome tbl [Print ("Skipping " ++ contrib_id)] None)
  /\ (forall (conf_lines : list string) (dirout url : string),
         In url (fetched (fst (batch urlopen broken_ids skipped_ids minrev
                                 maxrev recreate_dir open_w conf_lines
                                 dirout))) ->
         exists cat ty contrib_id,
           In (cat, (ty, contrib_id, url)) (jobs (get_lib_locations conf_lines))
           /\ listed contrib_id skipped_ids = false).
Proof.
  split.
  - intros cat ty contrib_id prop_url tbl Hs.
    unfold process_contrib. now rewrite Hs.
  - intros conf_lines dirout url Hin.
    destruct (batch_result conf_lines dirout) as (Hf & _).
    cbv zeta in Hf. rewrite Hf in Hin.
    now apply fetch_loop_fetched in Hin.
Qed.

End BatchFacts.

Lemma record_with_missing_key_is_rejected_witness :
  process_contrib (fun _ => Ok "name=Foo") [] [] (ArgInt 228) (ArgInt 0)
    "Sound" ("library", "043", "http://x/a.txt") []
  = mkOutcome []
      [Print "Opening http://x/a.txt"; Urlopen "http://x/a.txt";
       Print "Error reading http://x/a.txt";
       Print "  No value for 'authors'. Maybe it's a 404 page"]
      None
  /\ exists record,
      snd (hd ("", [])
             (written (fst (batch (sample_net "") [] [] (ArgInt 228)
                              (ArgInt 0) always_ok always_ok sample_conf
                              "out"))))
      = format_exports record
      /\ missing_key record = None.
Proof.
  split.
  - apply (proj1 (record_with_missing_key_is_rejected
                    (fun _ => Ok "name=Foo") [] [] (ArgInt 228) (ArgInt 0)
                    always_ok always_ok)
             "Sound" "library" "043" "http://x/a.txt" "name=Foo" "authors" []);
      reflexivity.
  - apply (proj2 (record_with_missing_key_is_rejected
                    (sample_net "") [] [] (ArgInt 228) (ArgInt 0)
                    always_ok always_ok)
             sample_conf "out"
             (fst (hd ("", [])
                     (written (fst (batch (sample_net "") [] [] (ArgInt 228)
                                      (ArgInt 0) always_ok always_ok
                                      sample_conf "out")))))).
    vm_compute. left. reflexivity.
Defined.

Lemma skipped_id_is_never_fetched_witness :
  process_contrib (sample_net "") [] ["043"] (ArgInt 228) (ArgInt 0)
    "Sound" ("library", "043", "http://x/a.txt") []
  = mkOutcome [] [Print "Skipping 043"] None
  /\ exists cat ty contrib_id,
      In (cat, (ty, contrib_id, "http://x/a.txt"))
         (jobs (get_lib_locations sample_conf))
      /\ listed contrib_id ["044"] = false.
Proof.
  split.
  - apply (proj1 (skipped_id_is_never_fetched (sample_net "") [] ["043"]
                    (ArgInt 228) (ArgInt 0) always_ok always_ok)
             "Sound" "library" "043" "http://x/a.txt" []).
    reflexivity.
  - apply (proj2 (skipped_id_is_never_fetched (sample_net "") [] ["044"]
                    (ArgInt 228) (ArgInt 0) always_ok always_ok)
             sample_conf "out" "http://x/a.txt").
    vm_compute. left. reflexivity.
Defined.

(** ** Merging of categories *)

Lemma accumulate_categories (cat contrib_id i : string)
  (exports : Dict.t string) (tbl tbl' : table) :
  accumulate cat contrib_id exports tbl = Ok tbl' ->
  Dict.get "categories" exports = Some cat ->
  categories_of tbl' i
  = if String.eqb contrib_id i
    then Some match categories_of tbl i with
              | Some c0 => c0 ++ "," ++ cat
              | None => cat
              end
    else categories_of tbl i.
Proof.
  unfold accumulate, Dict.mem, Dict.item, categories_of.
  destruct (Dict.get contrib_id tbl) as [r|] eqn:Hg; simpl.
  - destruct (Dict.get "categories" r) as [c|] eqn:Hc; simpl; [|discriminate].
    intros [= <-] _. destruct (String.eqb contrib_id i) eqn:E.
    + apply String.eqb_eq in E. subst i.
      rewrite get_set_same, get_set_same, Hg, Hc. reflexivity.
    + apply String.eqb_neq in E. rewrite get_set_other by congruence.
      reflexivity.
  - intros [= <-] Hcat. destruct (String.eqb contrib_id i) eqn:E.
    + apply String.eqb_eq in E. subst i.
      rewrite get_set_same, Hg, Hcat. reflexivity.
    + apply String.eqb_neq in E. rewrite get_set_other by congruence.
      reflexivity.
Qed.

Lemma filter_key_absent {V : Type} (i : string) (d : Dict.t V) :
  ~ In i (Dict.keys d) ->
  List.filter (fun kv => String.eqb (fst kv) i) d = [].
Proof.
  induction d as [|[k v] d IH]; simpl; intros H; [reflexivity|].
  destruct (String.eqb k i) eqn:E.
  - apply String.eqb_eq in E. tauto.
  - apply IH. tauto.
Qed.

Lemma filter_key_get {V : Type} (i : string) (v : V) (d : Dict.t V) :
  NoDup (Dict.keys d) -> Dict.get i d = Some v ->
  List.filter (fun kv => String.eqb (fst kv) i) d = [(i, v)].
Proof.
  induction d as [|[k w] d IH]; simpl; intros Hnd Hg; [discriminate|].
  inversion Hnd as [|? ? Hnotin Hnd']. subst.
  destruct (String.eqb k i) eqn:E.
  - apply String.eqb_eq in E. subst k. injection Hg as ->.
    now rewrite filter_key_absent.
  - now apply IH.
Qed.

Lemma filter_written (dirout i : string) (tbl : table) :
  Forall (fun kv => record_ok (fst kv) (snd kv)) tbl ->
  List.filter (fun w => has_id i (snd w))
    (map (fun kv => (export_path dirout (snd kv), format_exports (snd kv))) tbl)
  = map (fun kv => (export_path dirout (snd kv), format_exports (snd kv)))
      (List.filter (fun kv => String.eqb (fst kv) i) tbl).
Proof.
  induction 1 as [|[k r] tbl (Hid & _ & _) Hall IH]; [reflexivity|].
  simpl in *. unfold has_id at 1.
  rewrite format_exports_get, Hid.
  - simpl. destruct (String.eqb k i); simpl; now rewrite IH.
  - intros H. simpl in H.
    repeat (destruct H as [H|H]; [discriminate|]). exact H.
Qed.


Section MergeFacts.

Variable urlopen : string -> result string.
Variable broken_ids : list string.
Variable skipped_ids : list string.
Variable minrev : arg.
Variable maxrev : arg.
Variable recreate_dir : string -> result unit.
Variable open_w : string -> result unit.

Lemma candidate_categories (cat contrib_id ty prop_url decoded : string) :
  Dict.get "categories"
    (candidate broken_ids cat contrib_id ty prop_url decoded) = Some cat.
Proof.
  unfold candidate.
  rewrite get_with_download, get_inject_other by discriminate.
  apply get_set_same.
Qed.

Lemma accepted_cats_cons (i : string) (job : string * entry)
  (rest : list (string * entry)) :
  accepted_cats urlopen broken_ids skipped_ids minrev maxrev i (job :: rest)
  = if String.eqb (job_id job) i
       && accepts urlopen broken_ids skipped_ids minrev maxrev job
    then fst job
         :: accepted_cats urlopen broken_ids skipped_ids minrev maxrev i rest
    else accepted_cats urlopen broken_ids skipped_ids minrev maxrev i rest.
Proof.
  unfold accepted_cats. cbn [List.filter].
  now destruct (String.eqb (job_id job) i && accepts _ _ _ _ _ job).
Qed.

(** The categories string of an id after the loop: the accepted
    categories, in order, joined to what the table held before. *)
Lemma fetch_loop_categories (i : string) (todo : list (string * entry))
  (tbl : table) :
  table_ok tbl ->
  escaped (fetch_loop urlopen broken_ids skipped_ids minrev maxrev todo tbl)
  = None ->
  categories_of
    (contribs (fetch_loop urlopen broken_ids skipped_ids minrev maxrev
                 todo tbl)) i
  = match categories_of tbl i,
          accepted_cats urlopen broken_ids skipped_ids minrev maxrev i todo
    with
    | Some c0, cs => Some (joined c0 cs)
    | None, [] => None
    | None, c :: cs => Some (joined c cs)
    end.
Proof.
  revert tbl.
  induction todo as [|[cat [[ty contrib_id] prop_url]] rest IH];
    intros tbl Hok Hesc.
  - simpl. now destruct (categories_of tbl i).
  - rewrite fetch_loop_cons in *. cbv zeta in *.
    pose proof (process_contrib_step urlopen broken_ids skipped_ids minrev
                  maxrev cat ty contrib_id prop_url tbl) as Hstep.
    cbv zeta in Hstep.
    pose proof (process_contrib_table_ok urlopen broken_ids skipped_ids minrev
                  maxrev cat (ty, contrib_id, prop_url) tbl Hok) as Hok1.
    rewrite accepted_cats_cons. unfold job_id. cbn [fst snd].
    destruct (escaped (process_contrib _ _ _ _ _ cat _ tbl)) eqn:He1;
      [congruence|].
    cbn [contribs escaped] in *.
    rewrite (IH _ Hok1 Hesc).
    destruct (accepts _ _ _ _ _ _) eqn:Hacc.
    + destruct Hstep as (decoded & Hu & Hm & Hstep).
      destruct (accumulate_ok cat contrib_id _ tbl Hok
                  (candidate_ok broken_ids _ _ _ _ _ Hm))
        as (tbl' & Ha & _).
      rewrite Ha in Hstep. destruct Hstep as [-> _].
      rewrite (accumulate_categories _ _ i _ _ _ Ha
                 (candidate_categories _ _ _ _ _)).
      rewrite andb_true_r. destruct (String.eqb contrib_id i).
      * now destruct (categories_of tbl i).
      * reflexivity.
    + rewrite andb_false_r, Hstep. reflexivity.
Qed.

(** C3: the table never holds two records for one id; and when a run
    completes and the id [i] is accepted under the two categories [c1] and
    [c2], in this order, exactly one file is written for [i], from a record
    whose [categories] is the string [c1,c2], which [format_exports] then
    splits. *)
Theorem one_record_per_contribution_id :
  forall (conf_lines : list string) (dirout : string),
    let todo := jobs (get_lib_locations conf_lines) in
    let run := batch urlopen broken_ids skipped_ids minrev maxrev
                 recreate_dir open_w conf_lines dirout in
    NoDup (Dict.keys
             (contribs (fetch_loop urlopen broken_ids skipped_ids minrev
                          maxrev todo [])))
    /\ forall (i c1 c2 : string),
        snd run = None ->
        accepted_cats urlopen broken_ids skipped_ids minrev maxrev i todo
        = [c1; c2] ->
        exists record,
          List.filter (fun w => has_id i (snd w)) (written (fst run))
          = [(export_path dirout record, format_exports record)]
          /\ Dict.get "categories" record = Some (c1 ++ "," ++ c2)
          /\ Dict.get "categories" (format_exports record)
             = Some (JList (map JStr (PyStr.split "," (c1 ++ "," ++ c2)))).
Proof.
  intros conf_lines dirout todo run.
  pose proof (fetch_loop_table_ok urlopen broken_ids skipped_ids minrev maxrev
                todo [] table_ok_empty) as [Hnd Hall].
  split; [assumption|].
  intros i c1 c2 Hrun Hacc.
  destruct (batch_result urlopen broken_ids skipped_ids minrev maxrev
              recreate_dir open_w conf_lines dirout)
    as (_ & _ & _ & Hdone & _).
  cbv zeta in Hdone. fold todo run in Hdone.
  destruct (Hdone Hrun) as [Hsnd Hw].
  pose proof (fetch_loop_categories i todo [] table_ok_empty Hsnd) as Hcat.
  rewrite Hacc in Hcat. unfold categories_of in Hcat. simpl in Hcat.
  destruct (Dict.get i (contribs _)) as [record|] eqn:Hg; [|discriminate].
  exists record. rewrite Hw.
  rewrite (filter_written dirout i _ Hall).
  rewrite (filter_key_get i record _ Hnd Hg).
  split; [reflexivity|]. split; [assumption|].
  rewrite format_exports_categories, Hcat.
  now destruct c1.
Qed.

End MergeFacts.

Lemma one_record_per_contribution_id_witness :
  exists record,
    List.filter (fun w => has_id "043" (snd w))
      (written (fst (batch (sample_net "") [] [] (ArgInt 228) (ArgInt 0)
                       always_ok always_ok sample_conf "out")))
    = [(export_path "out" record, format_exports record)]
    /\ Dict.get "categories" record = Some ("Sound" ++ "," ++ "Vision")
    /\ Dict.get "categories" (format_exports record)
       = Some (JList (map JStr (PyStr.split "," ("Sound" ++ "," ++ "Vision")))).
Proof.
  apply (proj2 (one_record_per_contribution_id (sample_net "") [] []
                  (ArgInt 228) (ArgInt 0) always_ok always_ok
                  sample_conf "out") "043" "Sound" "Vision");
    reflexivity.
Defined.

(** ** Errors of single contributions *)

Section ErrorFacts.

Variable urlopen : string -> result string.
Variable broken_ids : list string.
Variable skipped_ids : list string.
Variable minrev : arg.
Variable maxrev : arg.

Lemma process_contrib_no_escape (cat : string) (contrib : entry) (tbl : table)
  (lo_bound hi_bound : Z) :
  int_arg minrev = Ok lo_bound -> int_arg maxrev = Ok hi_bound ->
  table_ok tbl -> well_behaved urlopen broken_ids (cat, contrib) ->
  escaped (process_contrib urlopen broken_ids skipped_ids minrev maxrev
             cat contrib tbl) = None.
Proof.
  destruct contrib as [[ty contrib_id] prop_url].
  intros Hmin Hmax Hok [Hraise Hnum].
  unfold process_contrib, try_body.
  destruct (listed contrib_id skipped_ids); [reflexivity|].
  destruct (urlopen prop_url) as [decoded|e] eqn:Hu.
  - destruct (missing_key _) as [key|] eqn:Hm; [reflexivity|].
    fold (candidate broken_ids cat contrib_id ty prop_url decoded).
    destruct (Hnum decoded eq_refl) as (lo & hi & Hlo & Hhi).
    rewrite (compatible_numeric minrev maxrev lo_bound hi_bound lo hi _
               Hmin Hmax Hlo Hhi).
    cbn [bind].
    destruct (in_range_b lo_bound hi_bound lo hi); [|reflexivity].
    destruct (accumulate_ok cat contrib_id _ tbl Hok
                (candidate_ok broken_ids _ _ _ _ _ Hm)) as (tbl' & -> & _).
    reflexivity.
  - destruct (Hraise e eq_refl) as [->| ->]; reflexivity.
Qed.

Lemma fetch_loop_no_escape (todo : list (string * entry)) (tbl : table)
  (lo_bound hi_bound : Z) :
  int_arg minrev = Ok lo_bound -> int_arg maxrev = Ok hi_bound ->
  table_ok tbl -> Forall (well_behaved urlopen broken_ids) todo ->
  escaped (fetch_loop urlopen broken_ids skipped_ids minrev maxrev todo tbl)
  = None.
Proof.
  intros Hmin Hmax Hok Hall. revert tbl Hok.
  induction Hall as [|[cat contrib] todo Hjob Hall IH]; intros tbl Hok.
  - reflexivity.
  - rewrite fetch_loop_cons. cbv zeta.
    rewrite (process_contrib_no_escape cat contrib tbl lo_bound hi_bound
               Hmin Hmax Hok Hjob).
    cbn [escaped]. apply IH.
    now apply process_contrib_table_ok.
Qed.

End ErrorFacts.

Lemma get_in {V : Type} (k : string) (v : V) (d : Dict.t V) :
  Dict.get k d = Some v -> In (k, v) d.
Proof.
  induction d as [|[a w] d IH]; simpl; [discriminate|].
  destruct (String.eqb a k) eqn:E.
  - apply String.eqb_eq in E. subst a. intros [= ->]. now left.
  - auto.
Qed.

Section ContainmentFacts.

Variable urlopen : string -> result string.
Variable broken_ids : list string.
Variable skipped_ids : list string.
Variable minrev : arg.
Variable maxrev : arg.
Variable recreate_dir : string -> result unit.
Variable open_w : string -> result unit.

(** An accepted entry has its id in the table once the loop completes. *)
Lemma accepted_is_accumulated (todo : list (string * entry))
  (job : string * entry) :
  escaped (fetch_loop urlopen broken_ids skipped_ids minrev maxrev todo [])
  = None ->
  In job todo ->
  accepts urlopen broken_ids skipped_ids minrev maxrev job = true ->
  exists record,
    In (job_id job, record)
       (contribs (fetch_loop urlopen broken_ids skipped_ids minrev maxrev
                    todo [])).
Proof.
  intros Hesc Hin Hacc.
  pose proof (fetch_loop_categories urlopen broken_ids skipped_ids minrev
                maxrev (job_id job) todo [] table_ok_empty Hesc) as Hcat.
  assert (In (fst job)
            (accepted_cats urlopen broken_ids skipped_ids minrev maxrev
               (job_id job) todo)) as Hmem.
  { unfold accepted_cats. apply in_map. apply filter_In. split; [assumption|].
    now rewrite String.eqb_refl, Hacc. }
  unfold categories_of in Hcat. cbn [Dict.get] in Hcat.
  destruct (accepted_cats _ _ _ _ _ _ _) as [|c cs]; [destruct Hmem|].
  destruct (Dict.get (job_id job) (contribs _)) as [record|] eqn:Hg;
    [|discriminate].
  exists record. now apply get_in.
Qed.

(** C1, amended: errors of the classes the handlers name ([IOError],
    [UnicodeDecodeError]) and missing required keys stay inside their
    contribution.  When the two bounds convert to integers, the fetches raise
    nothing else, the fetched descriptors have numeric revisions, the output
    directory can be made anew and every file of the table can be written,
    the run completes, writes one file per record of the table, and every
    accepted contribution has a file. *)
Theorem handled_errors_do_not_stop_the_batch :
  forall (conf_lines : list string) (dirout : string) (lo_bound hi_bound : Z),
    let todo := jobs (get_lib_locations conf_lines) in
    let run := batch urlopen broken_ids skipped_ids minrev maxrev
                 recreate_dir open_w conf_lines dirout in
    int_arg minrev = Ok lo_bound ->
    int_arg maxrev = Ok hi_bound ->
    Forall (well_behaved urlopen broken_ids) todo ->
    (exists u, recreate_dir dirout = Ok u) ->
    (forall k record,
        In (k, record)
           (contribs (fetch_loop urlopen broken_ids skipped_ids minrev maxrev
                        todo [])) ->
        exists u, open_w (export_path dirout record) = Ok u) ->
    snd run = None
    /\ written (fst run)
       = map (fun kv => (export_path dirout (snd kv), format_exports (snd kv)))
           (contribs (fetch_loop urlopen broken_ids skipped_ids minrev maxrev
                        todo []))
    /\ forall job,
        In job todo ->
        accepts urlopen broken_ids skipped_ids minrev maxrev job = true ->
        exists path content,
          In (path, content) (written (fst run))
          /\ has_id (job_id job) content = true.
Proof.
  intros conf_lines dirout lo_bound hi_bound todo run Hmin Hmax Hall Hdir
    Hopen.
  destruct (batch_result urlopen broken_ids skipped_ids minrev maxrev
              recreate_dir open_w conf_lines dirout)
    as (_ & _ & _ & Hdone & _ & Hcomplete).
  cbv zeta in Hdone, Hcomplete. fold todo run in Hdone, Hcomplete.
  pose proof (fetch_loop_no_escape urlopen broken_ids skipped_ids minrev
                maxrev todo [] lo_bound hi_bound Hmin Hmax table_ok_empty
                Hall) as Hesc.
  assert (snd run = None) as Hrun.
  { apply Hcomplete; [assumption..|].
    intros [k record] Hin. now apply (Hopen k). }
  destruct (Hdone Hrun) as [_ Hw].
  split; [assumption|]. split; [assumption|].
  intros job Hin Hacc.
  destruct (accepted_is_accumulated todo job Hesc Hin Hacc) as (record & Hrec).
  pose proof (fetch_loop_table_ok urlopen broken_ids skipped_ids minrev maxrev
                todo [] table_ok_empty) as [_ Hok].
  rewrite Forall_forall in Hok. destruct (Hok _ Hrec) as (Hid & _ & _).
  simpl in Hid.
  exists (export_path dirout record), (format_exports record). split.
  - rewrite Hw. apply in_map_iff. exists (job_id job, record). now split.
  - unfold has_id. rewrite format_exports_get, Hid.
    + simpl. apply String.eqb_refl.
    + intros H. simpl in H.
      repeat (destruct H as [H|H]; [discriminate|]). exact H.
Qed.

End ContainmentFacts.

(** C1, as stated, fails: the second descriptor gives [maxRevision=abc],
    [int] raises ValueError, no handler names it, and the run ends before the
    first contribution, which was accepted, is written. *)
Lemma non_numeric_revision_stops_the_batch :
  accepts two_entry_net [] [] (ArgInt 228) (ArgInt 0)
    ("Sound", ("library", "043", "http://x/a.txt")) = true
  /\ snd (batch two_entry_net [] [] (ArgInt 228) (ArgInt 0)
            always_ok always_ok two_entry_conf "out")
     = Some ValueError
  /\ written (fst (batch two_entry_net [] [] (ArgInt 228) (ArgInt 0)
                     always_ok always_ok two_entry_conf "out")) = [].
Proof.
  repeat split; vm_compute; reflexivity.
Qed.

Lemma handled_errors_do_not_stop_the_batch_witness :
  let run := batch (sample_net "") [] [] (ArgStr "228") (ArgStr "0")
               always_ok always_ok two_entry_conf "out" in
  snd run = None
  /\ written (fst run)
     = map (fun kv => (export_path "out" (snd kv), format_exports (snd kv)))
         (contribs (fetch_loop (sample_net "") [] [] (ArgStr "228")
                      (ArgStr "0")
                      (jobs (get_lib_locations two_entry_conf)) []))
  /\ forall job,
      In job (jobs (get_lib_locations two_entry_conf)) ->
      accepts (sample_net "") [] [] (ArgStr "228") (ArgStr "0") job = true ->
      exists path content,
        In (path, content) (written (fst run))
        /\ has_id (job_id job) content = true.
Proof.
  apply (handled_errors_do_not_stop_the_batch (sample_net "") [] []
           (ArgStr "228") (ArgStr "0") always_ok always_ok
           two_entry_conf "out" 228 0).
  - reflexivity.
  - reflexivity.
  - assert (jobs (get_lib_locations two_entry_conf)
            = [("Sound", ("library", "043", "http://x/a.txt"));
               ("Sound", ("library", "044", "http://x/b.txt"))]) as ->
        by reflexivity.
    constructor; [split|constructor; [split|constructor]].
    + intros e H. vm_compute in H. discriminate H.
    + intros decoded H. vm_compute in H. injection H as <-.
      exists 0, 0. split; reflexivity.
    + intros e H. vm_compute in H. injection H as <-. now left.
    + intros decoded H. vm_compute in H. discriminate H.
  - exists tt. reflexivity.
  - intros k record _. exists tt. reflexivity.
Defined.

(** ** The default download URL *)

Lemma rfind_from_absent (c : ascii) (s : string) (i found : Z) :
  ~ PyStr.occurs c s -> PyStr.rfind_from c s i found = found.
Proof.
  revert i found. induction s as [|a s IH]; simpl; intros i found H.
  - reflexivity.
  - destruct (Ascii.eqb a c) eqn:E.
    + apply Ascii.eqb_eq in E. tauto.
    + apply IH. tauto.
Qed.

Lemma rfind_from_last (c : ascii) (p q : string) (i found : Z) :
  ~ PyStr.occurs c q ->
  PyStr.rfind_from c (p ++ String c q) i found = i + PyStr.len p.
Proof.
  intros Hq. unfold PyStr.len. revert i found.
  induction p as [|a p IH]; intros i found.
  - simpl. rewrite Ascii.eqb_refl, rfind_from_absent by assumption. lia.
  - cbn [append PyStr.rfind_from String.length]. rewrite IH. lia.
Qed.

Lemma bound_inside (l k : Z) : 0 <= k <= l -> PyStr.bound l k = Z.to_nat k.
Proof.
  intros H. unfold PyStr.bound.
  destruct (k <? 0) eqn:E; [apply Z.ltb_lt in E; lia|].
  f_equal. lia.
Qed.

Lemma slice_to_prefix (p q : string) :
  PyStr.slice_to (p ++ q) (PyStr.len p) = p.
Proof.
  unfold PyStr.slice_to, PyStr.len. rewrite bound_inside.
  - rewrite Nat2Z.id. apply take_app_length.
  - rewrite str_length_app. lia.
Qed.

(** With a dot in the URL, the default is the text before the last dot,
    followed by [.zip]. *)
Lemma default_download_truncates (p q : string) :
  ~ PyStr.occurs "." q ->
  default_download (p ++ "." ++ q) = p ++ ".zip".
Proof.
  intros Hq. unfold default_download, PyStr.rfind.
  change (p ++ "." ++ q) with (p ++ String "."%char q).
  rewrite (rfind_from_last "." p q 0 (-1) Hq). simpl Z.add.
  now rewrite slice_to_prefix.
Qed.

(** The default is used exactly when no key starts with [download]. *)
Lemma with_download_cases (download_url : string) (exports : Dict.t string) :
  (no_download_key exports = true ->
   Dict.get "download" (with_download download_url exports)
   = Some download_url)
  /\ (no_download_key exports = false ->
      with_download download_url exports = exports).
Proof.
  unfold with_download. split; intros ->; [apply get_set_same|reflexivity].
Qed.

(** C6, at a descriptor URL without a dot: [rfind] answers -1, the slice
    [prop_url[:-1]] drops the last character, and the record is accumulated
    with a download URL that is not the descriptor's address with [.zip]. *)
Theorem download_url_without_dot_loses_a_character :
  PyStr.rfind "." "http://localhost/lib" = -1
  /\ default_download "http://localhost/lib" = "http://localhost/li.zip"
  /\ no_download_key
       (inject [] "Sound" "043" "library" "http://localhost/lib"
          (read_exports (sample_descriptor ""))) = true
  /\ Dict.get "download"
       (candidate [] "Sound" "043" "library" "http://localhost/lib"
          (sample_descriptor ""))
     = Some "http://localhost/li.zip"
  /\ accepts (fun _ => Ok (sample_descriptor "")) [] []
       (ArgInt 228) (ArgInt 0)
       ("Sound", ("library", "043", "http://localhost/lib")) = true.
Proof.
  repeat split; vm_compute; reflexivity.
Qed.

(** ** The configuration parser *)

Lemma all_space_occurs (c : ascii) (ws : string) :
  all_space ws = true -> PyStr.occurs c ws -> PyStr.isspace c = true.
Proof.
  induction ws as [|a ws IH]; simpl; [tauto|].
  intros H. apply andb_true_iff in H. destruct H as [Ha Hws].
  intros [<-|H]; auto.
Qed.

Lemma last_occurs (s : string) (c : ascii) :
  PyStr.last s = Some c -> PyStr.occurs c s.
Proof.
  induction s as [|a s IH]; simpl; [discriminate|].
  destruct s as [|b s]; [intros [= ->]; now left|].
  intros H. right. now apply IH.
Qed.

Lemma last_app (s t : string) :
  t <> EmptyString -> PyStr.last (s ++ t) = PyStr.last t.
Proof.
  intros Ht. induction s as [|a s IH]; [reflexivity|].
  cbn [append PyStr.last]. rewrite IH.
  destruct (s ++ t) eqn:E; [|reflexivity].
  destruct s; [simpl in E; congruence|discriminate].
Qed.

(** A comment sign after [body] cuts the line down to [body], unstripped. *)
Lemma cut_comment_at_hash (body comment : string) :
  ~ PyStr.occurs "#" body ->
  cut_comment (body ++ "#" ++ comment) = body.
Proof.
  intros H. unfold cut_comment, PyStr.find.
  change (body ++ "#" ++ comment) with (body ++ String "#"%char comment).
  rewrite find_from_app by assumption. simpl Z.add.
  destruct (PyStr.len body =? -1) eqn:E.
  - apply Z.eqb_eq in E. unfold PyStr.len in E. lia.
  - apply slice_to_prefix.
Qed.

(** A line whose text does not end in a bracket takes the contribution
    branch. *)
Lemma parse_line_contribution (st : parser) (raw : string) :
  cut_comment raw <> EmptyString ->
  is_char (PyStr.last (cut_comment raw)) "]" = false ->
  parse_line st raw
  = match software_type st, category st with
    | Some ty, Some cat =>
        match PyStr.split "\" (cut_comment raw) with
        | [c0; c1] =>
            mkParser (Some ty) (Some cat)
              (append_entry cat (ty, PyStr.strip c0, PyStr.strip c1)
                 (urls_by_category st))
              (printed st)
        | contents =>
            mkParser (Some ty) (Some cat) (urls_by_category st)
              (printed st ++ [Print msg_malformed; PrintList contents])%list
        end
    | _, _ =>
        mkParser (software_type st) (category st) (urls_by_category st)
          (printed st ++ [Print msg_ignoring])%list
    end.
Proof.
  intros Hne Hlast. unfold parse_line. rewrite Hlast, andb_false_r.
  destruct (cut_comment raw) as [|a line] eqn:E; [congruence|].
  reflexivity.
Qed.

(** What [parse_line] does with a well-formed header that is followed by
    whitespace and a comment: the line is cut at the comment sign and not
    stripped, so that it does not end in a bracket and takes the branch of
    the contribution lines, where it is reported or, with one backslash in
    it, stored as an entry. *)
Theorem header_with_comment_opens_nothing :
  forall (st : parser) (hdr ws comment : string),
    well_formed_header hdr ->
    ws <> EmptyString ->
    all_space ws = true ->
    let st' := parse_line st (hdr ++ ws ++ "#" ++ comment) in
    cut_comment (hdr ++ ws ++ "#" ++ comment) = hdr ++ ws
    /\ is_char (PyStr.last (hdr ++ ws)) "]" = false
    /\ software_type st' = software_type st
    /\ category st' = category st
    /\ match software_type st, category st with
       | Some ty, Some cat =>
           match PyStr.split "\" (hdr ++ ws) with
           | [c0; c1] =>
               urls_by_category st'
               = append_entry cat (ty, PyStr.strip c0, PyStr.strip c1)
                   (urls_by_category st)
               /\ printed st' = printed st
           | contents =>
               urls_by_category st' = urls_by_category st
               /\ printed st'
                  = (printed st
                     ++ [Print msg_malformed; PrintList contents])%list
           end
       | _, _ =>
           urls_by_category st' = urls_by_category st
           /\ printed st' = (printed st ++ [Print msg_ignoring])%list
       end.
Proof.
  intros st hdr ws comment (Hhash & _ & _ & _) Hne Hws st'.
  assert (cut_comment (hdr ++ ws ++ "#" ++ comment) = hdr ++ ws) as Hcut.
  { rewrite <- app_assoc_str. apply cut_comment_at_hash.
    intros H. apply occurs_app in H. destruct H as [H|H]; [tauto|].
    apply (all_space_occurs _ _ Hws) in H. discriminate H. }
  assert (is_char (PyStr.last (hdr ++ ws)) "]" = false) as Hlast.
  { rewrite last_app by assumption.
    destruct (PyStr.last ws) as [c|] eqn:E; [|reflexivity].
    apply last_occurs, (all_space_occurs _ _ Hws) in E.
    unfold is_char. destruct (Ascii.eqb c "]") eqn:Ec; [|reflexivity].
    apply Ascii.eqb_eq in Ec. subst c. discriminate E. }
  split; [assumption|]. split; [assumption|].
  subst st'. rewrite parse_line_contribution; rewrite Hcut.
  - destruct (software_type st) as [ty|], (category st) as [cat|];
      try (now repeat split).
    destruct (PyStr.split "\" (hdr ++ ws)) as [|c0 [|c1 [|c2 rest]]];
      now repeat split.
  - intros H. destruct hdr; [simpl in H; congruence|discriminate H].
  - assumption.
Qed.

Lemma header_with_comment_opens_nothing_witness :
  let st := parse_line parser_init "[Library : Sound]" in
  let st' := parse_line st ("[Tool : Vision]" ++ " " ++ "#" ++ " tools") in
  cut_comment ("[Tool : Vision]" ++ " " ++ "#" ++ " tools")
  = "[Tool : Vision]" ++ " "
  /\ is_char (PyStr.last ("[Tool : Vision]" ++ " ")) "]" = false
  /\ software_type st' = Some "library"
  /\ category st' = Some "Sound"
  /\ urls_by_category st' = []
  /\ printed st'
     = [Print msg_malformed; PrintList ["[Tool : Vision] "]].
Proof.
  apply (header_with_comment_opens_nothing
           (parse_line parser_init "[Library : Sound]")
           "[Tool : Vision]" " " " tools").
  - repeat split; try reflexivity.
    + vm_compute. intuition discriminate.
    + exists "Tool ", " Vision". reflexivity.
  - discriminate.
  - reflexivity.
Defined.

(** C9, at the lines the code mishandles.  A line that is cut at its
    comment sign is not stripped, where a line without comment is: with a
    category open, the header [[To\ol : Vision]] followed by a comment is
    stored as a contribution of that category and nothing is logged; the
    same header alone on its line opens its category; and the example
    configuration of the module's docstring, whose headers carry comments,
    yields no category at all, each of its headers and contributions being
    reported with the [Ignoring] message. *)
Theorem header_with_comment_is_not_a_header :
  (let st := parse_line parser_init "[Library : Sound]" in
   let st' := parse_line st "[To\ol : Vision] # tools" in
   well_formed_header "[To\ol : Vision]"
   /\ software_type st' = Some "library"
   /\ category st' = Some "Sound"
   /\ printed st' = printed st
   /\ urls_by_category st'
      = [("Sound", [("library", "[To", "ol : Vision]")])])
  /\ parse_line (parse_line parser_init "[Library : Sound]")
       ("[To\ol : Vision] " ++ LF)
     = mkParser (Some "to\ol") (Some "Vision") [] []
  /\ get_lib_locations docstring_conf = []
  /\ printed (parse_lines parser_init docstring_conf)
     = [Print msg_ignoring; Print msg_ignoring; Print msg_ignoring;
        Print msg_ignoring; Print msg_ignoring].
Proof.
  repeat split; try reflexivity.
  - vm_compute. intuition discriminate.
  - exists "To\ol ", " Vision". reflexivity.
Qed.

(** With no category open, a line that opens none leaves the state as it
    is, apart from the line it may print. *)
Lemma parse_line_closed (st : parser) (raw : string) :
  software_type st = None -> category st = None ->
  opens_category raw = false ->
  parse_line st raw
  = mkParser None None (urls_by_category st)
      (printed st ++ ignoring_line raw)%list.
Proof.
  destruct st as [ty cat urls out]. simpl. intros -> -> Hopen.
  unfold opens_category, ignoring_line, blank, bracketed, two_parts in *.
  unfold parse_line. cbn [software_type category urls_by_category printed].
  destruct (PyStr.len (cut_comment raw) =? 0); simpl in *.
  - now rewrite app_nil_r.
  - destruct (is_char (PyStr.first (cut_comment raw)) "["
              && is_char (PyStr.last (cut_comment raw)) "]"); simpl in *.
    + rewrite app_nil_r.
      destruct (PyStr.split ":" _) as [|c0 [|c1 [|c2 rest]]];
        try reflexivity; discriminate.
    + reflexivity.
Qed.

Lemma parse_lines_closed (lines : list string) (st : parser) :
  software_type st = None -> category st = None ->
  Forall (fun raw => opens_category raw = false) lines ->
  parse_lines st lines
  = mkParser None None (urls_by_category st)
      (printed st ++ flat_map ignoring_line lines)%list.
Proof.
  intros Hty Hcat Hall. revert st Hty Hcat.
  induction Hall as [|raw lines Hraw Hall IH]; intros st Hty Hcat.
  - destruct st as [ty cat urls out]. simpl in *. subst.
    unfold parse_lines. simpl. now rewrite app_nil_r.
  - unfold parse_lines in *. cbn [fold_left flat_map].
    rewrite (parse_line_closed st raw Hty Hcat Hraw).
    rewrite IH by reflexivity. simpl. now rewrite <- app_assoc.
Qed.

(** C10: a bracketed line whose contents do not split on the colon into
    two parts closes the current category and leaves the entries as they
    were; from there on, until a line opens a category again, the entries
    stay as they were and every contribution line is logged with the
    [Ignoring] message. *)
Theorem malformed_header_closes_the_category :
  forall (st : parser) (raw : string) (lines : list string),
    blank raw = false ->
    bracketed raw = true ->
    two_parts raw = false ->
    Forall (fun l => opens_category l = false) lines ->
    parse_line st raw
    = mkParser None None (urls_by_category st) (printed st)
    /\ parse_lines (parse_line st raw) lines
       = mkParser None None (urls_by_category st)
           (printed st ++ flat_map ignoring_line lines)%list.
Proof.
  intros st raw lines Hblank Hbr Htwo Hall.
  assert (parse_line st raw
          = mkParser None None (urls_by_category st) (printed st)) as Hreset.
  { unfold blank, bracketed, two_parts in *. unfold parse_line.
    rewrite Hblank, Hbr.
    destruct (PyStr.split ":" _) as [|c0 [|c1 [|c2 rest]]];
      try reflexivity; discriminate. }
  split; [assumption|].
  rewrite Hreset.
  now rewrite (parse_lines_closed lines
                 (mkParser None None (urls_by_category st) (printed st))
                 eq_refl eq_refl Hall).
Qed.

Lemma malformed_header_closes_the_category_witness :
  let st := parse_lines parser_init ["[Library : Sound]"; "043 \ http://x/a"] in
  parse_line st "[a:b:c]"
  = mkParser None None (urls_by_category st) (printed st)
  /\ parse_lines (parse_line st "[a:b:c]")
       ["044 \ http://x/b"; "# note"; "[a]"; "045 \ http://x/c"]
     = mkParser None None (urls_by_category st)
         (printed st
          ++ flat_map ignoring_line
               ["044 \ http://x/b"; "# note"; "[a]"; "045 \ http://x/c"])%list.
Proof.
  apply (malformed_header_closes_the_category
           (parse_lines parser_init ["[Library : Sound]"; "043 \ http://x/a"])
           "[a:b:c]"
           ["044 \ http://x/b"; "# note"; "[a]"; "045 \ http://x/c"]);
    try reflexivity.
  repeat constructor.
Defined.

(** * Further properties of the code *)

(** ** Slices, strips and splits *)

Lemma occurs_take (c : ascii) (n : nat) (s : string) :
  PyStr.occurs c (PyStr.take n s) -> PyStr.occurs c s.
Proof.
  revert n. induction s as [|a s IH]; intros [|n]; simpl; try tauto.
  intros [H|H]; [now left|right; eauto].
Qed.

Lemma occurs_drop (c : ascii) (n : nat) (s : string) :
  PyStr.occurs c (PyStr.drop n s) -> PyStr.occurs c s.
Proof.
  revert n. induction s as [|a s IH]; intros [|n]; simpl; try tauto.
  intros H. right. eauto.
Qed.

Lemma occurs_lstrip (c : ascii) (s : string) :
  PyStr.occurs c (PyStr.lstrip s) -> PyStr.occurs c s.
Proof.
  induction s as [|a s IH]; simpl; [tauto|].
  destruct (PyStr.isspace a); simpl; tauto.
Qed.

Lemma occurs_rstrip (c : ascii) (s : string) :
  PyStr.occurs c (PyStr.rstrip s) -> PyStr.occurs c s.
Proof.
  induction s as [|a s IH]; simpl; [tauto|].
  destruct (PyStr.rstrip s) as [|b r].
  - destruct (PyStr.isspace a); simpl; tauto.
  - simpl in *. tauto.
Qed.

Lemma occurs_strip (c : ascii) (s : string) :
  PyStr.occurs c (PyStr.strip s) -> PyStr.occurs c s.
Proof.
  intros H. now apply occurs_lstrip, occurs_rstrip.
Qed.

(** [find] answers -1 when the character is absent, and otherwise the
    length of the text before its first occurrence. *)
Lemma find_cases (c : ascii) (s : string) :
  (PyStr.find c s = -1 /\ ~ PyStr.occurs c s)
  \/ exists p q,
      s = p ++ String c q /\ ~ PyStr.occurs c p /\ PyStr.find c s = PyStr.len p.
Proof.
  unfold PyStr.find. induction s as [|a s IH].
  - left. simpl. tauto.
  - destruct (Ascii.eqb a c) eqn:E.
    + apply Ascii.eqb_eq in E. subst a. right.
      exists EmptyString, s. simpl. rewrite Ascii.eqb_refl. tauto.
    + assert (a <> c) as Hne by now apply Ascii.eqb_neq.
      destruct IH as [[Hf Ho]|(p & q & -> & Hp & Hf)].
      * left. split.
        -- simpl. rewrite E. apply find_from_absent. assumption.
        -- simpl. tauto.
      * right. exists (String a p), q. repeat split.
        -- simpl. tauto.
        -- change (String a p ++ String c q) with (String a (p ++ String c q)).
           cbn [PyStr.find_from]. rewrite E.
           rewrite find_from_app by assumption.
           unfold PyStr.len. cbn [String.length]. lia.
Qed.

Lemma len_nonneg (s : string) : 0 <= PyStr.len s.
Proof. unfold PyStr.len. lia. Qed.

(** The text [cut_comment] keeps holds no comment sign. *)
Lemma cut_comment_no_hash (raw : string) :
  ~ PyStr.occurs "#" (cut_comment raw).
Proof.
  unfold cut_comment.
  destruct (find_cases "#" raw) as [[-> Ho]|(p & q & -> & Hp & Hf)].
  - simpl. intros H. now apply occurs_strip in H.
  - rewrite Hf. pose proof (len_nonneg p).
    destruct (PyStr.len p =? -1) eqn:E; [apply Z.eqb_eq in E; lia|].
    now rewrite slice_to_prefix.
Qed.

Lemma split_pieces (c d : ascii) (s w : string) :
  In w (PyStr.split c s) ->
  ~ PyStr.occurs c w /\ (PyStr.occurs d w -> PyStr.occurs d s).
Proof.
  revert w. induction s as [|a s IH]; intros w; simpl.
  - intros [<-|[]]. simpl. tauto.
  - destruct (Ascii.eqb a c) eqn:E.
    + intros [<-|H]; [simpl; tauto|].
      destruct (IH w H). tauto.
    + apply Ascii.eqb_neq in E.
      destruct (PyStr.split c s) as [|w0 ws] eqn:Es.
      * intros [<-|[]]. simpl. intuition congruence.
      * intros [<-|H].
        -- destruct (IH w0 (or_introl eq_refl)). simpl. intuition congruence.
        -- destruct (IH w (or_intror H)). tauto.
Qed.

Lemma all_space_strip (s : string) :
  all_space s = true -> PyStr.strip s = EmptyString.
Proof.
  unfold PyStr.strip. induction s as [|a s IH]; simpl; [reflexivity|].
  intros H. apply andb_true_iff in H. destruct H as [-> H]. auto.
Qed.

(** ** Comments and blank lines *)

Lemma split_absent (c : ascii) (s : string) :
  ~ PyStr.occurs c s -> PyStr.split c s = [s].
Proof.
  induction s as [|a s IH]; simpl; intros H; [reflexivity|].
  destruct (Ascii.eqb a c) eqn:E.
  - apply Ascii.eqb_eq in E. tauto.
  - rewrite IH by tauto. reflexivity.
Qed.

Lemma all_space_absent (c : ascii) (ws : string) :
  all_space ws = true -> PyStr.isspace c = false -> ~ PyStr.occurs c ws.
Proof.
  intros Hws Hc H. apply (all_space_occurs _ _ Hws) in H. congruence.
Qed.

(** X1: in both parsers the text of a comment has no effect: two lines
    that agree up to their first comment sign are handled alike. *)
Theorem comment_text_is_ignored :
  forall (st : parser) (tbl : Dict.t string) (body c1 c2 : string),
    ~ PyStr.occurs "#" body ->
    parse_line st (body ++ "#" ++ c1) = parse_line st (body ++ "#" ++ c2)
    /\ read_exports_line tbl (body ++ "#" ++ c1)
       = read_exports_line tbl (body ++ "#" ++ c2).
Proof.
  intros st tbl body c1 c2 H. unfold parse_line, read_exports_line.
  now rewrite !cut_comment_at_hash by assumption.
Qed.

Lemma comment_text_is_ignored_witness :
  parse_line parser_init ("name = http://x/a.txt " ++ "#" ++ " one")
  = parse_line parser_init ("name = http://x/a.txt " ++ "#" ++ "# two \ x")
  /\ read_exports_line [] ("name = http://x/a.txt " ++ "#" ++ " one")
     = read_exports_line [] ("name = http://x/a.txt " ++ "#" ++ "# two \ x").
Proof.
  apply (comment_text_is_ignored parser_init [] "name = http://x/a.txt "
           " one" "# two \ x").
  vm_compute. intuition discriminate.
Defined.

Lemma cut_comment_blank (raw : string) :
  all_space raw = true \/ (exists comment, raw = "#" ++ comment) ->
  cut_comment raw = EmptyString.
Proof.
  intros [H|(comment & ->)].
  - unfold cut_comment, PyStr.find.
    rewrite find_from_absent by now apply (all_space_absent _ _ H).
    simpl. now apply all_space_strip.
  - apply (cut_comment_at_hash EmptyString comment). simpl. tauto.
Qed.

(** X2: a line of whitespace only, and a line that starts with the comment
    sign, change nothing in either parser. *)
Theorem blank_line_changes_nothing :
  forall (st : parser) (tbl : Dict.t string) (raw : string),
    all_space raw = true \/ (exists comment, raw = "#" ++ comment) ->
    parse_line st raw = st /\ read_exports_line tbl raw = tbl.
Proof.
  intros st tbl raw H. apply cut_comment_blank in H.
  unfold parse_line, read_exports_line. now rewrite H.
Qed.

Lemma blank_line_changes_nothing_witness :
  parse_line (parse_line parser_init "[Library : Sound]") ("  " ++ LF)
  = parse_line parser_init "[Library : Sound]"
  /\ read_exports_line [("name", "Foo")] ("  " ++ LF) = [("name", "Foo")].
Proof.
  apply (blank_line_changes_nothing
           (parse_line parser_init "[Library : Sound]") [("name", "Foo")]
           ("  " ++ LF)).
  left. reflexivity.
Defined.

Lemma last_space_not_bracket (ws : string) :
  all_space ws = true -> is_char (PyStr.last ws) "]" = false.
Proof.
  intros Hws. destruct (PyStr.last ws) as [c|] eqn:E; [|reflexivity].
  apply last_occurs, (all_space_occurs _ _ Hws) in E.
  unfold is_char. destruct (Ascii.eqb c "]") eqn:Ec; [|reflexivity].
  apply Ascii.eqb_eq in Ec. subst c. discriminate E.
Qed.

(** X3: a comment that follows leading whitespace is not a blank line for
    the configuration parser, which keeps the whitespace and reports the
    line: with the [Ignoring] message outside every category, as malformed
    inside one.  The type, the category and the entries stay as they were.
    The descriptor parser skips the same line. *)
Theorem indented_comment_is_reported :
  forall (st : parser) (tbl : Dict.t string) (ws comment : string),
    ws <> EmptyString ->
    all_space ws = true ->
    read_exports_line tbl (ws ++ "#" ++ comment) = tbl
    /\ parse_line st (ws ++ "#" ++ comment)
       = match software_type st, category st with
         | Some ty, Some cat =>
             mkParser (Some ty) (Some cat) (urls_by_category st)
               (printed st ++ [Print msg_malformed; PrintList [ws]])%list
         | _, _ =>
             mkParser (software_type st) (category st) (urls_by_category st)
               (printed st ++ [Print msg_ignoring])%list
         end.
Proof.
  intros st tbl ws comment Hne Hws.
  assert (cut_comment (ws ++ "#" ++ comment) = ws) as Hcut.
  { apply cut_comment_at_hash. now apply (all_space_absent _ _ Hws). }
  split.
  - unfold read_exports_line. rewrite Hcut.
    destruct ws as [|a ws]; [congruence|].
    change (PyStr.len (String a ws) =? 0) with false. cbv iota.
    unfold PyStr.find.
    rewrite find_from_absent by now apply (all_space_absent _ _ Hws).
    reflexivity.
  - rewrite parse_line_contribution; rewrite Hcut;
      [|assumption|now apply last_space_not_bracket].
    rewrite split_absent by now apply (all_space_absent _ _ Hws).
    reflexivity.
Qed.

Lemma indented_comment_is_reported_witness :
  read_exports_line [("name", "Foo")] ("  " ++ "#" ++ " note")
  = [("name", "Foo")]
  /\ parse_line (parse_line parser_init "[Library : Sound]")
       ("  " ++ "#" ++ " note")
     = mkParser (Some "library") (Some "Sound") []
         [Print msg_malformed; PrintList ["  "]].
Proof.
  apply (indented_comment_is_reported
           (parse_line parser_init "[Library : Sound]") [("name", "Foo")]
           "  " " note").
  - discriminate.
  - reflexivity.
Defined.

(** ** Headers and the entries under them *)

Lemma lstrip_all_space (ws s : string) :
  all_space ws = true -> PyStr.lstrip (ws ++ s) = PyStr.lstrip s.
Proof.
  induction ws as [|a ws IH]; simpl; [reflexivity|].
  intros H. apply andb_true_iff in H. destruct H as [-> H]. auto.
Qed.

Lemma rstrip_all_space (ws : string) :
  all_space ws = true -> PyStr.rstrip ws = EmptyString.
Proof.
  induction ws as [|a ws IH]; simpl; [reflexivity|].
  intros H. apply andb_true_iff in H. destruct H as [-> H].
  now rewrite IH.
Qed.

Lemma rstrip_app_space (s ws : string) :
  all_space ws = true -> PyStr.rstrip (s ++ ws) = PyStr.rstrip s.
Proof.
  intros H. induction s as [|a s IH]; simpl.
  - now apply rstrip_all_space.
  - now rewrite IH.
Qed.

Lemma rstrip_keeps (s : string) (c : ascii) :
  PyStr.isspace c = false ->
  PyStr.rstrip (s ++ String c EmptyString) = s ++ String c EmptyString.
Proof.
  intros Hc. induction s as [|a s IH]; simpl.
  - now rewrite Hc.
  - rewrite IH. destruct (s ++ String c EmptyString) eqn:E; [|reflexivity].
    destruct s; discriminate.
Qed.

Lemma split_at_first (c : ascii) (a b : string) :
  ~ PyStr.occurs c a ->
  PyStr.split c (a ++ String c b) = a :: PyStr.split c b.
Proof.
  induction a as [|x a IH]; simpl; intros H.
  - now rewrite Ascii.eqb_refl.
  - destruct (Ascii.eqb x c) eqn:E.
    + apply Ascii.eqb_eq in E. tauto.
    + rewrite IH by tauto. reflexivity.
Qed.

Lemma slice_inner (a b : ascii) (m : string) :
  PyStr.slice (String a (m ++ String b EmptyString)) 1 (-1) = m.
Proof.
  unfold PyStr.slice, PyStr.len. cbn [String.length].
  rewrite str_length_app. cbn [String.length].
  set (n := String.length m).
  assert (PyStr.bound (Z.of_nat (S (n + 1))) 1 = 1%nat) as ->.
  { unfold PyStr.bound. change (1 <? 0) with false. cbv iota. lia. }
  assert (PyStr.bound (Z.of_nat (S (n + 1))) (-1) = S n) as ->.
  { unfold PyStr.bound. change (-1 <? 0) with true. cbv iota. lia. }
  cbn [PyStr.drop]. replace (S n - 1)%nat with n by lia.
  apply take_app_length.
Qed.

(** The text of a header between its brackets. *)
Lemma header_text (lead ty cat trail : string) :
  all_space lead = true -> all_space trail = true ->
  ~ PyStr.occurs "#" ty -> ~ PyStr.occurs "#" cat ->
  cut_comment (lead ++ "[" ++ ty ++ ":" ++ cat ++ "]" ++ trail)
  = String "[" ((ty ++ ":" ++ cat) ++ "]").
Proof.
  intros Hlead Htrail Hty Hcat. unfold cut_comment, PyStr.find.
  rewrite find_from_absent.
  - simpl (-1 =? -1). cbv iota. unfold PyStr.strip.
    rewrite lstrip_all_space by assumption.
    change ("[" ++ ty ++ ":" ++ cat ++ "]" ++ trail)
      with (String "[" (ty ++ ":" ++ cat ++ "]" ++ trail)).
    cbn [PyStr.lstrip]. change (PyStr.isspace "[") with false. cbv iota.
    replace (String "[" (ty ++ ":" ++ cat ++ "]" ++ trail))
      with ((String "[" (ty ++ ":" ++ cat) ++ "]") ++ trail)
      by (simpl; now rewrite !app_assoc_str).
    rewrite rstrip_app_space by assumption.
    rewrite rstrip_keeps by reflexivity. reflexivity.
  - intros H. repeat (apply occurs_app in H; destruct H as [H|H]);
      try (now apply (all_space_absent "#" _ Hlead));
      try (now apply (all_space_absent "#" _ Htrail));
      try tauto;
      simpl in H; intuition discriminate.
Qed.

(** X4: a line [[ty:cat]], with whitespace around it at most and neither
    colon nor comment sign inside [ty] and [cat], opens the category
    [cat.strip()] with the type [ty] stripped of all whitespace and put in
    lower case; the entries and the log stay as they were. *)
Theorem header_opens_category :
  forall (st : parser) (lead ty cat trail : string),
    all_space lead = true -> all_space trail = true ->
    ~ PyStr.occurs "#" ty -> ~ PyStr.occurs "#" cat ->
    ~ PyStr.occurs ":" ty -> ~ PyStr.occurs ":" cat ->
    parse_line st (lead ++ "[" ++ ty ++ ":" ++ cat ++ "]" ++ trail)
    = mkParser
        (Some (PyStr.lower (PyStr.join "" (PyStr.split_ws (PyStr.strip ty)))))
        (Some (PyStr.strip cat))
        (urls_by_category st) (printed st).
Proof.
  intros st lead ty cat trail Hlead Htrail Hty Hcat Hty' Hcat'.
  unfold parse_line. rewrite header_text by assumption.
  change (PyStr.len (String "[" ((ty ++ ":" ++ cat) ++ "]")) =? 0)
    with false.
  cbv iota. rewrite slice_inner.
  change (String "[" ((ty ++ ":" ++ cat) ++ "]"))
    with (String "[" (ty ++ ":" ++ cat) ++ String "]"%char EmptyString).
  rewrite last_app_char. cbn [append PyStr.first is_char].
  rewrite !Ascii.eqb_refl. cbn [andb].
  change (ty ++ ":" ++ cat) with (ty ++ String ":"%char cat).
  rewrite split_at_first, split_absent by assumption. reflexivity.
Qed.

Lemma header_opens_category_witness :
  parse_line parser_init (" " ++ "[" ++ "Lib Rary " ++ ":" ++ " Sound "
                          ++ "]" ++ LF)
  = mkParser (Some "library") (Some "Sound") [] [].
Proof.
  apply (header_opens_category parser_init " " "Lib Rary " " Sound " LF);
    try reflexivity; vm_compute; intuition discriminate.
Defined.

Lemma append_entry_same (cat : string) (e : entry) (d : Dict.t (list entry)) :
  Dict.get cat (append_entry cat e d) = Some (entries_of cat d ++ [e])%list.
Proof.
  unfold append_entry, entries_of, Dict.mem.
  destruct (Dict.get cat d) as [l|] eqn:E.
  - rewrite E. apply get_set_same.
  - rewrite get_set_same. apply get_set_same.
Qed.

Lemma append_entry_other (k cat : string) (e : entry)
  (d : Dict.t (list entry)) :
  k <> cat -> Dict.get k (append_entry cat e d) = Dict.get k d.
Proof.
  intros Hne. unfold append_entry, Dict.mem.
  destruct (Dict.get cat d) as [l|] eqn:E.
  - rewrite E. now apply get_set_other.
  - rewrite get_set_same. now rewrite !get_set_other.
Qed.

Lemma parse_line_entry (st : parser) (ty cat raw : string) (e : entry) :
  software_type st = Some ty -> category st = Some cat ->
  entry_of_line ty raw = Some e ->
  parse_line st raw
  = mkParser (Some ty) (Some cat) (append_entry cat e (urls_by_category st))
      (printed st).
Proof.
  intros Hty Hcat. unfold entry_of_line, blank, bracketed, parse_line.
  rewrite Hty, Hcat.
  destruct (PyStr.len (cut_comment raw) =? 0); [discriminate|].
  destruct (is_char _ _ && is_char _ _); [discriminate|].
  destruct (PyStr.split "\" _) as [|c0 [|c1 [|c2 rest]]]; try discriminate.
  now intros [= <-].
Qed.

Lemma parse_lines_entries (raws : list string) (entries : list entry)
  (st : parser) (ty cat : string) :
  software_type st = Some ty -> category st = Some cat ->
  map (entry_of_line ty) raws = map Some entries ->
  parse_lines st raws
  = mkParser (Some ty) (Some cat)
      (fold_left (fun d e => append_entry cat e d) entries
         (urls_by_category st))
      (printed st).
Proof.
  revert entries st.
  induction raws as [|raw raws IH]; intros [|e entries] st Hty Hcat Hmap;
    try discriminate.
  - destruct st. simpl in *. now subst.
  - simpl in Hmap. injection Hmap as He Hmap.
    unfold parse_lines in *. cbn [fold_left].
    rewrite (parse_line_entry st ty cat raw e Hty Hcat He).
    now rewrite (IH entries
                   (mkParser (Some ty) (Some cat)
                      (append_entry cat e (urls_by_category st)) (printed st))
                   eq_refl eq_refl Hmap).
Qed.

Lemma fold_append_same (cat : string) (entries : list entry)
  (d : Dict.t (list entry)) :
  entries <> [] ->
  Dict.get cat (fold_left (fun d e => append_entry cat e d) entries d)
  = Some (entries_of cat d ++ entries)%list.
Proof.
  revert d. induction entries as [|e entries IH]; intros d Hne; [congruence|].
  cbn [fold_left]. destruct entries as [|e' entries].
  - apply append_entry_same.
  - rewrite IH by discriminate. unfold entries_of at 1.
    rewrite append_entry_same. now rewrite <- app_assoc.
Qed.

Lemma fold_append_other (k cat : string) (entries : list entry)
  (d : Dict.t (list entry)) :
  k <> cat ->
  Dict.get k (fold_left (fun d e => append_entry cat e d) entries d)
  = Dict.get k d.
Proof.
  intros Hne. revert d. induction entries as [|e entries IH]; intros d.
  - reflexivity.
  - cbn [fold_left]. rewrite IH. now apply append_entry_other.
Qed.

(** X5: inside a category, contribution lines (non-empty text, not
    bracketed, two parts around one backslash) are all attributed to that
    category, after the entries it already holds and in the order of the
    lines; nothing is printed, the other categories are untouched and the
    category stays open. *)
Theorem entries_go_to_open_category :
  forall (st : parser) (ty cat : string) (raws : list string)
         (entries : list entry),
    software_type st = Some ty ->
    category st = Some cat ->
    map (entry_of_line ty) raws = map Some entries ->
    entries <> [] ->
    let st' := parse_lines st raws in
    software_type st' = Some ty
    /\ category st' = Some cat
    /\ printed st' = printed st
    /\ Dict.get cat (urls_by_category st')
       = Some (entries_of cat (urls_by_category st) ++ entries)%list
    /\ forall k, k <> cat ->
         Dict.get k (urls_by_category st') = Dict.get k (urls_by_category st).
Proof.
  intros st ty cat raws entries Hty Hcat Hmap Hne st'. subst st'.
  rewrite (parse_lines_entries raws entries st ty cat Hty Hcat Hmap).
  cbn [software_type category printed urls_by_category].
  repeat split.
  - now apply fold_append_same.
  - intros k Hk. now apply fold_append_other.
Qed.

Lemma entries_go_to_open_category_witness :
  let st := parse_lines parser_init
              ["[Library : Sound]"; "043 \ http://x/a.txt";
               "[Library : Vision]"; "[Tool : Sound]"] in
  let st' := parse_lines st
               ["044 \ http://x/b.txt # second"; " 045\http://x/c.txt "] in
  software_type st' = Some "tool"
  /\ category st' = Some "Sound"
  /\ printed st' = printed st
  /\ Dict.get "Sound" (urls_by_category st')
     = Some (entries_of "Sound" (urls_by_category st)
             ++ [("tool", "044", "http://x/b.txt");
                 ("tool", "045", "http://x/c.txt")])%list
  /\ forall k, k <> "Sound" ->
       Dict.get k (urls_by_category st') = Dict.get k (urls_by_category st).
Proof.
  apply (entries_go_to_open_category
           (parse_lines parser_init
              ["[Library : Sound]"; "043 \ http://x/a.txt";
               "[Library : Vision]"; "[Tool : Sound]"])
           "tool" "Sound"
           ["044 \ http://x/b.txt # second"; " 045\http://x/c.txt "]
           [("tool", "044", "http://x/b.txt");
            ("tool", "045", "http://x/c.txt")]);
    try reflexivity.
  discriminate.
Defined.

(** ** What the configuration parser always returns *)

Lemma lower_char_plain (c : ascii) :
  PyStr.isspace c = false -> space_or_upper (PyStr.lower_char c) = false.
Proof.
  destruct c as [[] [] [] [] [] [] [] []]; vm_compute; congruence.
Qed.

Lemma space_or_upper_false (c : ascii) :
  space_or_upper c = false ->
  PyStr.isspace c = false /\ ~ (65 <= nat_of_ascii c <= 90)%nat.
Proof.
  unfold space_or_upper. intros H. apply orb_false_iff in H.
  destruct H as [Hs Hu]. split; [assumption|].
  intros [H1 H2]. apply Nat.leb_le in H1, H2. rewrite H1, H2 in Hu.
  discriminate.
Qed.

Lemma occurs_lower (c : ascii) (s : string) :
  PyStr.occurs c (PyStr.lower s) ->
  exists a, PyStr.occurs a s /\ c = PyStr.lower_char a.
Proof.
  induction s as [|x s IH]; simpl; [tauto|].
  intros [<-|H]; [eauto|]. destruct (IH H) as (a & Ha & ->). eauto.
Qed.

Lemma occurs_app_char (c a : ascii) (s : string) :
  PyStr.occurs c (s ++ String a EmptyString) -> PyStr.occurs c s \/ c = a.
Proof.
  intros H. apply occurs_app in H. simpl in H. intuition.
Qed.

Lemma split_ws_acc_pieces (s cur w : string) (c : ascii) :
  In w (PyStr.split_ws_acc s cur) -> PyStr.occurs c w ->
  PyStr.occurs c cur \/ (PyStr.occurs c s /\ PyStr.isspace c = false).
Proof.
  revert cur. induction s as [|a s IH]; intros cur; simpl.
  - destruct cur; [intros []|]. intros [<-|[]]. tauto.
  - destruct (PyStr.isspace a) eqn:Ea.
    + destruct cur as [|x cur].
      * intros Hin Hc. destruct (IH _ Hin Hc) as [[]|[? ?]]. tauto.
      * intros [<-|Hin] Hc; [tauto|].
        destruct (IH _ Hin Hc) as [[]|[? ?]]. tauto.
    + intros Hin Hc. destruct (IH _ Hin Hc) as [H|[? ?]]; [|tauto].
      apply occurs_app_char in H. destruct H as [H | ->]; tauto.
Qed.

Lemma occurs_join_empty (c : ascii) (l : list string) :
  PyStr.occurs c (PyStr.join "" l) ->
  exists w, In w l /\ PyStr.occurs c w.
Proof.
  unfold PyStr.join. induction l as [|w l IH]; simpl; [tauto|].
  destruct l as [|w' l].
  - intros H. exists w. tauto.
  - intros H. apply occurs_app in H. destruct H as [H|H].
    + exists w. tauto.
    + simpl append in H. destruct (IH H) as (x & Hx & Hc).
      exists x. split; [now right|assumption].
Qed.

(** The type a header sets holds neither whitespace nor an upper-case
    letter A to Z. *)
Lemma header_type_plain (s : string) :
  plain_lower (PyStr.lower (PyStr.join "" (PyStr.split_ws s))).
Proof.
  intros c Hc. apply occurs_lower in Hc. destruct Hc as (a & Ha & ->).
  apply occurs_join_empty in Ha. destruct Ha as (w & Hw & Ha).
  destruct (split_ws_acc_pieces _ _ _ _ Hw Ha) as [[]|[_ Hsp]].
  now apply space_or_upper_false, lower_char_plain.
Qed.

Lemma set_set {V : Type} (k : string) (v w : V) (d : Dict.t V) :
  Dict.set k v (Dict.set k w d) = Dict.set k v d.
Proof.
  induction d as [|[a x] d IH]; simpl.
  - now rewrite String.eqb_refl.
  - destruct (String.eqb a k) eqn:E; simpl; rewrite E; [reflexivity|].
    now rewrite IH.
Qed.

Lemma append_entry_set (cat : string) (e : entry) (d : Dict.t (list entry)) :
  append_entry cat e d = Dict.set cat (entries_of cat d ++ [e])%list d.
Proof.
  unfold append_entry, entries_of, Dict.mem.
  destruct (Dict.get cat d) as [l|] eqn:E.
  - now rewrite E.
  - rewrite get_set_same. apply set_set.
Qed.

Lemma entries_of_clean (cat : string) (d : Dict.t (list entry)) :
  Forall (fun kv => snd kv <> [] /\ Forall entry_clean (snd kv)) d ->
  Forall entry_clean (entries_of cat d).
Proof.
  intros H. unfold entries_of.
  destruct (Dict.get cat d) as [l|] eqn:E; [|constructor].
  exact (proj2 (get_forall (fun _ l => l <> [] /\ Forall entry_clean l)
                  cat l d H E)).
Qed.

Ltac parser_ok_parts :=
  unfold parser_ok; cbn [urls_by_category software_type];
  split; [|split]; try assumption; try exact I.

Lemma parse_line_ok (st : parser) (raw : string) :
  parser_ok st -> parser_ok (parse_line st raw).
Proof.
  intros Hok. pose proof Hok as (Hnd & Hall & Hty). unfold parse_line.
  pose proof (cut_comment_no_hash raw) as Hline.
  set (line := cut_comment raw) in *.
  destruct (PyStr.len line =? 0); [assumption|].
  destruct (is_char (PyStr.first line) "[" && is_char (PyStr.last line) "]").
  - destruct (PyStr.split ":" _) as [|c0 [|c1 [|c2 rest]]];
      parser_ok_parts.
    apply header_type_plain.
  - destruct (software_type st) as [ty|] eqn:Ety; [|now parser_ok_parts].
    destruct (category st) as [cat|]; [|now parser_ok_parts].
    destruct (PyStr.split "\" line) as [|c0 [|c1 [|c2 rest]]] eqn:Es;
      try (now parser_ok_parts).
    assert (In c0 (PyStr.split "\" line) /\ In c1 (PyStr.split "\" line))
      as [H0 H1] by (rewrite Es; simpl; auto).
    destruct (split_pieces "\" "#" line c0 H0) as [Hb0 Hh0].
    destruct (split_pieces "\" "#" line c1 H1) as [Hb1 Hh1].
    rewrite append_entry_set. parser_ok_parts.
    + now apply nodup_keys_set.
    + apply forall_set; [assumption|]. simpl. split.
      * intros H. now apply app_eq_nil in H as [_ H].
      * apply Forall_app. split; [now apply entries_of_clean|].
        constructor; [|constructor]. unfold entry_clean.
        split; [assumption|].
        repeat split; intros H; apply occurs_strip in H; tauto.
Qed.

Lemma parse_lines_ok (lines : list string) (st : parser) :
  parser_ok st -> parser_ok (parse_lines st lines).
Proof.
  unfold parse_lines. revert st.
  induction lines as [|raw lines IH]; intros st H; [assumption|].
  simpl. now apply IH, parse_line_ok.
Qed.

Lemma parser_init_ok : parser_ok parser_init.
Proof. repeat split; constructor. Qed.

(** X6: whatever the configuration holds, the categories returned are
    distinct keys and none of them has an empty list of entries: a header
    with no contribution under it leaves no trace. *)
Theorem categories_are_distinct_and_populated :
  forall (lines : list string),
    NoDup (Dict.keys (get_lib_locations lines))
    /\ forall cat l, In (cat, l) (get_lib_locations lines) -> l <> [].
Proof.
  intros lines.
  destruct (parse_lines_ok lines parser_init parser_init_ok)
    as (Hnd & Hall & _).
  split; [assumption|].
  intros cat l Hin. rewrite Forall_forall in Hall.
  exact (proj1 (Hall _ Hin)).
Qed.

(** X7: whatever the configuration holds, the type of every entry has no
    whitespace and no upper-case letter A to Z, and neither its id nor its
    URL holds a backslash or a comment sign. *)
Theorem entries_are_clean :
  forall (lines : list string) (cat : string) (l : list entry)
         (ty name url : string),
    In (cat, l) (get_lib_locations lines) ->
    In (ty, name, url) l ->
    plain_lower ty
    /\ ~ PyStr.occurs "\" name /\ ~ PyStr.occurs "#" name
    /\ ~ PyStr.occurs "\" url /\ ~ PyStr.occurs "#" url.
Proof.
  intros lines cat l ty name url Hin He.
  destruct (parse_lines_ok lines parser_init parser_init_ok)
    as (_ & Hall & _).
  rewrite Forall_forall in Hall. destruct (Hall _ Hin) as [_ Hl].
  rewrite Forall_forall in Hl. exact (Hl _ He).
Qed.

Lemma entries_are_clean_witness :
  plain_lower "library"
  /\ ~ PyStr.occurs "\" "043" /\ ~ PyStr.occurs "#" "043"
  /\ ~ PyStr.occurs "\" "http://x/a.txt"
  /\ ~ PyStr.occurs "#" "http://x/a.txt".
Proof.
  apply (entries_are_clean
           [" [ Lib Rary : Sound ]" ++ LF; "043 \ http://x/a.txt # one" ++ LF]
           "Sound" [("library", "043", "http://x/a.txt")]).
  - left. reflexivity.
  - left. reflexivity.
Defined.

Lemma categories_are_distinct_and_populated_witness :
  NoDup (Dict.keys (get_lib_locations sample_conf))
  /\ [("library", "043", "http://x/a.txt")] <> [].
Proof.
  destruct (categories_are_distinct_and_populated sample_conf) as [Hnd Hne].
  split; [exact Hnd|].
  apply (Hne "Sound"). left. reflexivity.
Defined.

(** ** missing_key *)

Lemma first_missing_cases (keys required : list string) :
  match first_missing keys required with
  | None => forall k, In k required -> In k keys
  | Some k =>
      exists before after,
        required = (before ++ k :: after)%list
        /\ ~ In k keys
        /\ forall k', In k' before -> In k' keys
  end.
Proof.
  induction required as [|r required IH]; simpl; [tauto|].
  destruct (count_key r keys =? 0)%nat eqn:E.
  - apply Nat.eqb_eq, count_key_zero in E.
    exists [], required. simpl. tauto.
  - apply Nat.eqb_neq in E. rewrite count_key_zero in E.
    assert (In r keys) as Hr by (destruct (in_dec string_dec r keys); tauto).
    destruct (first_missing keys required) as [k|].
    + destruct IH as (before & after & -> & Hk & Hbefore).
      exists (r :: before), after. simpl. repeat split; [assumption|].
      intros k' [<-|H]; auto.
    + intros k [<-|H]; auto.
Qed.

(** X8: [missing_key] answers [None] exactly when the six required keys
    are all present; otherwise it answers the first of them, in the order
    name, authors, url, categories, sentence, version, that is absent. *)
Theorem missing_key_is_first_absent :
  forall (exports : Dict.t string),
    match missing_key exports with
    | None => forall k, In k required_keys -> Dict.get k exports <> None
    | Some k =>
        exists before after,
          required_keys = (before ++ k :: after)%list
          /\ Dict.get k exports = None
          /\ forall k', In k' before -> Dict.get k' exports <> None
    end.
Proof.
  intros exports. unfold missing_key.
  pose proof (first_missing_cases (Dict.keys exports) required_keys) as H.
  destruct (first_missing (Dict.keys exports) required_keys) as [k|].
  - destruct H as (before & after & Heq & Hk & Hbefore).
    exists before, after. repeat split; [assumption| |].
    + rewrite get_in_keys in Hk.
      destruct (Dict.get k exports); [exfalso; apply Hk; discriminate|].
      reflexivity.
    + intros k' Hk'. now apply get_in_keys, Hbefore.
  - intros k Hk. now apply get_in_keys, H.
Qed.

(** ** The formatted record *)

Lemma keys_lifted {V W : Type} (f : V -> W) (d : Dict.t V) :
  Dict.keys (map (fun kv => (fst kv, f (snd kv))) d) = Dict.keys d.
Proof.
  unfold Dict.keys. rewrite map_map. reflexivity.
Qed.

Lemma get_pop_none {V : Type} (k j : string) (d : Dict.t V) :
  Dict.get k d = None -> Dict.get k (Dict.pop j d) = None.
Proof.
  induction d as [|[a v] d IH]; simpl; [reflexivity|].
  destruct (String.eqb a k) eqn:E; [discriminate|]. intros H.
  destruct (String.eqb a j); simpl; [assumption|]. rewrite E. auto.
Qed.

Lemma get_pop_same {V : Type} (k : string) (d : Dict.t V) :
  NoDup (Dict.keys d) -> Dict.get k (Dict.pop k d) = None.
Proof.
  induction d as [|[a v] d IH]; simpl; intros Hnd; [reflexivity|].
  inversion Hnd as [|? ? Hnotin Hnd']. subst.
  destruct (String.eqb a k) eqn:E; simpl.
  - apply String.eqb_eq in E. subst a.
    destruct (Dict.get k d) eqn:Eg; [|reflexivity].
    exfalso. apply Hnotin, get_in_keys. congruence.
  - rewrite E. auto.
Qed.

Lemma keys_pop_in {V : Type} (k x : string) (d : Dict.t V) :
  In x (Dict.keys (Dict.pop k d)) -> In x (Dict.keys d).
Proof.
  induction d as [|[a v] d IH]; simpl; [tauto|].
  destruct (String.eqb a k); simpl; tauto.
Qed.

Lemma nodup_keys_pop {V : Type} (k : string) (d : Dict.t V) :
  NoDup (Dict.keys d) -> NoDup (Dict.keys (Dict.pop k d)).
Proof.
  induction d as [|[a v] d IH]; simpl; intros Hnd; [constructor|].
  inversion Hnd as [|? ? Hnotin Hnd']. subst.
  destruct (String.eqb a k); simpl; [assumption|].
  constructor; [|auto]. intros H. now apply Hnotin, (keys_pop_in k).
Qed.

Lemma move_key_nodup (key : string) (p e : Dict.t json) :
  NoDup (Dict.keys e) -> NoDup (Dict.keys (snd (move_key (p, e) key))).
Proof.
  intros H. unfold move_key. destruct (Dict.get key e); simpl;
    [now apply nodup_keys_pop|assumption].
Qed.

Lemma move_keys_nodup (keys : list string) (p e : Dict.t json) :
  NoDup (Dict.keys e) ->
  NoDup (Dict.keys (snd (fold_left move_key keys (p, e)))).
Proof.
  revert p e. induction keys as [|key keys IH]; intros p e H; [assumption|].
  cbn [fold_left]. pose proof (move_key_nodup key p e H) as H'.
  destruct (move_key (p, e) key) as [p' e']. now apply IH.
Qed.

Lemma move_keys_snd_none (keys : list string) (k : string)
  (p e : Dict.t json) :
  Dict.get k e = None ->
  Dict.get k (snd (fold_left move_key keys (p, e))) = None.
Proof.
  revert p e. induction keys as [|key keys IH]; intros p e H; [assumption|].
  cbn [fold_left].
  assert (Dict.get k (snd (move_key (p, e) key)) = None) as H'.
  { unfold move_key. destruct (Dict.get key e); simpl;
      [now apply get_pop_none|assumption]. }
  destruct (move_key (p, e) key) as [p' e']. now apply IH.
Qed.

Lemma move_keys_snd_moved (keys : list string) (k : string)
  (p e : Dict.t json) :
  NoDup (Dict.keys e) -> In k keys ->
  Dict.get k (snd (fold_left move_key keys (p, e))) = None.
Proof.
  revert p e. induction keys as [|key keys IH]; intros p e Hnd Hin.
  - destruct Hin.
  - cbn [fold_left]. pose proof (move_key_nodup key p e Hnd) as Hnd'.
    destruct (string_dec key k) as [->|Hne].
    + assert (Dict.get k (snd (move_key (p, e) k)) = None) as H.
      { unfold move_key. destruct (Dict.get k e) eqn:E; simpl;
          [now apply get_pop_same|assumption]. }
      destruct (move_key (p, e) k) as [p' e']. now apply move_keys_snd_none.
    + destruct Hin as [?|Hin]; [congruence|].
      destruct (move_key (p, e) key) as [p' e']. now apply IH.
Qed.

Lemma move_keys_fst_none (keys : list string) (k : string)
  (p e : Dict.t json) :
  Dict.get k e = None -> Dict.get k p = None ->
  Dict.get k (fst (fold_left move_key keys (p, e))) = None.
Proof.
  revert p e. induction keys as [|key keys IH]; intros p e He Hp;
    [assumption|].
  cbn [fold_left].
  assert (Dict.get k (snd (move_key (p, e) key)) = None
          /\ Dict.get k (fst (move_key (p, e) key)) = None) as [H1 H2].
  { unfold move_key. destruct (Dict.get key e) eqn:E; simpl; [|tauto].
    split; [now apply get_pop_none|].
    rewrite get_set_other; [assumption|]. intros ->. congruence. }
  destruct (move_key (p, e) key) as [p' e']. now apply IH.
Qed.

(** The record after the [authors] and [categories] steps, with what it
    holds. *)
Lemma format_exports_stages (record : Dict.t string) :
  exists staged : Dict.t json,
    (NoDup (Dict.keys record) -> NoDup (Dict.keys staged))
    /\ (forall k, k <> "authors" -> k <> "categories" ->
                  Dict.get k staged = option_map JStr (Dict.get k record))
    /\ Dict.get "authors" staged
       = option_map (fun a => JList [JStr a]) (Dict.get "authors" record)
    /\ format_exports record
       = fold_left (fun ex key => Dict.pop key ex) remove_keys
           (Dict.set "packages"
              (JList [JObj (fst (fold_left move_key package_keys
                                   ([("mode", JStr "java")], staged)))])
              (snd (fold_left move_key package_keys
                      ([("mode", JStr "java")], staged)))).
Proof.
  unfold format_exports.
  set (lifted := map (fun kv => (fst kv, JStr (snd kv))) record).
  set (authored := match Dict.get "authors" lifted with
                   | Some a => Dict.set "authors" (JList [a]) lifted
                   | None => lifted
                   end).
  set (staged := match Dict.get "categories" record with
                 | Some (String c r) =>
                     Dict.set "categories"
                       (JList (map JStr (PyStr.split "," (String c r))))
                       authored
                 | _ => Dict.set "categories" JNull authored
                 end).
  assert (Dict.get "authors" lifted
          = option_map JStr (Dict.get "authors" record)) as Hla
      by apply get_map.
  exists staged. repeat split.
  - intros Hnd.
    assert (NoDup (Dict.keys authored)) as Ha.
    { subst authored. destruct (Dict.get "authors" lifted);
        [apply nodup_keys_set|]; subst lifted; now rewrite keys_lifted. }
    subst staged. destruct (Dict.get "categories" record) as [[|]|];
      now apply nodup_keys_set.
  - intros k Ha Hc.
    assert (Dict.get k staged = Dict.get k authored) as ->.
    { subst staged. destruct (Dict.get "categories" record) as [[|]|];
        now rewrite get_set_other. }
    assert (Dict.get k authored = Dict.get k lifted) as ->.
    { subst authored. destruct (Dict.get "authors" lifted);
        now rewrite ?get_set_other. }
    apply get_map.
  - assert (Dict.get "authors" staged = Dict.get "authors" authored) as ->.
    { subst staged. destruct (Dict.get "categories" record) as [[|]|];
        now rewrite get_set_other. }
    subst authored. rewrite Hla.
    destruct (Dict.get "authors" record) as [a|] eqn:Ea; simpl.
    + apply get_set_same.
    + rewrite Hla. reflexivity.
  - destruct (fold_left move_key package_keys _) as [pkg ex]. reflexivity.
Qed.

(** X9: in the formatted record the author string is wrapped in a
    one-element list, [categories] is the list of the pieces between the
    commas of the string (untrimmed), or null when the string is empty or
    absent, and every key other than the nine the function names keeps its
    string value. *)
Theorem format_exports_top_level :
  forall (record : Dict.t string),
    (forall k,
        ~ In k ["authors"; "categories"; "packages"; "minRevision";
                "maxRevision"; "props"; "download"; "version";
                "prettyVersion"] ->
        Dict.get k (format_exports record)
        = option_map JStr (Dict.get k record))
    /\ Dict.get "authors" (format_exports record)
       = option_map (fun a => JList [JStr a]) (Dict.get "authors" record)
    /\ Dict.get "categories" (format_exports record)
       = Some match Dict.get "categories" record with
              | Some (String c r) =>
                  JList (map JStr (PyStr.split "," (String c r)))
              | _ => JNull
              end.
Proof.
  intros record. split; [|split].
  - intros k Hk. now apply format_exports_get.
  - destruct (format_exports_stages record) as (staged & _ & _ & Ha & ->).
    unfold remove_keys. cbn [fold_left].
    rewrite !get_pop_other by discriminate.
    rewrite get_set_other by discriminate.
    rewrite move_keys_snd; [assumption|].
    simpl. intros [H|[H|[H|[H|[]]]]]; discriminate.
  - apply format_exports_categories.
Qed.

Lemma format_exports_top_level_witness :
  Dict.get "sentence"
    (format_exports [("authors", "Jane"); ("sentence", "desc");
                     ("categories", "Sound, Tools")])
  = option_map JStr (Some "desc").
Proof.
  apply (proj1 (format_exports_top_level
                  [("authors", "Jane"); ("sentence", "desc");
                   ("categories", "Sound, Tools")]) "sentence").
  simpl. intuition discriminate.
Defined.

(** X10: for a record with distinct keys, the formatted record has none
    of minRevision, maxRevision, props, download, version and prettyVersion
    at its top level; its [packages] is a list of one object that holds
    [mode = "java"] and, of the first four keys, those the record had, with
    their values. *)
Theorem format_exports_package :
  forall (record : Dict.t string),
    NoDup (Dict.keys record) ->
    (forall k, In k (package_keys ++ remove_keys)%list ->
               Dict.get k (format_exports record) = None)
    /\ exists package,
        Dict.get "packages" (format_exports record)
        = Some (JList [JObj package])
        /\ Dict.get "mode" package = Some (JStr "java")
        /\ forall k, In k package_keys ->
             Dict.get k package = option_map JStr (Dict.get k record).
Proof.
  intros record Hnd.
  destruct (format_exports_stages record) as (staged & Hst & Hget & _ & ->).
  specialize (Hst Hnd).
  assert (NoDup (Dict.keys (snd (fold_left move_key package_keys
                                   ([("mode", JStr "java")], staged)))))
    as Hmoved by (apply move_keys_nodup; exact Hst).
  assert (forall k, In k package_keys ->
                    Dict.get k (snd (fold_left move_key package_keys
                                       ([("mode", JStr "java")], staged)))
                    = None) as Hgone.
  { intros k Hk. apply move_keys_snd_moved; assumption. }
  assert (forall k, In k package_keys ->
                    Dict.get k (fst (fold_left move_key package_keys
                                       ([("mode", JStr "java")], staged)))
                    = option_map JStr (Dict.get k record)) as Hpkg.
  { intros k Hk.
    assert (Dict.get k staged = option_map JStr (Dict.get k record)) as Hk'.
    { apply Hget; intros ->; simpl in Hk; intuition discriminate. }
    destruct (Dict.get k record) as [v|]; cbn [option_map] in *.
    - apply move_keys_fst; [|assumption..].
      unfold package_keys.
      repeat constructor; simpl; intuition discriminate.
    - apply move_keys_fst_none; [assumption|].
      simpl in Hk. destruct Hk as [<-|[<-|[<-|[<-|[]]]]]; reflexivity. }
  assert (Dict.get "mode" (fst (fold_left move_key package_keys
                                  ([("mode", JStr "java")], staged)))
          = Some (JStr "java")) as Hmode.
  { rewrite move_keys_fst_other; [reflexivity|].
    simpl. intros [H|[H|[H|[H|[]]]]]; discriminate. }
  remember (fold_left move_key package_keys ([("mode", JStr "java")], staged))
    as moved eqn:Em in *.
  clear Em.
  assert (NoDup (Dict.keys
                   (Dict.set "packages" (JList [JObj (fst moved)]) (snd moved))))
    as Hset by (apply nodup_keys_set; exact Hmoved).
  unfold remove_keys. cbn [fold_left]. split.
  - intros k Hk. apply in_app_or in Hk. destruct Hk as [Hk|Hk].
    + rewrite !get_pop_other, get_set_other;
        try (intros ->; simpl in Hk; intuition discriminate).
      apply Hgone. exact Hk.
    + simpl in Hk. destruct Hk as [<-|[<-|[]]].
      * rewrite get_pop_other by discriminate.
        apply get_pop_same. exact Hset.
      * apply get_pop_same, nodup_keys_pop. exact Hset.
  - exists (fst moved). split; [|split].
    + rewrite !get_pop_other by discriminate. apply get_set_same.
    + exact Hmode.
    + exact Hpkg.
Qed.

Lemma format_exports_package_witness :
  (forall k, In k (package_keys ++ remove_keys)%list ->
             Dict.get k
               (format_exports [("name", "Foo"); ("version", "1");
                                ("props", "http://x/a.txt")]) = None)
  /\ exists package,
      Dict.get "packages"
        (format_exports [("name", "Foo"); ("version", "1");
                         ("props", "http://x/a.txt")])
      = Some (JList [JObj package])
      /\ Dict.get "mode" package = Some (JStr "java")
      /\ forall k, In k package_keys ->
           Dict.get k package
           = option_map JStr
               (Dict.get k [("name", "Foo"); ("version", "1");
                            ("props", "http://x/a.txt")]).
Proof.
  apply (format_exports_package
           [("name", "Foo"); ("version", "1"); ("props", "http://x/a.txt")]).
  repeat constructor; simpl; intuition discriminate.
Defined.

(** ** Categories from the table to the file *)

Lemma split_app_sep (c : ascii) (a b : string) :
  PyStr.split c (a ++ String c b) = (PyStr.split c a ++ PyStr.split c b)%list.
Proof.
  induction a as [|x a IH]; simpl.
  - now rewrite Ascii.eqb_refl.
  - destruct (Ascii.eqb x c); rewrite IH; [reflexivity|].
    destruct (PyStr.split c a) as [|w ws] eqn:E; [|reflexivity].
    exfalso. destruct a as [|y a]; simpl in E; [discriminate|].
    destruct (Ascii.eqb y c); [discriminate|].
    destruct (PyStr.split c a); discriminate.
Qed.

Lemma split_joined (c0 : string) (cs : list string) :
  Forall (fun x => ~ PyStr.occurs "," x) cs ->
  PyStr.split "," (joined c0 cs) = (PyStr.split "," c0 ++ cs)%list.
Proof.
  intros H. revert c0. unfold joined.
  induction H as [|x cs Hx H IH]; intros c0; simpl.
  - now rewrite app_nil_r.
  - rewrite IH. change (c0 ++ "," ++ x) with (c0 ++ String ","%char x).
    rewrite split_app_sep, (split_absent _ _ Hx), <- app_assoc.
    reflexivity.
Qed.

Section CategoryFacts.

Variable urlopen : string -> result string.
Variable broken_ids : list string.
Variable skipped_ids : list string.
Variable minrev : arg.
Variable maxrev : arg.
Variable recreate_dir : string -> result unit.
Variable open_w : string -> result unit.

(** The one file of an id accepted at least once, and the string its
    record holds. *)
Lemma written_for_id (conf_lines : list string) (dirout i c : string)
  (cs : list string) :
  snd (batch urlopen broken_ids skipped_ids minrev maxrev
      recreate_dir open_w conf_lines dirout)
  = None ->
  accepted_cats urlopen broken_ids skipped_ids minrev maxrev i
    (jobs (get_lib_locations conf_lines)) = c :: cs ->
  exists record,
    List.filter (fun w => has_id i (snd w))
      (written (fst (batch urlopen broken_ids skipped_ids minrev maxrev
          recreate_dir open_w
                       conf_lines dirout)))
    = [(export_path dirout record, format_exports record)]
    /\ Dict.get "categories" record = Some (joined c cs).
Proof.
  intros Hrun Hacc.
  pose proof (fetch_loop_table_ok urlopen broken_ids skipped_ids minrev maxrev
                (jobs (get_lib_locations conf_lines)) [] table_ok_empty)
    as [Hnd Hall].
  destruct (batch_result urlopen broken_ids skipped_ids minrev maxrev
              recreate_dir open_w conf_lines dirout)
    as (_ & _ & _ & Hdone & _).
  cbv zeta in Hdone. destruct (Hdone Hrun) as [Hsnd Hw].
  pose proof (fetch_loop_categories urlopen broken_ids skipped_ids minrev
                maxrev i _ [] table_ok_empty Hsnd) as Hcat.
  rewrite Hacc in Hcat. unfold categories_of in Hcat. cbn [Dict.get] in Hcat.
  destruct (Dict.get i (contribs _)) as [record|] eqn:Hg; [|discriminate].
  exists record. rewrite Hw.
  rewrite (filter_written dirout i _ Hall).
  rewrite (filter_key_get i record _ Hnd Hg).
  split; [reflexivity|assumption].
Qed.

(** X11: when a run completes and the id [i] was accepted under the
    categories [c :: cs], none of which holds a comma, the one file written
    for [i] lists exactly these categories, in the order of acceptance
    (null when the only category is the empty string). *)
Theorem written_categories_are_the_accepted_ones :
  forall (conf_lines : list string) (dirout i c : string) (cs : list string),
    snd (batch urlopen broken_ids skipped_ids minrev maxrev
        recreate_dir open_w conf_lines dirout)
    = None ->
    accepted_cats urlopen broken_ids skipped_ids minrev maxrev i
      (jobs (get_lib_locations conf_lines)) = c :: cs ->
    Forall (fun x => ~ PyStr.occurs "," x) (c :: cs) ->
    exists path content,
      List.filter (fun w => has_id i (snd w))
        (written (fst (batch urlopen broken_ids skipped_ids minrev maxrev
            recreate_dir open_w
                         conf_lines dirout)))
      = [(path, content)]
      /\ Dict.get "categories" content
         = Some match joined c cs with
                | EmptyString => JNull
                | _ => JList (map JStr (c :: cs))
                end.
Proof.
  intros conf_lines dirout i c cs Hrun Hacc Hcomma.
  destruct (written_for_id conf_lines dirout i c cs Hrun Hacc)
    as (record & Hw & Hcat).
  exists (export_path dirout record), (format_exports record).
  split; [assumption|].
  rewrite format_exports_categories, Hcat.
  inversion Hcomma as [|? ? Hc Hcs]. subst.
  destruct (joined c cs) as [|a r] eqn:Ej; [reflexivity|].
  rewrite <- Ej, (split_joined c cs Hcs), (split_absent _ _ Hc).
  reflexivity.
Qed.

End CategoryFacts.

Lemma written_categories_are_the_accepted_ones_witness :
  exists path content,
    List.filter (fun w => has_id "043" (snd w))
      (written (fst (batch (sample_net "") [] [] (ArgInt 228) (ArgInt 0)
                       always_ok always_ok sample_conf "out")))
    = [(path, content)]
    /\ Dict.get "categories" content
       = Some (JList [JStr "Sound"; JStr "Vision"]).
Proof.
  apply (written_categories_are_the_accepted_ones (sample_net "") [] []
           (ArgInt 228) (ArgInt 0) always_ok always_ok
           sample_conf "out" "043" "Sound" ["Vision"]);
    try reflexivity.
  repeat constructor; simpl; intuition discriminate.
Defined.

(** ** The fields the driver sets *)

Section FieldFacts.

Variable broken_ids : list string.

(** X12: the record that reaches the checks has the id, the type and the
    category of its configuration entry and the descriptor URL as [props],
    whatever the descriptor says under these four keys. *)
Theorem contextual_fields_come_from_the_configuration :
  forall (cat contrib_id ty prop_url decoded : string),
    let record := candidate broken_ids cat contrib_id ty prop_url decoded in
    Dict.get "id" record = Some contrib_id
    /\ Dict.get "type" record = Some ty
    /\ Dict.get "props" record = Some prop_url
    /\ Dict.get "categories" record = Some cat.
Proof.
  intros cat contrib_id ty prop_url decoded record. subst record.
  unfold candidate.
  rewrite !get_with_download, !get_inject_other by discriminate.
  unfold contextual. repeat split.
  - rewrite !get_set_other by discriminate. apply get_set_same.
  - rewrite !get_set_other by discriminate. apply get_set_same.
  - rewrite get_set_other by discriminate. apply get_set_same.
  - apply get_set_same.
Qed.

Lemma get_min_with_min (exports : Dict.t string) :
  Dict.get "minRevision" (with_min exports)
  = Some match Dict.get "minRevision" exports with
         | Some (String c r) => String c r
         | _ => "0"
         end.
Proof.
  unfold with_min.
  destruct (Dict.get "minRevision" exports) as [[|c r]|] eqn:E;
    [apply get_set_same|assumption|apply get_set_same].
Qed.

(** X13: a minRevision the descriptor gives is kept, and an absent or
    empty one becomes ["0"]; for an id that is not listed as broken the same
    holds of maxRevision. *)
Theorem descriptor_revisions_are_kept :
  forall (cat contrib_id ty prop_url decoded : string),
    let record := candidate broken_ids cat contrib_id ty prop_url decoded in
    Dict.get "minRevision" record
    = Some match Dict.get "minRevision" (read_exports decoded) with
           | Some (String c r) => String c r
           | _ => "0"
           end
    /\ (listed contrib_id broken_ids = false ->
        Dict.get "maxRevision" record
        = Some match Dict.get "maxRevision" (read_exports decoded) with
               | Some (String c r) => String c r
               | _ => "0"
               end).
Proof.
  intros cat contrib_id ty prop_url decoded record. subst record.
  unfold candidate. rewrite !get_with_download by discriminate.
  rewrite !inject_unfold. cbv zeta.
  set (e := with_min (contextual cat contrib_id ty prop_url
                        (read_exports decoded))).
  assert (Dict.get "minRevision" e
          = Some match Dict.get "minRevision" (read_exports decoded) with
                 | Some (String c r) => String c r
                 | _ => "0"
                 end) as Hmin.
  { subst e. rewrite get_min_with_min.
    now rewrite get_contextual by discriminate. }
  assert (Dict.get "maxRevision" e
          = Dict.get "maxRevision" (read_exports decoded)) as Hmax.
  { subst e. rewrite get_with_min by discriminate.
    apply get_contextual; discriminate. }
  split.
  - destruct (listed contrib_id broken_ids).
    + now rewrite get_set_other by discriminate.
    + destruct (Dict.get "maxRevision" e) as [[|]|];
        now rewrite ?get_set_other by discriminate.
  - intros ->. rewrite Hmax.
    destruct (Dict.get "maxRevision" (read_exports decoded)) as [[|c r]|] eqn:E;
      [apply get_set_same|now rewrite Hmax|apply get_set_same].
Qed.

End FieldFacts.

Lemma descriptor_revisions_are_kept_witness :
  Dict.get "maxRevision"
    (candidate ["044"] "Sound" "043" "library" "http://x/a.txt"
       (sample_descriptor "maxRevision=250"))
  = Some match Dict.get "maxRevision"
                 (read_exports (sample_descriptor "maxRevision=250")) with
         | Some (String c r) => String c r
         | _ => "0"
         end.
Proof.
  apply (proj2 (descriptor_revisions_are_kept ["044"] "Sound" "043" "library"
                  "http://x/a.txt" (sample_descriptor "maxRevision=250"))).
  reflexivity.
Defined.

(** ** Runs *)

Section RunProperties.

Variable urlopen : string -> result string.
Variable broken_ids : list string.
Variable skipped_ids : list string.
Variable minrev : arg.
Variable maxrev : arg.
Variable recreate_dir : string -> result unit.
Variable open_w : string -> result unit.

Lemma process_contrib_escape_class (cat : string) (contrib : entry)
  (tbl : table) (e : exn) :
  escaped (process_contrib urlopen broken_ids skipped_ids minrev maxrev
             cat contrib tbl) = Some e ->
  ~ handled e.
Proof.
  destruct contrib as [[ty contrib_id] prop_url].
  unfold process_contrib, handled.
  destruct (listed contrib_id skipped_ids); [discriminate|].
  destruct (try_body _ _ _ _ _ _ _ _ _ _) as [evs [tbl'|[]]];
    simpl; intros [= <-]; intuition discriminate.
Qed.

Lemma fetch_loop_escape_class (todo : list (string * entry)) (tbl : table)
  (e : exn) :
  escaped (fetch_loop urlopen broken_ids skipped_ids minrev maxrev todo tbl)
  = Some e ->
  ~ handled e.
Proof.
  revert tbl. induction todo as [|[cat contrib] todo IH]; intros tbl.
  - discriminate.
  - rewrite fetch_loop_cons. cbv zeta.
    destruct (escaped (process_contrib _ _ _ _ _ cat contrib tbl)) as [e'|] eqn:E.
    + rewrite E. intros [= <-]. eapply process_contrib_escape_class, E.
    + cbn [escaped]. apply IH.
Qed.

(** X14: an exception that leaves the fetch loop ends the run with no
    file written, and is neither an [IOError] nor a [UnicodeDecodeError].
    Once the fetch loop has completed, the run can end with an exception only
    where the output directory is made anew or where a file of the table is
    opened and written.  In every case the files written are those of the
    first records of the table, in the order of the table. *)
Theorem run_fails_in_the_loop_or_on_the_disk :
  forall (conf_lines : list string) (dirout : string) (e : exn),
    let o := fetch_loop urlopen broken_ids skipped_ids minrev maxrev
               (jobs (get_lib_locations conf_lines)) [] in
    let run := batch urlopen broken_ids skipped_ids minrev maxrev
                 recreate_dir open_w conf_lines dirout in
    (escaped o = Some e ->
     snd run = Some e /\ written (fst run) = [] /\ ~ handled e)
    /\ (escaped o = None ->
        snd run = Some e ->
        recreate_dir dirout = Raise e
        \/ exists k record,
            In (k, record) (contribs o)
            /\ open_w (export_path dirout record) = Raise e)
    /\ exists n,
        written (fst run)
        = map (fun kv => (export_path dirout (snd kv),
                          format_exports (snd kv)))
            (firstn n (contribs o)).
Proof.
  intros conf_lines dirout e o run.
  destruct (batch_result urlopen broken_ids skipped_ids minrev maxrev
              recreate_dir open_w conf_lines dirout)
    as (_ & Hesc & Hprefix & _ & Hdisk & _).
  cbv zeta in Hesc, Hprefix, Hdisk. fold o run in Hesc, Hprefix, Hdisk.
  split; [|split; [|exact Hprefix]].
  - intros He. destruct (Hesc e He) as [Hrun Hw].
    repeat split; try assumption.
    eapply fetch_loop_escape_class. exact He.
  - intros Ho Hrun. destruct (Hdisk Ho e Hrun) as [H|([k record] & Hin & H)];
      [now left|].
    right. exists k, record. now split.
Qed.

Lemma fetch_loop_fetches (todo : list (string * entry)) (tbl : table) :
  escaped (fetch_loop urlopen broken_ids skipped_ids minrev maxrev todo tbl)
  = None ->
  fetched (happened (fetch_loop urlopen broken_ids skipped_ids minrev maxrev
                       todo tbl))
  = urls_to_fetch skipped_ids todo.
Proof.
  revert tbl.
  induction todo as [|[cat [[ty contrib_id] prop_url]] todo IH]; intros tbl.
  - reflexivity.
  - rewrite fetch_loop_cons. cbv zeta.
    destruct (process_contrib_events urlopen broken_ids skipped_ids minrev
                maxrev cat ty contrib_id prop_url tbl) as [_ Hf].
    destruct (escaped (process_contrib _ _ _ _ _ cat _ tbl)) as [e|] eqn:E.
    + rewrite E. discriminate.
    + cbn [escaped happened]. intros Hesc.
      rewrite fetched_app, Hf, (IH _ Hesc).
      unfold urls_to_fetch, job_id. cbn [List.filter fst snd].
      now destruct (listed contrib_id skipped_ids).
Qed.

(** X15: a run that completes opens the URL of every entry whose id is
    not skipped, once per entry and in the order of the configuration; a
    URL listed twice is fetched twice. *)
Theorem completed_run_fetches_every_entry_once :
  forall (conf_lines : list string) (dirout : string),
    snd (batch urlopen broken_ids skipped_ids minrev maxrev
        recreate_dir open_w conf_lines dirout)
    = None ->
    fetched (fst (batch urlopen broken_ids skipped_ids minrev maxrev
        recreate_dir open_w
                    conf_lines dirout))
    = urls_to_fetch skipped_ids (jobs (get_lib_locations conf_lines)).
Proof.
  intros conf_lines dirout Hrun.
  destruct (batch_result urlopen broken_ids skipped_ids minrev maxrev
              recreate_dir open_w conf_lines dirout)
    as (Hf & _ & _ & Hdone & _).
  cbv zeta in Hf, Hdone. destruct (Hdone Hrun) as [Hsnd _].
  rewrite Hf. now apply fetch_loop_fetches.
Qed.

End RunProperties.

Lemma run_fails_in_the_loop_or_on_the_disk_witness :
  (snd (batch two_entry_net [] [] (ArgInt 228) (ArgInt 0) always_ok always_ok
          two_entry_conf "out") = Some ValueError
   /\ written (fst (batch two_entry_net [] [] (ArgInt 228) (ArgInt 0)
                      always_ok always_ok two_entry_conf "out")) = []
   /\ ~ handled ValueError)
  /\ ((fun _ : string => @Raise unit IOError) "out" = Raise IOError
      \/ exists k record,
          In (k, record)
             (contribs (fetch_loop (sample_net "") [] [] (ArgInt 228)
                          (ArgInt 0) (jobs (get_lib_locations sample_conf))
                          []))
          /\ always_ok (export_path "out" record) = Raise IOError).
Proof.
  split.
  - apply (proj1 (run_fails_in_the_loop_or_on_the_disk two_entry_net [] []
                    (ArgInt 228) (ArgInt 0) always_ok always_ok
                    two_entry_conf "out" ValueError)).
    reflexivity.
  - apply (proj1 (proj2 (run_fails_in_the_loop_or_on_the_disk
                           (sample_net "") [] [] (ArgInt 228) (ArgInt 0)
                           (fun _ : string => @Raise unit IOError) always_ok
                           sample_conf "out" IOError)));
      reflexivity.
Defined.

Lemma completed_run_fetches_every_entry_once_witness :
  fetched (fst (batch (sample_net "") [] [] (ArgInt 228) (ArgInt 0)
                  always_ok always_ok sample_conf "out"))
  = urls_to_fetch [] (jobs (get_lib_locations sample_conf)).
Proof.
  apply (completed_run_fetches_every_entry_once (sample_net "") [] []
           (ArgInt 228) (ArgInt 0) always_ok always_ok sample_conf "out").
  reflexivity.
Defined.

(** ** Bounds *)

Section BoundFacts.

Variable urlopen : string -> result string.
Variable broken_ids : list string.
Variable skipped_ids : list string.
Variable minrev : arg.
Variable maxrev : arg.
Variable recreate_dir : string -> result unit.
Variable open_w : string -> result unit.

Lemma compatible_unbounded (exports : Dict.t string) :
  int_arg minrev = Ok 0 -> int_arg maxrev = Ok 0 ->
  compatible minrev maxrev exports = Ok true.
Proof.
  intros Hmin Hmax. unfold compatible. now rewrite Hmin, Hmax.
Qed.

Lemma process_contrib_unbounded (cat : string) (contrib : entry)
  (tbl : table) :
  int_arg minrev = Ok 0 -> int_arg maxrev = Ok 0 ->
  table_ok tbl ->
  (forall e, urlopen (snd contrib) = Raise e -> handled e) ->
  escaped (process_contrib urlopen broken_ids skipped_ids minrev maxrev
             cat contrib tbl)
  = None.
Proof.
  destruct contrib as [[ty contrib_id] prop_url]. cbn [snd].
  intros Hmin Hmax Hok Hraise. unfold process_contrib, try_body.
  destruct (listed contrib_id skipped_ids); [reflexivity|].
  destruct (urlopen prop_url) as [decoded|e] eqn:Hu.
  - destruct (missing_key _) as [key|] eqn:Hm; [reflexivity|].
    fold (candidate broken_ids cat contrib_id ty prop_url decoded).
    rewrite (compatible_unbounded _ Hmin Hmax). cbn [bind].
    destruct (accumulate_ok cat contrib_id _ tbl Hok
                (candidate_ok broken_ids _ _ _ _ _ Hm)) as (tbl' & -> & _).
    reflexivity.
  - destruct (Hraise e eq_refl) as [->| ->]; reflexivity.
Qed.

Lemma fetch_loop_unbounded (todo : list (string * entry)) (tbl : table) :
  int_arg minrev = Ok 0 -> int_arg maxrev = Ok 0 ->
  table_ok tbl ->
  Forall (fun job => forall e, urlopen (snd (snd job)) = Raise e -> handled e)
    todo ->
  escaped (fetch_loop urlopen broken_ids skipped_ids minrev maxrev todo tbl)
  = None.
Proof.
  intros Hmin Hmax Hok Hall. revert tbl Hok.
  induction Hall as [|[cat contrib] todo Hjob Hall IH]; intros tbl Hok.
  - reflexivity.
  - rewrite fetch_loop_cons. cbv zeta.
    rewrite (process_contrib_unbounded cat contrib tbl Hmin Hmax Hok Hjob).
    cbn [escaped]. apply IH. now apply process_contrib_table_ok.
Qed.

(** X16: when both bounds convert to 0 no revision field is converted:
    every fetched record with the required keys is accepted, whatever its
    minRevision and maxRevision hold, and the fetch loop completes as soon as
    the fetches raise nothing but [IOError] and [UnicodeDecodeError].  The
    run then completes when the output directory can be made anew and every
    file of the table can be written. *)
Theorem unbounded_run_converts_no_revision :
  forall (conf_lines : list string) (dirout : string),
    let todo := jobs (get_lib_locations conf_lines) in
    let o := fetch_loop urlopen broken_ids skipped_ids minrev maxrev todo [] in
    int_arg minrev = Ok 0 ->
    int_arg maxrev = Ok 0 ->
    Forall (fun job => forall e, urlopen (snd (snd job)) = Raise e -> handled e)
      todo ->
    escaped o = None
    /\ (forall (cat ty contrib_id prop_url decoded : string),
           listed contrib_id skipped_ids = false ->
           urlopen prop_url = Ok decoded ->
           missing_key (inject broken_ids cat contrib_id ty prop_url
                          (read_exports decoded)) = None ->
           accepts urlopen broken_ids skipped_ids minrev maxrev
             (cat, (ty, contrib_id, prop_url)) = true)
    /\ ((exists u, recreate_dir dirout = Ok u) ->
        (forall k record,
            In (k, record) (contribs o) ->
            exists u, open_w (export_path dirout record) = Ok u) ->
        snd (batch urlopen broken_ids skipped_ids minrev maxrev
               recreate_dir open_w conf_lines dirout) = None).
Proof.
  intros conf_lines dirout todo o Hmin Hmax Hall.
  assert (escaped o = None) as Hesc
      by (apply fetch_loop_unbounded; try assumption; apply table_ok_empty).
  split; [assumption|]. split.
  - intros cat ty contrib_id prop_url decoded Hs Hu Hm.
    unfold accepts. rewrite Hs, Hu, Hm.
    now rewrite (compatible_unbounded _ Hmin Hmax).
  - intros Hdir Hopen.
    destruct (batch_result urlopen broken_ids skipped_ids minrev maxrev
                recreate_dir open_w conf_lines dirout)
      as (_ & _ & _ & _ & _ & Hcomplete).
    cbv zeta in Hcomplete. apply Hcomplete; [assumption..|].
    intros [k record] Hin. now apply (Hopen k).
Qed.

(** X17: a contribution listed as broken, fetched with all required keys
    and not skipped, is accepted whenever the upper bound converts to 0 and
    the lower bound to an integer that is at most 228, as with the default
    bounds 228 and 0. *)
Theorem broken_id_passes_default_bounds :
  forall (lo_bound : Z) (cat ty contrib_id prop_url decoded : string),
    int_arg minrev = Ok lo_bound ->
    lo_bound <= 228 ->
    int_arg maxrev = Ok 0 ->
    listed contrib_id broken_ids = true ->
    listed contrib_id skipped_ids = false ->
    urlopen prop_url = Ok decoded ->
    missing_key (inject broken_ids cat contrib_id ty prop_url
                   (read_exports decoded)) = None ->
    accepts urlopen broken_ids skipped_ids minrev maxrev
      (cat, (ty, contrib_id, prop_url)) = true.
Proof.
  intros lo_bound cat ty contrib_id prop_url decoded Hmin Hle Hmax Hb Hs Hu Hm.
  unfold accepts. rewrite Hs, Hu, Hm.
  assert (int_field "maxRevision"
            (candidate broken_ids cat contrib_id ty prop_url decoded)
          = Ok 228) as Hhi.
  { unfold int_field, Dict.item, candidate.
    rewrite get_with_download by discriminate.
    rewrite inject_unfold. cbv zeta. rewrite Hb, get_set_same. reflexivity. }
  unfold compatible. rewrite Hmin, Hmax, Hhi. cbn [bind].
  destruct (lo_bound =? 0); [reflexivity|].
  change (228 =? 0) with false. cbn [orb bind].
  assert ((lo_bound <=? 228) = true) as -> by now apply Z.leb_le.
  reflexivity.
Qed.

End BoundFacts.

Lemma unbounded_run_converts_no_revision_witness :
  escaped (fetch_loop two_entry_net [] [] (ArgStr "0") (ArgInt 0)
             (jobs (get_lib_locations two_entry_conf)) []) = None
  /\ (forall (cat ty contrib_id prop_url decoded : string),
         listed contrib_id [] = false ->
         two_entry_net prop_url = Ok decoded ->
         missing_key (inject [] cat contrib_id ty prop_url
                        (read_exports decoded)) = None ->
         accepts two_entry_net [] [] (ArgStr "0") (ArgInt 0)
           (cat, (ty, contrib_id, prop_url)) = true)
  /\ ((exists u, always_ok "out" = Ok u) ->
      (forall k record,
          In (k, record)
             (contribs (fetch_loop two_entry_net [] [] (ArgStr "0") (ArgInt 0)
                          (jobs (get_lib_locations two_entry_conf)) [])) ->
          exists u, always_ok (export_path "out" record) = Ok u) ->
      snd (batch two_entry_net [] [] (ArgStr "0") (ArgInt 0)
             always_ok always_ok two_entry_conf "out") = None).
Proof.
  apply (unbounded_run_converts_no_revision two_entry_net [] []
           (ArgStr "0") (ArgInt 0) always_ok always_ok two_entry_conf "out").
  - reflexivity.
  - reflexivity.
  - assert (jobs (get_lib_locations two_entry_conf)
            = [("Sound", ("library", "043", "http://x/a.txt"));
               ("Sound", ("library", "044", "http://x/b.txt"))]) as ->
        by reflexivity.
    constructor; [|constructor; [|constructor]];
      intros e H; vm_compute in H; discriminate H.
Defined.

Lemma broken_id_passes_default_bounds_witness :
  accepts (sample_net "maxRevision=100") ["043"] [] (ArgInt 228) (ArgInt 0)
    ("Sound", ("library", "043", "http://x/a.txt")) = true.
Proof.
  apply (broken_id_passes_default_bounds (sample_net "maxRevision=100")
           ["043"] [] (ArgInt 228) (ArgInt 0) 228
           "Sound" "library" "043" "http://x/a.txt"
           (sample_descriptor "maxRevision=100"));
    [reflexivity|lia|reflexivity..].
Defined.

(** ** Which descriptor a record comes from *)

Lemma accumulate_new (cat contrib_id : string) (exports : Dict.t string)
  (tbl : table) :
  Dict.get contrib_id tbl = None ->
  accumulate cat contrib_id exports tbl
  = Ok (Dict.set contrib_id exports tbl).
Proof.
  intros H. unfold accumulate, Dict.mem. now rewrite H.
Qed.

Lemma accumulate_keeps_fields (cat contrib_id i : string)
  (exports r0 : Dict.t string) (tbl tbl' : table) :
  accumulate cat contrib_id exports tbl = Ok tbl' ->
  Dict.get i tbl = Some r0 ->
  exists r,
    Dict.get i tbl' = Some r
    /\ forall k, k <> "categories" -> Dict.get k r = Dict.get k r0.
Proof.
  unfold accumulate, Dict.mem, Dict.item. intros Ha Hi.
  destruct (String.eqb contrib_id i) eqn:E.
  - apply String.eqb_eq in E. subst i. rewrite Hi in Ha. simpl in Ha.
    destruct (Dict.get "categories" r0) as [c|]; simpl in Ha; [|discriminate].
    injection Ha as <-. eexists. split; [apply get_set_same|].
    intros k Hk. now apply get_set_other.
  - apply String.eqb_neq in E. exists r0. split; [|reflexivity].
    destruct (Dict.get contrib_id tbl) as [r|]; simpl in Ha.
    + destruct (Dict.get "categories" r); simpl in Ha; [|discriminate].
      injection Ha as <-. rewrite get_set_other; [assumption|congruence].
    + injection Ha as <-. rewrite get_set_other; [assumption|congruence].
Qed.

Section OriginFacts.

Variable urlopen : string -> result string.
Variable broken_ids : list string.
Variable skipped_ids : list string.
Variable minrev : arg.
Variable maxrev : arg.

Lemma fetch_loop_app (a b : list (string * entry)) (tbl : table) :
  escaped (fetch_loop urlopen broken_ids skipped_ids minrev maxrev a tbl)
  = None ->
  contribs (fetch_loop urlopen broken_ids skipped_ids minrev maxrev
              (a ++ b) tbl)
  = contribs (fetch_loop urlopen broken_ids skipped_ids minrev maxrev b
                (contribs (fetch_loop urlopen broken_ids skipped_ids minrev
                             maxrev a tbl)))
  /\ escaped (fetch_loop urlopen broken_ids skipped_ids minrev maxrev
                (a ++ b) tbl)
     = escaped (fetch_loop urlopen broken_ids skipped_ids minrev maxrev b
                  (contribs (fetch_loop urlopen broken_ids skipped_ids minrev
                               maxrev a tbl))).
Proof.
  revert tbl. induction a as [|[cat contrib] a IH]; intros tbl.
  - intros _. split; reflexivity.
  - change (((cat, contrib) :: a) ++ b)%list with ((cat, contrib) :: a ++ b)%list.
    rewrite !fetch_loop_cons. cbv zeta.
    destruct (escaped (process_contrib _ _ _ _ _ cat contrib tbl)) eqn:E.
    + rewrite E. discriminate.
    + cbn [escaped contribs]. apply IH.
Qed.

Lemma fetch_loop_keeps_fields (i : string) (todo : list (string * entry))
  (tbl : table) (r0 : Dict.t string) :
  table_ok tbl ->
  escaped (fetch_loop urlopen broken_ids skipped_ids minrev maxrev todo tbl)
  = None ->
  Dict.get i tbl = Some r0 ->
  exists r,
    Dict.get i (contribs (fetch_loop urlopen broken_ids skipped_ids minrev
                            maxrev todo tbl)) = Some r
    /\ forall k, k <> "categories" -> Dict.get k r = Dict.get k r0.
Proof.
  revert tbl r0.
  induction todo as [|[cat [[ty contrib_id] prop_url]] todo IH];
    intros tbl r0 Hok Hesc Hi.
  - exists r0. now split.
  - rewrite fetch_loop_cons in *. cbv zeta in *.
    pose proof (process_contrib_step urlopen broken_ids skipped_ids minrev
                  maxrev cat ty contrib_id prop_url tbl) as Hstep.
    cbv zeta in Hstep.
    pose proof (process_contrib_table_ok urlopen broken_ids skipped_ids minrev
                  maxrev cat (ty, contrib_id, prop_url) tbl Hok) as Hok1.
    destruct (escaped (process_contrib _ _ _ _ _ cat _ tbl)) eqn:He1;
      [congruence|].
    cbn [contribs escaped] in *.
    destruct (accepts _ _ _ _ _ _).
    + destruct Hstep as (decoded & Hu & Hm & Hstep).
      destruct (accumulate_ok cat contrib_id _ tbl Hok
                  (candidate_ok broken_ids _ _ _ _ _ Hm))
        as (tbl' & Ha & _).
      rewrite Ha in Hstep. destruct Hstep as [Hc _].
      destruct (accumulate_keeps_fields _ _ i _ r0 _ _ Ha Hi) as (r1 & H1 & Hk1).
      rewrite <- Hc in H1.
      destruct (IH _ r1 Hok1 Hesc H1) as (r & Hr & Hk).
      exists r. split; [assumption|].
      intros k Hne. now rewrite Hk, Hk1.
    + rewrite Hstep in *. now apply IH.
Qed.

(** X18: the record of an id comes from the first entry accepted for it.
    When the run of the loop completes, every field of the record other than
    [categories] is the one of that first descriptor; entries accepted later
    for the same id add their category and nothing else. *)
Theorem first_accepted_descriptor_wins :
  forall (before after : list (string * entry))
         (cat ty i prop_url decoded : string),
    let todo := (before ++ (cat, (ty, i, prop_url)) :: after)%list in
    escaped (fetch_loop urlopen broken_ids skipped_ids minrev maxrev todo [])
    = None ->
    accepted_cats urlopen broken_ids skipped_ids minrev maxrev i before = [] ->
    accepts urlopen broken_ids skipped_ids minrev maxrev
      (cat, (ty, i, prop_url)) = true ->
    urlopen prop_url = Ok decoded ->
    exists record,
      Dict.get i (contribs (fetch_loop urlopen broken_ids skipped_ids minrev
                              maxrev todo [])) = Some record
      /\ forall k, k <> "categories" ->
           Dict.get k record
           = Dict.get k (candidate broken_ids cat i ty prop_url decoded).
Proof.
  intros before after cat ty i prop_url decoded todo Hesc Hnone Hacc Hu.
  subst todo.
  assert (escaped (fetch_loop urlopen broken_ids skipped_ids minrev maxrev
                     before []) = None) as Hb.
  { destruct (escaped (fetch_loop _ _ _ _ _ before [])) as [e|] eqn:E;
      [|reflexivity].
    exfalso. clear Hnone. revert Hesc E. generalize (@nil (string * Dict.t string)).
    induction before as [|[c0 e0] before IH]; intros tbl Hesc E.
    - discriminate.
    - change (((c0, e0) :: before) ++ (cat, (ty, i, prop_url)) :: after)%list
        with ((c0, e0) :: before ++ (cat, (ty, i, prop_url)) :: after)%list
        in Hesc.
      rewrite fetch_loop_cons in *. cbv zeta in *.
      destruct (escaped (process_contrib _ _ _ _ _ c0 e0 tbl)) eqn:E0.
      + rewrite E0 in Hesc. discriminate.
      + cbn [escaped] in *. eapply IH; eassumption. }
  destruct (fetch_loop_app before ((cat, (ty, i, prop_url)) :: after) [] Hb)
    as [Hc He].
  rewrite Hc. rewrite He in Hesc.
  pose proof (fetch_loop_table_ok urlopen broken_ids skipped_ids minrev maxrev
                before [] table_ok_empty) as Hok.
  pose proof (fetch_loop_categories urlopen broken_ids skipped_ids minrev
                maxrev i before [] table_ok_empty Hb) as Hcat.
  rewrite Hnone in Hcat. unfold categories_of in Hcat. cbn [Dict.get] in Hcat.
  set (tbl := contribs (fetch_loop urlopen broken_ids skipped_ids minrev
                          maxrev before [])) in *.
  assert (Dict.get i tbl = None) as Hi.
  { destruct (Dict.get i tbl) as [r|] eqn:E; [|reflexivity].
    destruct Hok as [_ Hall].
    destruct (get_forall record_ok _ _ _ Hall E) as (_ & Hm & _).
    now apply missing_key_categories in Hm. }
  rewrite fetch_loop_cons in *. cbv zeta in *.
  pose proof (process_contrib_step urlopen broken_ids skipped_ids minrev
                maxrev cat ty i prop_url tbl) as Hstep.
  cbv zeta in Hstep. rewrite Hacc in Hstep.
  destruct Hstep as (decoded' & Hu' & Hm & Hstep).
  rewrite Hu in Hu'. injection Hu' as <-.
  rewrite (accumulate_new _ _ _ _ Hi) in Hstep. destruct Hstep as [Hc1 He1].
  pose proof (process_contrib_table_ok urlopen broken_ids skipped_ids minrev
                maxrev cat (ty, i, prop_url) tbl Hok) as Hok1.
  rewrite He1 in *. cbn [contribs escaped] in *.
  apply (fetch_loop_keeps_fields i after _ _ Hok1 Hesc).
  rewrite Hc1. apply get_set_same.
Qed.

End OriginFacts.

Lemma first_accepted_descriptor_wins_witness :
  exists record,
    Dict.get "043"
      (contribs (fetch_loop (sample_net "") [] [] (ArgInt 228) (ArgInt 0)
                   ([] ++ ("Sound", ("library", "043", "http://x/a.txt"))
                       :: [("Vision", ("tool", "043", "http://x/a.txt"))])%list
                   []))
    = Some record
    /\ forall k, k <> "categories" ->
         Dict.get k record
         = Dict.get k (candidate [] "Sound" "043" "library" "http://x/a.txt"
                         (sample_descriptor "")).
Proof.
  apply (first_accepted_descriptor_wins (sample_net "") [] []
           (ArgInt 228) (ArgInt 0)
           [] [("Vision", ("tool", "043", "http://x/a.txt"))]
           "Sound" "library" "043" "http://x/a.txt" (sample_descriptor ""));
    reflexivity.
Defined.

(** ** Start of the program *)

(** X19: the program goes on only with one, three or five elements in
    [argv] and with an upper bound that is 0 or at least 228; any other
    number of arguments ends with the usage message.  The lower bound is
    not looked at: any string is let through. *)
Theorem startup_checks_the_upper_bound_only :
  (forall (argv : list string) (conf dirout : string) (minrev maxrev : arg),
      startup argv = Ok (Proceed conf dirout minrev maxrev) ->
      (List.length argv = 1 \/ List.length argv = 3 \/ List.length argv = 5)%nat
      /\ exists m, int_arg maxrev = Ok m /\ (m = 0 \/ 228 <= m))
  /\ (forall (argv : list string),
         (List.length argv <> 1 /\ List.length argv <> 3
          /\ List.length argv <> 5)%nat ->
         startup argv = Ok Usage)
  /\ (forall (script conf dirout minrev : string),
         startup [script; conf; dirout; minrev; "0"]
         = Ok (Proceed conf dirout (ArgStr minrev) (ArgStr "0"))).
Proof.
  split; [|split].
  - intros argv conf dirout minrev maxrev. unfold startup.
    destruct (read_args argv) as [[[[conf0 dirout0] mn] mx]|] eqn:Ea;
      [|discriminate].
    destruct (int_arg mx) as [m|e] eqn:Em; cbn [bind]; [|discriminate].
    destruct (negb (m =? 0) && (m <? 228)) eqn:Eg; [discriminate|].
    intros [= <- <- <- <-]. split.
    + destruct argv as [|a0 [|a1 [|a2 [|a3 [|a4 [|a5 argv]]]]]];
        simpl in *; try discriminate; auto.
    + exists m. split; [assumption|].
      apply andb_false_iff in Eg. destruct Eg as [Eg|Eg].
      * apply negb_false_iff, Z.eqb_eq in Eg. now left.
      * apply Z.ltb_ge in Eg. now right.
  - intros argv (H1 & H3 & H5). unfold startup.
    destruct argv as [|a0 [|a1 [|a2 [|a3 [|a4 [|a5 argv]]]]]];
      simpl in *; try reflexivity; congruence.
  - reflexivity.
Qed.

Lemma startup_checks_the_upper_bound_only_witness :
  (List.length ["build_json.py"; "sources.conf"; "out"; "abc"; "300"] = 1
   \/ List.length ["build_json.py"; "sources.conf"; "out"; "abc"; "300"] = 3
   \/ List.length ["build_json.py"; "sources.conf"; "out"; "abc"; "300"] = 5)%nat
  /\ exists m, int_arg (ArgStr "300") = Ok m /\ (m = 0 \/ 228 <= m).
Proof.
  apply (proj1 startup_checks_the_upper_bound_only
           ["build_json.py"; "sources.conf"; "out"; "abc"; "300"]
           "sources.conf" "out" (ArgStr "abc") (ArgStr "300")).
  reflexivity.
Defined.

(** ** What the descriptor parser always returns *)

Lemma occurs_cut_comment (c : ascii) (raw : string) :
  PyStr.occurs c (cut_comment raw) -> PyStr.occurs c raw.
Proof.
  unfold cut_comment, PyStr.slice_to.
  destruct (PyStr.find "#" raw =? -1).
  - apply occurs_strip.
  - apply occurs_take.
Qed.

Lemma read_exports_line_ok (tbl : Dict.t string) (line : string) :
  ~ PyStr.occurs "010" line ->
  NoDup (Dict.keys tbl) /\ Forall pair_clean tbl ->
  NoDup (Dict.keys (read_exports_line tbl line))
  /\ Forall pair_clean (read_exports_line tbl line).
Proof.
  intros Hnl [Hnd Hall]. unfold read_exports_line.
  pose proof (cut_comment_no_hash line) as Hhash.
  assert (~ PyStr.occurs "010" (cut_comment line)) as Hnl'
      by (intros H; now apply occurs_cut_comment in H).
  set (cut := cut_comment line) in *.
  destruct (PyStr.len cut =? 0); [now split|].
  destruct (find_cases "=" cut) as [[-> _]|(p & q & Hcut & Hp & Hf)];
    [now split|].
  rewrite Hf. pose proof (len_nonneg p) as Hlen.
  destruct (PyStr.len p =? -1) eqn:E; [apply Z.eqb_eq in E; lia|].
  clear Hlen E.
  split; [now apply nodup_keys_set|].
  apply forall_set; [assumption|].
  assert (forall c, PyStr.occurs c p -> PyStr.occurs c cut) as Hin.
  { intros c Hc. rewrite Hcut. apply occurs_app. now left. }
  assert (PyStr.slice_to cut (PyStr.len p) = p) as ->
      by (rewrite Hcut; apply slice_to_prefix).
  unfold pair_clean. cbn [fst snd].
  repeat split; intros H; apply occurs_strip in H;
    try (apply Hin in H; tauto); try tauto;
    unfold PyStr.slice_from in H; apply occurs_drop in H; tauto.
Qed.

Lemma read_exports_lines_ok (lines : list string) (tbl : Dict.t string) :
  Forall (fun line => ~ PyStr.occurs "010" line) lines ->
  NoDup (Dict.keys tbl) /\ Forall pair_clean tbl ->
  NoDup (Dict.keys (fold_left read_exports_line lines tbl))
  /\ Forall pair_clean (fold_left read_exports_line lines tbl).
Proof.
  intros Hlines. revert tbl.
  induction Hlines as [|line lines Hline Hlines IH]; intros tbl Hok;
    [assumption|].
  cbn [fold_left]. now apply IH, read_exports_line_ok.
Qed.

(** X20: whatever the descriptor text is, the table [read_exports]
    returns has distinct keys; no key and no value holds a comment sign or a
    newline, and no key holds an equals sign. *)
Theorem read_exports_table_is_clean :
  forall (decoded : string),
    NoDup (Dict.keys (read_exports decoded))
    /\ forall k v, In (k, v) (read_exports decoded) ->
         ~ PyStr.occurs "#" k /\ ~ PyStr.occurs "=" k
         /\ ~ PyStr.occurs "010" k
         /\ ~ PyStr.occurs "#" v /\ ~ PyStr.occurs "010" v.
Proof.
  intros decoded. unfold read_exports.
  set (lines := PyStr.split "010" _).
  assert (Forall (fun line => ~ PyStr.occurs "010" line) lines) as Hlines.
  { apply Forall_forall. intros line Hin.
    exact (proj1 (split_pieces "010" "010" _ line Hin)). }
  destruct (read_exports_lines_ok lines [] Hlines) as [Hnd Hall].
  { split; constructor. }
  split; [assumption|].
  intros k v Hin. rewrite Forall_forall in Hall. exact (Hall _ Hin).
Qed.

Lemma read_exports_table_is_clean_witness :
  ~ PyStr.occurs "#" "sentence" /\ ~ PyStr.occurs "=" "sentence"
  /\ ~ PyStr.occurs "010" "sentence"
  /\ ~ PyStr.occurs "#" "a=b" /\ ~ PyStr.occurs "010" "a=b".
Proof.
  apply (proj2 (read_exports_table_is_clean
                  ("name=Foo" ++ LF ++ " sentence = a=b # c" ++ CR ++ LF))).
  right. left. reflexivity.
Defined.

(** ** One line of a descriptor *)

Lemma drop_app_length (s t : string) :
  PyStr.drop (String.length s) (s ++ t) = t.
Proof.
  induction s as [|a s IH]; simpl; [now destruct t|assumption].
Qed.

Lemma slice_from_suffix (p q : string) :
  PyStr.slice_from (p ++ q) (PyStr.len p) = q.
Proof.
  unfold PyStr.slice_from, PyStr.len. rewrite bound_inside.
  - rewrite Nat2Z.id. apply drop_app_length.
  - rewrite str_length_app. lia.
Qed.

Lemma rstrip_cons_keeps (c : ascii) (s : string) :
  PyStr.isspace c = false ->
  PyStr.rstrip (String c s) = String c (PyStr.rstrip s).
Proof.
  intros Hc. simpl. destruct (PyStr.rstrip s); [now rewrite Hc|reflexivity].
Qed.

Lemma rstrip_app_keeps (a : string) (c : ascii) (s : string) :
  PyStr.isspace c = false ->
  PyStr.rstrip (a ++ String c s) = a ++ String c (PyStr.rstrip s).
Proof.
  intros Hc. induction a as [|x a IH].
  - now apply rstrip_cons_keeps.
  - cbn [append PyStr.rstrip]. rewrite IH.
    destruct (a ++ String c (PyStr.rstrip s)) eqn:E; [|reflexivity].
    destruct a; discriminate.
Qed.

Lemma lstrip_app_keeps (a : string) (c : ascii) (s : string) :
  PyStr.isspace c = false ->
  PyStr.lstrip (a ++ String c s) = PyStr.lstrip a ++ String c s.
Proof.
  intros Hc. induction a as [|x a IH]; simpl.
  - now rewrite Hc.
  - destruct (PyStr.isspace x); [assumption|reflexivity].
Qed.

Lemma lstrip_idempotent (s : string) :
  PyStr.lstrip (PyStr.lstrip s) = PyStr.lstrip s.
Proof.
  induction s as [|a s IH]; simpl; [reflexivity|].
  destruct (PyStr.isspace a) eqn:E; [assumption|]. simpl. now rewrite E.
Qed.

Lemma rstrip_idempotent (s : string) :
  PyStr.rstrip (PyStr.rstrip s) = PyStr.rstrip s.
Proof.
  induction s as [|a s IH]; simpl; [reflexivity|].
  destruct (PyStr.rstrip s) as [|b r] eqn:E.
  - destruct (PyStr.isspace a) eqn:Ea; simpl; [reflexivity|now rewrite Ea].
  - cbn [PyStr.rstrip] in *. now rewrite IH.
Qed.

Lemma strip_rstrip (s : string) :
  PyStr.strip (PyStr.rstrip s) = PyStr.strip s.
Proof.
  unfold PyStr.strip. induction s as [|a s IH]; [reflexivity|].
  destruct (PyStr.isspace a) eqn:Ea.
  - assert (forall t, PyStr.lstrip (String a t) = PyStr.lstrip t) as Hl
        by (intros t; simpl; now rewrite Ea).
    assert (PyStr.rstrip (String a s)
            = match PyStr.rstrip s with
              | EmptyString => EmptyString
              | String b r => String a (String b r)
              end) as ->.
    { simpl. destruct (PyStr.rstrip s); [now rewrite Ea|reflexivity]. }
    rewrite Hl. destruct (PyStr.rstrip s) as [|b r] eqn:E.
    + rewrite <- IH. reflexivity.
    + rewrite Hl. exact IH.
  - assert (forall t, PyStr.lstrip (String a t) = String a t) as Hl
        by (intros t; simpl; now rewrite Ea).
    rewrite (rstrip_cons_keeps a s Ea), !Hl.
    rewrite (rstrip_cons_keeps a _ Ea), rstrip_idempotent.
    symmetry. now apply rstrip_cons_keeps.
Qed.

Lemma strip_lstrip (s : string) :
  PyStr.strip (PyStr.lstrip s) = PyStr.strip s.
Proof.
  unfold PyStr.strip. now rewrite lstrip_idempotent.
Qed.

(** The text kept from a line [k=v], with or without a comment. *)
Lemma cut_comment_pair (k v tail : string) :
  ~ PyStr.occurs "#" k -> ~ PyStr.occurs "#" v ->
  tail = EmptyString \/ (exists comment, tail = "#" ++ comment) ->
  exists k' v',
    cut_comment (k ++ "=" ++ v ++ tail) = k' ++ String "="%char v'
    /\ PyStr.strip k' = PyStr.strip k
    /\ PyStr.strip v' = PyStr.strip v
    /\ (PyStr.occurs "=" k' -> PyStr.occurs "=" k).
Proof.
  intros Hk Hv [->|(comment & ->)].
  - exists (PyStr.lstrip k), (PyStr.rstrip v).
    unfold cut_comment, PyStr.find. rewrite find_from_absent.
    + change (-1 =? -1) with true. cbv iota. unfold PyStr.strip at 1.
      replace (k ++ "=" ++ v ++ "") with (k ++ String "="%char v).
      * rewrite lstrip_app_keeps, rstrip_app_keeps by reflexivity.
        repeat split; [apply strip_lstrip|apply strip_rstrip|].
        apply occurs_lstrip.
      * simpl. f_equal. f_equal. clear. induction v; simpl; congruence.
    + intros H. apply occurs_app in H. destruct H as [H|H]; [tauto|].
      simpl in H. destruct H as [H|H]; [discriminate|].
      apply occurs_app in H. simpl in H. tauto.
  - exists k, v.
    replace (k ++ "=" ++ v ++ "#" ++ comment)
      with ((k ++ "=" ++ v) ++ "#" ++ comment)
      by (now rewrite !app_assoc_str).
    rewrite cut_comment_at_hash; [now repeat split|].
    intros H. apply occurs_app in H. destruct H as [H|H]; [tauto|].
    simpl in H. destruct H as [H|H]; [discriminate|tauto].
Qed.

(** X21: a descriptor line [k=v], alone or followed by a comment, stores
    the stripped text after the first equals sign under the stripped text
    before it: the value may hold further equals signs, an earlier value of
    the key is replaced, and the other keys keep their values. *)
Theorem descriptor_line_sets_its_key :
  forall (tbl : Dict.t string) (k v tail : string),
    ~ PyStr.occurs "#" k -> ~ PyStr.occurs "=" k -> ~ PyStr.occurs "#" v ->
    tail = EmptyString \/ (exists comment, tail = "#" ++ comment) ->
    let tbl' := read_exports_line tbl (k ++ "=" ++ v ++ tail) in
    tbl' = Dict.set (PyStr.strip k) (PyStr.strip v) tbl
    /\ Dict.get (PyStr.strip k) tbl' = Some (PyStr.strip v)
    /\ forall j, j <> PyStr.strip k -> Dict.get j tbl' = Dict.get j tbl.
Proof.
  intros tbl k v tail Hk Heq Hv Htail tbl'.
  assert (tbl' = Dict.set (PyStr.strip k) (PyStr.strip v) tbl) as ->.
  { subst tbl'. unfold read_exports_line.
    destruct (cut_comment_pair k v tail Hk Hv Htail)
      as (k' & v' & -> & Hk' & Hv' & Heq').
    assert ((PyStr.len (k' ++ String "="%char v') =? 0) = false) as ->.
    { unfold PyStr.len. rewrite str_length_app. simpl String.length.
      apply Z.eqb_neq. lia. }
    unfold PyStr.find. rewrite find_from_app by tauto. simpl Z.add.
    pose proof (len_nonneg k') as Hlen.
    destruct (PyStr.len k' =? -1) eqn:E; [apply Z.eqb_eq in E; lia|].
    rewrite slice_to_prefix, Hk'.
    replace (k' ++ String "="%char v') with ((k' ++ "=") ++ v')
      by (now rewrite app_assoc_str).
    replace (PyStr.len k' + 1) with (PyStr.len (k' ++ "="))
      by (unfold PyStr.len; rewrite str_length_app; simpl String.length; lia).
    now rewrite slice_from_suffix, Hv'. }
  repeat split; [apply get_set_same|].
  intros j Hj. now apply get_set_other.
Qed.

Lemma descriptor_line_sets_its_key_witness :
  let tbl' := read_exports_line [("url", "old"); ("name", "Foo")]
                (" url " ++ "=" ++ " http://x/?a=b " ++ "") in
  tbl' = Dict.set (PyStr.strip " url ") (PyStr.strip " http://x/?a=b ")
           [("url", "old"); ("name", "Foo")]
  /\ Dict.get (PyStr.strip " url ") tbl' = Some (PyStr.strip " http://x/?a=b ")
  /\ forall j, j <> PyStr.strip " url " ->
       Dict.get j tbl' = Dict.get j [("url", "old"); ("name", "Foo")].
Proof.
  apply (descriptor_line_sets_its_key [("url", "old"); ("name", "Foo")]
           " url " " http://x/?a=b " "").
  - vm_compute. intuition discriminate.
  - vm_compute. intuition discriminate.
  - vm_compute. intuition discriminate.
  - left. reflexivity.
Defined.

Lemma missing_key_is_first_absent_witness :
  exists before after,
    required_keys = (before ++ "url" :: after)%list
    /\ Dict.get "url" [("name", "Foo"); ("authors", "Jane")] = None
    /\ forall k', In k' before ->
         Dict.get k' [("name", "Foo"); ("authors", "Jane")] <> None.
Proof.
  exact (missing_key_is_first_absent [("name", "Foo"); ("authors", "Jane")]).
Defined.

(** ** The download URL of the record *)

(** X22: when the descriptor URL holds a dot and no key of the record
    starts with [download], the record gets the URL up to its last dot,
    followed by [.zip], as its [download]; when some key starts with
    [download], the record is left as it is. *)
Theorem download_defaults_to_the_zip_beside_the_descriptor :
  forall (broken_ids : list string) (cat contrib_id ty p q decoded : string),
    ~ PyStr.occurs "." q ->
    let prop_url := p ++ "." ++ q in
    let record := inject broken_ids cat contrib_id ty prop_url
                    (read_exports decoded) in
    (no_download_key record = true ->
     Dict.get "download"
       (candidate broken_ids cat contrib_id ty prop_url decoded)
     = Some (p ++ ".zip"))
    /\ (no_download_key record = false ->
        candidate broken_ids cat contrib_id ty prop_url decoded = record).
Proof.
  intros broken_ids cat contrib_id ty p q decoded Hq prop_url record.
  subst prop_url record. unfold candidate.
  rewrite (default_download_truncates p q Hq).
  apply with_download_cases.
Qed.

Lemma download_defaults_to_the_zip_beside_the_descriptor_witness :
  Dict.get "download"
    (candidate [] "Sound" "043" "library" ("http://x.org/lib.v2" ++ "." ++ "txt")
       (sample_descriptor ""))
  = Some ("http://x.org/lib.v2" ++ ".zip")
  /\ candidate [] "Sound" "043" "library" ("http://x.org/lib.v2" ++ "." ++ "txt")
       (sample_descriptor "downloadUrl=http://y/z.zip")
     = inject [] "Sound" "043" "library" ("http://x.org/lib.v2" ++ "." ++ "txt")
         (read_exports (sample_descriptor "downloadUrl=http://y/z.zip")).
Proof.
  split.
  - apply (proj1 (download_defaults_to_the_zip_beside_the_descriptor
                    [] "Sound" "043" "library" "http://x.org/lib.v2" "txt"
                    (sample_descriptor "")
                    ltac:(vm_compute; intuition discriminate))).
    reflexivity.
  - apply (proj2 (download_defaults_to_the_zip_beside_the_descriptor
                    [] "Sound" "043" "library" "http://x.org/lib.v2" "txt"
                    (sample_descriptor "downloadUrl=http://y/z.zip")
                    ltac:(vm_compute; intuition discriminate))).
    reflexivity.
Defined.
